(** * obs_lsst: the LsstCam mapper

    A shallow embedding of [python/lsst/obs/lsst/lsstCamMapper.py]: the
    composite raw assembler [assemble_raw], the coadd identifier encoder
    [_computeCoaddExposureId] with its bit-width companions, and the
    per-channel query [query_raw_amp].

    Python integers are unbounded, so they are [Z]; dictionaries with
    string keys are [gmap string _]; a call either raises or returns, which
    is [Exc]; what a call changes or logs is threaded through [World]. *)

From Stdlib Require Import ZArith String Ascii List Lia.
From Stdlib Require Import PrimFloat Uint63 SpecFloat FloatOps.
From stdpp Require Import base option list gmap strings pretty.

Local Open Scope string_scope.
Local Open Scope Z_scope.

(** ** Python values and exceptions *)

Inductive PyVal : Type :=
  | VInt (z : Z)
  | VStr (s : string).

#[global] Instance PyVal_eq_dec : EqDecision PyVal.
Proof. solve_decision. Defined.

(** The exceptions the embedded functions can raise.  A [RuntimeError] or
    [ValueError] carries its formatted message where the arguments are
    constants, and the format template otherwise. *)
Inductive PyErr : Type :=
  | RuntimeError (msg : string)
  | ValueError (msg : string)
  | KeyError (key : string)
  | TypeError
  | IndexError
  | AttributeError
  | ZeroDivisionError.

Inductive Exc (A : Type) : Type :=
  | Raise (e : PyErr)
  | Return (a : A).
Arguments Raise {A} e.
Arguments Return {A} a.

#[global] Instance Exc_ret : MRet Exc := fun A a => Return a.
#[global] Instance Exc_bind : MBind Exc := fun A B k m =>
  match m with
  | Raise e => Raise e
  | Return a => k a
  end.

Definition raised {A} (m : Exc A) : bool :=
  match m with Raise _ => true | Return _ => false end.

(** [d[k]] on a dict. *)
Definition getitem {V} (d : gmap string V) (k : string) : Exc V :=
  match d !! k with
  | Some v => Return v
  | None => Raise (KeyError k)
  end.

(** ** Text

    A [str] is a sequence of code points; a [string] holds the bytes of
    its UTF-8 form.  Bytes that are not UTF-8 stand for no [str]: [int]
    and the search for digits stop at them as at a character that is
    neither a digit nor a space. *)

Module Unicode.

Local Open Scope N_scope.

Definition byte (c : ascii) : N := N_of_ascii c.

Definition continuation (c : ascii) : bool :=
  (128 <=? byte c) && (byte c <? 192).

(** The code point of a character of two, three or four bytes: [None]
    when the bytes are not the UTF-8 form of a character (a wrong lead or
    continuation byte, an overlong form, a surrogate, a value above
    U+10FFFF). *)
Definition code2 (c1 c2 : ascii) : option N :=
  if (194 <=? byte c1) && (byte c1 <? 224) && continuation c2
  then Some ((byte c1 - 192) * 64 + (byte c2 - 128))
  else None.

Definition code3 (c1 c2 c3 : ascii) : option N :=
  if (224 <=? byte c1) && (byte c1 <? 240) && continuation c2 && continuation c3
  then
    let cp := (byte c1 - 224) * 4096 + (byte c2 - 128) * 64 + (byte c3 - 128) in
    if (2048 <=? cp) && negb ((55296 <=? cp) && (cp <? 57344))
    then Some cp else None
  else None.

Definition code4 (c1 c2 c3 c4 : ascii) : option N :=
  if (240 <=? byte c1) && (byte c1 <? 245)
     && continuation c2 && continuation c3 && continuation c4
  then
    let cp := (byte c1 - 240) * 262144 + (byte c2 - 128) * 4096
              + (byte c3 - 128) * 64 + (byte c4 - 128) in
    if (65536 <=? cp) && (cp <? 1114112) then Some cp else None
  else None.

(** The decimal digits (category Nd) of Unicode 14.0, the version of
    CPython 3.11: each entry is the code point of a digit zero, followed
    by the digits one to nine. *)
Definition decimal_blocks : list N :=
  [48; 1632; 1776; 1984; 2406; 2534; 2662; 2790; 2918; 3046; 3174; 3302;
   3430; 3558; 3664; 3792; 3872; 4160; 4240; 6112; 6160; 6470; 6608; 6784;
   6800; 6992; 7088; 7232; 7248; 42528; 43216; 43264; 43472; 43504; 43600;
   44016; 65296; 66720; 68912; 69734; 69872; 69942; 70096; 70384; 70736;
   70864; 71248; 71360; 71472; 71904; 72016; 72784; 73040; 73120; 92768;
   92864; 93008; 120782; 120792; 120802; 120812; 120822; 123200; 123632;
   125264; 130032].

(** [Py_UNICODE_TODECIMAL]: the value of a decimal digit. *)
Definition decimal (cp : N) : option N :=
  (fun zero => cp - zero)
    <$> List.find (fun zero => (zero <=? cp) && (cp <? zero + 10)) decimal_blocks.

(** [Py_UNICODE_ISSPACE], which is [str.isspace] of one character. *)
Definition whitespace : list N :=
  [9; 10; 11; 12; 13; 28; 29; 30; 31; 32; 133; 160; 5760; 8192; 8193; 8194;
   8195; 8196; 8197; 8198; 8199; 8200; 8201; 8202; 8232; 8233; 8239; 8287;
   12288].

Definition isspace (cp : N) : bool := existsb (N.eqb cp) whitespace.

End Unicode.

Module PyStr.

(** [Py_ISSPACE]: the blanks the parser of [int] skips. *)
Definition isspace (c : ascii) : bool :=
  let n := Unicode.byte c in
  ((9 <=? n) && (n <=? 13) || (n =? 32))%N.

Definition digit (c : ascii) : option Z :=
  let n := Z.of_nat (nat_of_ascii c) in
  if (48 <=? n) && (n <=? 57) then Some (n - 48) else None.

Fixpoint lstrip (l : list ascii) : list ascii :=
  match l with
  | c :: l' => if isspace c then lstrip l' else l
  | [] => []
  end.

(** What [int] puts for a character from U+007F up before it parses: a
    blank for a space, the ASCII digit for a decimal digit. *)
Definition to_ascii (cp : N) : option ascii :=
  if Unicode.isspace cp then Some " "%char
  else (fun d => ascii_of_N (48 + d)) <$> Unicode.decimal cp.

(** The ASCII text [int] parses: characters below U+007F are kept, and
    the text ends in a question mark at the first character that is
    neither a space nor a decimal digit. *)
Fixpoint transform (l : list ascii) : list ascii :=
  let put (cp : N) (rest : list ascii) : list ascii :=
    match to_ascii cp with
    | Some c => c :: transform rest
    | None => ["?"%char]
    end in
  match l with
  | [] => []
  | c1 :: l1 =>
      if (Unicode.byte c1 <? 127)%N then c1 :: transform l1
      else if (Unicode.byte c1 <? 128)%N then put (Unicode.byte c1) l1
      else
        match l1 with
        | c2 :: l2 =>
            match Unicode.code2 c1 c2 with
            | Some cp => put cp l2
            | None =>
                match l2 with
                | c3 :: l3 =>
                    match Unicode.code3 c1 c2 c3 with
                    | Some cp => put cp l3
                    | None =>
                        match l3 with
                        | c4 :: l4 =>
                            match Unicode.code4 c1 c2 c3 c4 with
                            | Some cp => put cp l4
                            | None => ["?"%char]
                            end
                        | [] => ["?"%char]
                        end
                    end
                | [] => ["?"%char]
                end
            end
        | [] => ["?"%char]
        end
  end.

(** The run of digits and single underscores at the head of [l]: how many
    digits, their value after [acc], whether the run ends in an
    underscore, and what follows; [None] for two underscores in a row. *)
Fixpoint scan (count : N) (acc : Z) (underscore : bool) (l : list ascii)
  : option (N * Z * bool * list ascii) :=
  match l with
  | [] => Some (count, acc, underscore, [])
  | c :: l' =>
      match digit c with
      | Some d => scan (count + 1) (10 * acc + d) false l'
      | None =>
          if Ascii.eqb c "_"%char
          then if underscore then None else scan count acc true l'
          else Some (count, acc, underscore, l)
      end
  end.

(** The message goes on with the text, quoted. *)
Definition invalid_literal : PyErr :=
  ValueError "invalid literal for int() with base 10".

(** [sys.get_int_max_str_digits()] as the interpreter starts, which is
    [sys.int_info.default_max_str_digits]. *)
Definition int_max_str_digits : N := 4300.

Definition too_many_digits (count : N) : PyErr :=
  ValueError ("Exceeds the limit (" +:+ pretty int_max_str_digits
              +:+ " digits) for integer string conversion: value has "
              +:+ pretty count
              +:+ " digits; use sys.set_int_max_str_digits() to increase the limit").

(** [PyLong_FromString] in base 10: blanks, a sign, the digits, blanks. *)
Definition parse (l : list ascii) : Exc Z :=
  let body := lstrip l in
  let '(neg, run) :=
    match body with
    | "-"%char :: r => (true, r)
    | "+"%char :: r => (false, r)
    | _ => (false, body)
    end in
  match run with
  | "_"%char :: _ => Raise invalid_literal
  | _ =>
      match scan 0 0 false run with
      | None => Raise invalid_literal
      | Some (count, n, underscore, rest) =>
          if underscore then Raise invalid_literal
          else if (int_max_str_digits <? count)%N then Raise (too_many_digits count)
          else if (count =? 0)%N then Raise invalid_literal
          else
            match lstrip rest with
            | [] => Return (if (neg : bool) then - n else n)
            | _ => Raise invalid_literal
            end
      end
  end.

(** [int(s)] for a [str]. *)
Definition int_of_string (s : string) : Exc Z :=
  parse (transform (list_ascii_of_string s)).

(** [s.split(sep)] for a one-character separator. *)
Fixpoint split_aux (sep : ascii) (cur : list ascii) (l : list ascii)
  : list string :=
  match l with
  | [] => [string_of_list_ascii (rev cur)]
  | c :: l' =>
      if Ascii.eqb c sep
      then string_of_list_ascii (rev cur) :: split_aux sep [] l'
      else split_aux sep (c :: cur) l'
  end.

Definition split (sep : ascii) (s : string) : list string :=
  split_aux sep [] (list_ascii_of_string s).

End PyStr.

(** [int(v)] *)
Definition py_int (v : PyVal) : Exc Z :=
  match v with
  | VInt z => Return z
  | VStr s => PyStr.int_of_string s
  end.

(** [[f(x) for x in l]] for a fallible [f]: the first exception wins. *)
Fixpoint emap {A B} (f : A -> Exc B) (l : list A) : Exc (list B) :=
  match l with
  | [] => Return []
  | a :: l' => b ← f a; bs ← emap f l'; Return (b :: bs)
  end.

(** ** Numbers: [//] and [/]

    [a // b] on integers is floor division, which is [Z.div].  [a / b] is
    true division and yields a [float]; for operands below [2^53] in
    magnitude (pixel coordinates are 32-bit) it is the IEEE quotient of the
    two operands converted exactly, modelled by the kernel's binary64. *)

Inductive pynum : Type :=
  | PyInt (z : Z)
  | PyFloat (f : float).

Definition float_of_Z (z : Z) : float :=
  if z <? 0
  then PrimFloat.opp (PrimFloat.of_uint63 (Uint63.of_Z (- z)))
  else PrimFloat.of_uint63 (Uint63.of_Z z).

Definition floordiv (a b : Z) : Exc Z :=
  if b =? 0 then Raise ZeroDivisionError else Return (a / b).

Definition truediv (a b : Z) : Exc float :=
  if b =? 0 then Raise ZeroDivisionError
  else Return (PrimFloat.div (float_of_Z a) (float_of_Z b)).

(** ** Integer boxes of [lsst.geom]

    [Box2I] keeps a minimum corner and dimensions; every empty box is the
    one at the origin with zero dimensions, so [==] is structural.  The
    overflow check of the C++ constructor is left out. *)

Module geom.

Record Box : Type := mkBox { minimum : Z * Z; dimensions : Z * Z }.

#[global] Instance Box_eq_dec : EqDecision Box.
Proof. solve_decision. Defined.

Definition emptyBox : Box := mkBox (0, 0) (0, 0).

(** A negative extent along one axis flips the box along that axis. *)
Definition flip (m d : Z) : Z * Z :=
  if d <? 0 then (m + (d + 1), - d) else (m, d).

(** [geom.BoxI(corner, dimensions)] *)
Definition BoxI (corner dims : Z * Z) : Box :=
  let '(w, h) := dims in
  if w =? 0 then emptyBox
  else
    let '(x, w') := flip (fst corner) w in
    if h =? 0 then emptyBox
    else
      let '(y, h') := flip (snd corner) h in
      mkBox (x, y) (w', h').

Definition getBegin (b : Box) : Z * Z := minimum b.
Definition getBeginX (b : Box) : Z := fst (minimum b).
Definition getBeginY (b : Box) : Z := snd (minimum b).
Definition getDimensions (b : Box) : Z * Z := dimensions b.
Definition getWidth (b : Box) : Z := fst (dimensions b).
Definition getHeight (b : Box) : Z := snd (dimensions b).

End geom.
Import geom.

(** ** Amplifiers, exposure segments and the world

    The detector attached to every segment is one shared object, and the
    assembler patches its amplifiers in place: the amplifiers live in the
    world state, and a segment refers to them by position. *)

Record Amp : Type := mkAmp {
  name : string;
  bbox : Box;
  rawBBox : Box;
  rawDataBBox : Box;
  rawHorizontalOverscanBBox : Box;
  rawVerticalOverscanBBox : Box;
  rawXYOffset : Z * Z
}.

#[global] Instance Amp_eq_dec : EqDecision Amp.
Proof. solve_decision. Defined.

Definition withRawBBox (b : Box) (a : Amp) : Amp :=
  mkAmp (name a) (bbox a) b (rawDataBBox a)
        (rawHorizontalOverscanBBox a) (rawVerticalOverscanBBox a) (rawXYOffset a).
Definition withRawHorizontalOverscanBBox (b : Box) (a : Amp) : Amp :=
  mkAmp (name a) (bbox a) (rawBBox a) (rawDataBBox a)
        b (rawVerticalOverscanBBox a) (rawXYOffset a).
Definition withRawVerticalOverscanBBox (b : Box) (a : Amp) : Amp :=
  mkAmp (name a) (bbox a) (rawBBox a) (rawDataBBox a)
        (rawHorizontalOverscanBBox a) b (rawXYOffset a).
Definition withRawXYOffset (o : Z * Z) (a : Amp) : Amp :=
  mkAmp (name a) (bbox a) (rawBBox a) (rawDataBBox a)
        (rawHorizontalOverscanBBox a) (rawVerticalOverscanBBox a) o.

(** Types of the camera-geometry and image framework the mapper sits on. *)
Class ForeignTypes : Type := {
  Image : Type;
  Detector : Type;
  CameraSys : Type;
  Transform : Type;
  SkyWcs : Type;
  SpherePoint : Type;
  Angle : Type
}.

Inductive CameraSysPrefix : Type := PIXELS | FIELD_ANGLE.

Inductive Level : Type := Warn | Debug.

Section Model.

Context `{FT : ForeignTypes}.

(** One amplifier's exposure segment: [getBBox()], [getMetadata().toDict()]
    and the pixels. *)
Record AmpExp : Type := mkAmpExp {
  ae_bbox : Box;
  ae_metadata : gmap string PyVal;
  ae_image : Image
}.

Record VisitInfo : Type := mkVisitInfo {
  getBoresightRaDec : SpherePoint;
  getBoresightRotAngle : Angle
}.

Record Exposure : Type := mkExposure {
  exp_image : Image;
  exp_detector : Detector;
  exp_metadata : option (gmap string PyVal);
  exp_visitInfo : option VisitInfo;
  exp_wcs : option SkyWcs
}.

Definition setMetadata (e : Exposure) (md : gmap string PyVal) : Exposure :=
  mkExposure (exp_image e) (exp_detector e) (Some md) (exp_visitInfo e) (exp_wcs e).
Definition setVisitInfo (e : Exposure) (v : VisitInfo) : Exposure :=
  mkExposure (exp_image e) (exp_detector e) (exp_metadata e) (Some v) (exp_wcs e).
Definition setWcs (e : Exposure) (w : SkyWcs) : Exposure :=
  mkExposure (exp_image e) (exp_detector e) (exp_metadata e) (exp_visitInfo e) (Some w).

(** The components handed over by the butler: [componentInfo['raw_amp'].obj]
    and [componentInfo['raw_hdu'].obj]. *)
Record ComponentInfo : Type := mkComponentInfo {
  raw_amp : list AmpExp;
  raw_hdu : gmap string PyVal
}.

(** What the outside can observe of a call: log records, with the level
    and the format of the message, and calls of the CCD assembler. *)
Inductive Event : Type :=
  | Log (lvl : Level) (fmt : string)
  | AssembleCcd (ampDict : gmap string AmpExp).

Record World : Type := mkWorld {
  amps : list Amp;
  events : list Event
}.

(** State and exceptions: the world survives a raise. *)
Definition M (A : Type) : Type := World -> Exc A * World.

#[global] Instance M_ret : MRet M := fun A a w => (Return a, w).
#[global] Instance M_bind : MBind M := fun A B k m w =>
  match m w with
  | (Raise e, w') => (Raise e, w')
  | (Return a, w') => k a w'
  end.

Definition raise {A} (e : PyErr) : M A := fun w => (Raise e, w).
Definition lift {A} (m : Exc A) : M A := fun w => (m, w).

Definition logEv (lvl : Level) (fmt : string) : M unit :=
  fun w => (Return tt, mkWorld (amps w) (events w ++ [Log lvl fmt])).

Definition getAmps : M (list Amp) := fun w => (Return (amps w), w).

Definition getAmp (i : nat) : M Amp := fun w =>
  match amps w !! i with
  | Some a => (Return a, w)
  | None => (Raise IndexError, w)
  end.

Definition modifyAmp (i : nat) (f : Amp -> Amp) : M unit := fun w =>
  (Return tt, mkWorld (alter f i (amps w)) (events w)).

Definition setRawBBox (i : nat) (b : Box) : M unit :=
  modifyAmp i (withRawBBox b).
Definition setRawHorizontalOverscanBBox (i : nat) (b : Box) : M unit :=
  modifyAmp i (withRawHorizontalOverscanBBox b).
Definition setRawVerticalOverscanBBox (i : nat) (b : Box) : M unit :=
  modifyAmp i (withRawVerticalOverscanBBox b).
Definition setRawXYOffset (i : nat) (o : Z * Z) : M unit :=
  modifyAmp i (withRawXYOffset o).

End Model.

(** Operations of the framework the mapper calls.  Those that do real work
    may raise; the mapper lets their exceptions through. *)
Class Foreign `{FT : ForeignTypes} : Type := {
  (** [lsst.obs.base.bboxFromIraf] *)
  bboxFromIraf : PyVal -> Exc Box;
  (** [geom.ExtentI(x, y)] on Python numbers *)
  ExtentI : pynum -> pynum -> Exc (Z * Z);
  (** [AssembleCcdTask.assembleCcd], which reads the segments and the
      detector they share *)
  assembleCcd : gmap string AmpExp -> list Amp -> Exc Exposure;
  (** [LsstCamMakeRawVisitInfo(logger)(md)] *)
  makeRawVisitInfo : gmap string PyVal -> Exc VisitInfo;
  isFinite : SpherePoint -> bool;
  (** [n*geom.degrees] and the difference of two angles *)
  degrees : Z -> Angle;
  angle_sub : Angle -> Angle -> Angle;
  makeCameraSys : Detector -> CameraSysPrefix -> CameraSys;
  getTransform : Detector -> CameraSys -> CameraSys -> Transform;
  (** [afwGeom.makeSkyWcs(trans, rotation, flipX, boresight)] *)
  makeSkyWcs : Transform -> Angle -> bool -> SpherePoint -> Exc SkyWcs
}.

(** The filter table and the registry behind the mapper. *)
Class Registry : Type := {
  (** [afwImage.Filter(name).getId()] *)
  Filter_getId : PyVal -> Exc Z;
  (** [self.query_raw(format, dataId)], forwarded to the [_raw] dataset *)
  query_raw : list string -> gmap string PyVal -> Exc (list (list PyVal))
}.

(** ** The raw composite assembler *)

Section Assembler.

Context `{F : Foreign}.

Definition patching_msg : string :=
  "amp.getRawBBox() != data.getBBox(); patching. (%s v. %s)".
Definition active_area_msg : string :=
  "Active area is the wrong size: %s v. %s".
Definition no_amps_msg : string := "Unable to read raw_amps for %s".
Definition no_wcs_msg : string :=
  "Unable to set WCS for %s from header as RA/Dec/Angle are unavailable".
Definition detsec_msg : string := "DETSEC doesn't match for %s (%s != %s)".
Definition datasec_msg : string := "DATASEC doesn't match for %s (%s != %s)".
Definition biassec_msg : string := "BIASSEC doesn't match for %s (%s != %s)".

(** [ix, iy = x0//ow, y0/oh] and the two products [ix*xRawExtent],
    [iy*yRawExtent]: the first is an [int], the second a [float]. *)
Definition newRawXYOffset (x0 y0 ow oh xRawExtent yRawExtent : Z)
  : Exc (pynum * pynum) :=
  ix ← floordiv x0 ow;
  iy ← truediv y0 oh;
  Return (PyInt (ix * xRawExtent),
          PyFloat (PrimFloat.mul iy (float_of_Z yRawExtent))).

(** Lines 86-124: the geometry of amplifier [i] against its segment.
    Returns the new value of [warned]. *)
Definition patchGeometry (i : nat) (warned : bool) (ampExp : AmpExp) : M bool :=
  amp ← getAmp i;
  if bool_decide (rawBBox amp ≠ ae_bbox ampExp) then
    if bool_decide (getDimensions (rawDataBBox amp) ≠ getDimensions (bbox amp))
    then raise (RuntimeError active_area_msg)
    else
      _ ← (if warned then mret tt else logEv Warn patching_msg);
      let '(w, h) := getDimensions (ae_bbox ampExp) in
      let '(ow, oh) := getDimensions (rawBBox amp) in
      let hbox := rawHorizontalOverscanBBox amp in
      let hOverscanBBox :=
        BoxI (getBegin hbox) (w - getBeginX hbox, getHeight hbox) in
      let vbox := rawVerticalOverscanBBox amp in
      let vOverscanBBox :=
        BoxI (getBegin vbox) (getWidth vbox, h - getBeginY vbox) in
      _ ← setRawBBox i (ae_bbox ampExp);
      _ ← setRawHorizontalOverscanBBox i hOverscanBBox;
      _ ← setRawVerticalOverscanBBox i vOverscanBBox;
      amp' ← getAmp i;
      let '(xRawExtent, yRawExtent) := getDimensions (rawBBox amp') in
      let '(x0, y0) := rawXYOffset amp' in
      '(nx, ny) ← lift (newRawXYOffset x0 y0 ow oh xRawExtent yRawExtent);
      off ← lift (ExtentI nx ny);
      _ ← setRawXYOffset i off;
      mret true
  else mret warned.

(** [bboxFromIraf(ampMd[key]) if key in ampMd else None] *)
Definition irafBox (ampMd : gmap string PyVal) (key : string) : M (option Box) :=
  match ampMd !! key with
  | Some v => b ← lift (bboxFromIraf v); mret (Some b)
  | None => mret None
  end.

(** [sec and box != sec] *)
Definition differs (sec : option Box) (box : Box) : bool :=
  match sec with
  | Some b => bool_decide (box ≠ b)
  | None => false
  end.

Definition when (c : bool) (m : M unit) : M unit :=
  if c then m else mret tt.

(** Lines 130-141: the three IRAF keywords against the geometry. *)
Definition checkIraf (i : nat) (dataId : gmap string PyVal) (ampExp : AmpExp)
  : M unit :=
  let ampMd := ae_metadata ampExp in
  detsec ← irafBox ampMd "DETSEC";
  datasec ← irafBox ampMd "DATASEC";
  biassec ← irafBox ampMd "BIASSEC";
  let logCmd := if (i =? 0)%nat then logEv Warn else logEv Debug in
  amp ← getAmp i;
  _ ← when (differs detsec (bbox amp)) (logCmd detsec_msg);
  amp ← getAmp i;
  _ ← when (differs datasec (rawDataBBox amp)) (logCmd datasec_msg);
  amp ← getAmp i;
  when (differs biassec (rawHorizontalOverscanBBox amp)) (logCmd biassec_msg).

(** [for i, (amp, ampExp) in enumerate(zip(ccd, ampExps))]: the loop ends
    with the shorter of the two. *)
Fixpoint checkAmps (i : nat) (warned : bool) (dataId : gmap string PyVal)
  (ampExps : list AmpExp) : M unit :=
  match ampExps with
  | [] => mret tt
  | ampExp :: rest =>
      ccd ← getAmps;
      if bool_decide (i < length ccd)%nat then
        warned' ← patchGeometry i warned ampExp;
        _ ← checkIraf i dataId ampExp;
        checkAmps (S i) warned' dataId rest
      else mret tt
  end.

(** [ampDict[amp.getName()] = ampExp] over [zip(ccd, ampExps)] *)
Fixpoint makeAmpDict (ccd : list Amp) (ampExps : list AmpExp)
  (ampDict : gmap string AmpExp) : gmap string AmpExp :=
  match ccd, ampExps with
  | amp :: ccd', ampExp :: rest =>
      makeAmpDict ccd' rest (<[name amp := ampExp]> ampDict)
  | _, _ => ampDict
  end.

Definition callAssembleCcd (ampDict : gmap string AmpExp) : M Exposure :=
  fun w =>
    (assembleCcd ampDict (amps w),
     mkWorld (amps w) (events w ++ [AssembleCcd ampDict])).

Definition getWcsFromDetector (detector : Detector) (boresight : SpherePoint)
  (rotation : Angle) (flipX : bool) : Exc SkyWcs :=
  let trans := getTransform detector (makeCameraSys detector PIXELS)
                                     (makeCameraSys detector FIELD_ANGLE) in
  makeSkyWcs trans rotation flipX boresight.

Definition assemble_raw (dataId : gmap string PyVal)
  (componentInfo : ComponentInfo) : M Exposure :=
  let ampExps := raw_amp componentInfo in
  if (length ampExps =? 0)%nat
  then raise (RuntimeError no_amps_msg)
  else
    _ ← checkAmps 0 false dataId ampExps;
    ccd ← getAmps;
    exposure ← callAssembleCcd (makeAmpDict ccd ampExps ∅);
    let md := raw_hdu componentInfo in
    let exposure := setMetadata exposure md in
    visitInfo ← lift (makeRawVisitInfo md);
    let exposure := setVisitInfo exposure visitInfo in
    let boresight := getBoresightRaDec visitInfo in
    let rotangle := getBoresightRotAngle visitInfo in
    if isFinite boresight then
      wcs ← lift (getWcsFromDetector (exp_detector exposure) boresight
                    (angle_sub (degrees 90) rotangle) false);
      mret (setWcs exposure wcs)
    else
      _ ← logEv Warn no_wcs_msg;
      mret exposure.

End Assembler.

(** ** The mapper: coadd identifiers and the per-channel query *)

Module LsstCamMapper.

(** Class attributes set by [__init__]. *)
Definition _nbit_tract : Z := 16.
Definition _nbit_patch : Z := 5.
Definition _nbit_filter : Z := 6.
Definition _nbit_id : Z := 64 - (_nbit_tract + 2 * _nbit_patch + _nbit_filter).

Definition tract_msg : string := "tract not in range [0,65536)".
Definition patch_msg : string := "patch component not in range [0, 32)".
Definition channel_msg : string :=
  "Requested channel is out of range 0 < {channel} <= {nChannel}".

(** [for p in (patchX, patchY): if p < 0 or p >= 2**_nbit_patch: raise] *)
Fixpoint check_patch (ps : list Z) : Exc unit :=
  match ps with
  | [] => Return tt
  | p :: ps' =>
      if (p <? 0) || (p >=? 2 ^ _nbit_patch)
      then Raise (RuntimeError patch_msg)
      else check_patch ps'
  end.

(** [patchX, patchY = [int(patch) for patch in s.split(',')]] *)
Definition parse_patch (v : PyVal) : Exc (Z * Z) :=
  match v with
  | VInt _ => Raise AttributeError
  | VStr s =>
      l ← emap PyStr.int_of_string (PyStr.split ","%char s);
      match l with
      | [x; y] => Return (x, y)
      | [] | [_] => Raise (ValueError "not enough values to unpack (expected 2)")
      | _ => Raise (ValueError "too many values to unpack (expected 2)")
      end
  end.

(** [format.index('channel')] when ['channel' in format] *)
Fixpoint index (x : string) (l : list string) : option nat :=
  match l with
  | [] => None
  | y :: l' => if bool_decide (y = x) then Some 0%nat else S <$> index x l'
  end.

(** [did = list(value); did.insert(k, c)] *)
Definition insert_at {A} (k : nat) (c : A) (value : list A) : list A :=
  take k value ++ c :: drop k value.

Section Methods.

Context `{R : Registry}.

Definition _computeCoaddExposureId (dataId : gmap string PyVal)
  (singleFilter : bool) : Exc Z :=
  t ← getitem dataId "tract";
  tract ← py_int t;
  if (tract <? 0) || (tract >=? 2 ^ _nbit_tract)
  then Raise (RuntimeError tract_msg)
  else
    p ← getitem dataId "patch";
    '(patchX, patchY) ← parse_patch p;
    _ ← check_patch [patchX; patchY];
    let oid :=
      Z.shiftl (Z.shiftl tract _nbit_patch + patchX) _nbit_patch + patchY in
    if singleFilter
    then
      f ← getitem dataId "filter";
      fid ← Filter_getId f;
      Return (Z.shiftl oid _nbit_filter + fid)
    else Return oid.

Definition bypass_deepCoaddId_bits : Z := 64 - _nbit_id.

Definition bypass_deepCoaddId (dataId : gmap string PyVal) : Exc Z :=
  _computeCoaddExposureId dataId true.

Definition bypass_dcrCoaddId_bits : Z := bypass_deepCoaddId_bits.

Definition bypass_dcrCoaddId (dataId : gmap string PyVal) : Exc Z :=
  bypass_deepCoaddId dataId.

Definition bypass_deepMergedCoaddId_bits : Z := 64 - _nbit_id.

Definition bypass_deepMergedCoaddId (dataId : gmap string PyVal) : Exc Z :=
  _computeCoaddExposureId dataId false.

Definition bypass_dcrMergedCoaddId_bits : Z := bypass_deepMergedCoaddId_bits.

Definition bypass_dcrMergedCoaddId (dataId : gmap string PyVal) : Exc Z :=
  bypass_deepMergedCoaddId dataId.

Definition nChannel : Z := 16.

(** The first half of [query_raw_amp]: the channels to report and the
    [dataId] to query with. *)
Definition requested_channels (dataId : gmap string PyVal)
  : Exc (gmap string PyVal * list PyVal) :=
  match dataId !! "channel" with
  | Some (VInt channel) =>
      if (channel >? nChannel) || (channel <? 1)
      then Raise (ValueError channel_msg)
      else Return (delete "channel" dataId, [VInt channel])
  | Some (VStr _) => Raise TypeError
  | None => Return (dataId, VInt <$> seqZ 1 nChannel)
  end.

Definition query_raw_amp (format : list string) (dataId : gmap string PyVal)
  : Exc (list (list PyVal)) :=
  '(dataId, channels) ← requested_channels dataId;
  let '(format, channelIndex) :=
    match index "channel" format with
    | Some k => (delete k format, Some k)
    | None => (format, None)
    end in
  rows ← query_raw format dataId;
  Return (flat_map
            (fun value =>
               match channelIndex with
               | None => [value]
               | Some k => (fun c => insert_at k c value) <$> channels
               end)
            rows).

End Methods.

End LsstCamMapper.

(** ** The rest of the mapper: registry values, exposure identifiers,
    visit information of one HDU, the calibration root *)

(** [str(v)], as ["%s"] and f-strings format a value. *)
Definition py_str (v : PyVal) : string :=
  match v with
  | VInt z => pretty z
  | VStr s => s
  end.

(** A translator class, as far as the mapper calls it. *)
Record Translator : Type := mkTranslator {
  compute_detector_num_from_name : PyVal -> PyVal -> Exc PyVal;
  compute_detector_exposure_id : PyVal -> PyVal -> Exc Z
}.

(** What a mapper object is built on: the registry behind
    [queryMetadata], the FITS reader, and the two class attributes
    [translatorClass] and [MakeRawVisitInfoClass], which [LsstCamMapper]
    itself sets to [None] and its subclasses override. *)
Class Butler `{FT : ForeignTypes} : Type := {
  queryMetadata :
    string -> list string -> gmap string PyVal -> Exc (list (list PyVal));
  translatorClass : option Translator;
  (** [readMetadata(fileName)] and [readMetadata(fileName, hdu=hdu)] *)
  readMetadata : string -> option Z -> Exc (gmap string PyVal);
  (** [MakeRawVisitInfoClass(log=self.log)], a callable on metadata *)
  MakeRawVisitInfoClass : option (gmap string PyVal -> Exc VisitInfo)
}.

Module PyRe.

(** The longest run of decimal digits at the end of a text, and what is
    before it; the text is given by its bytes from the last to the first,
    and so are the two results. *)
Fixpoint span_digits (r : list ascii) : list ascii * list ascii :=
  let digit (cp : N) (chars : list ascii) (before : list ascii) :=
    match Unicode.decimal cp with
    | Some _ => let '(ds, rest) := span_digits before in ((chars ++ ds)%list, rest)
    | None => ([], r)
    end in
  match r with
  | [] => ([], [])
  | c1 :: r1 =>
      if (Unicode.byte c1 <? 128)%N then digit (Unicode.byte c1) [c1] r1
      else
        match r1 with
        | c2 :: r2 =>
            match Unicode.code2 c2 c1 with
            | Some cp => digit cp [c1; c2] r2
            | None =>
                match r2 with
                | c3 :: r3 =>
                    match Unicode.code3 c3 c2 c1 with
                    | Some cp => digit cp [c1; c2; c3] r3
                    | None =>
                        match r3 with
                        | c4 :: r4 =>
                            match Unicode.code4 c4 c3 c2 c1 with
                            | Some cp => digit cp [c1; c2; c3; c4] r4
                            | None => ([], r)
                            end
                        | [] => ([], r)
                        end
                    end
                | [] => ([], r)
                end
            end
        | [] => ([], r)
        end
  end.

(** [re.search(r"\[(\d+)\]$", s)], giving [group(1)]: the text has to end
    in an opening bracket, one or more digits and a closing bracket, where
    [$] is the end of the text or the place before a final newline.  The
    text is read from its end. *)
Definition search_hdu (s : string) : option string :=
  let r := rev (list_ascii_of_string s) in
  let r := match r with
           | "010"%char :: r' => r'
           | _ => r
           end in
  match r with
  | "]"%char :: r' =>
      match span_digits r' with
      | ((_ :: _) as ds, "["%char :: _) => Some (string_of_list_ascii (rev ds))
      | _ => None
      end
  | _ => None
  end.

End PyRe.

Module PosixPath.

Definition endswith_sep (a : string) : bool :=
  match rev (list_ascii_of_string a) with
  | "/"%char :: _ => true
  | _ => false
  end.

(** [os.path.join(a, b)] for a relative [b]. *)
Definition join (a b : string) : string :=
  if bool_decide (a = EmptyString) || endswith_sep a
  then a +:+ b
  else a +:+ "/" +:+ b.

End PosixPath.

Section Mapper.

Context `{B : Butler}.

Definition lookup_msg : string :=
  "Unable to lookup %s in " +:+ String "034"%char "%s"
  +:+ String "034"%char " registry for dataId %s".

Definition _getRegistryValue (dataId : gmap string PyVal) (k : string)
  : Exc PyVal :=
  match dataId !! k with
  | Some v => Return v
  | None =>
      let dataType :=
        if bool_decide (is_Some (dataId !! "taiObs")) then "bias" else "raw" in
      match queryMetadata dataType [k] dataId with
      | Return ((v :: _) :: _) => Return v
      | Return _ => Raise (RuntimeError lookup_msg)
      | Raise IndexError => Raise (RuntimeError lookup_msg)
      | Raise e => Raise e
      end
  end.

Definition _extractDetectorName (dataId : gmap string PyVal) : Exc string :=
  raftName ← _getRegistryValue dataId "raftName";
  detectorName ← _getRegistryValue dataId "detectorName";
  Return (py_str raftName +:+ "_" +:+ py_str detectorName).

(** An attribute of [self.translatorClass]: [None] has none. *)
Definition translator : Exc Translator :=
  match translatorClass with
  | Some tc => Return tc
  | None => Raise AttributeError
  end.

Definition _computeCcdExposureId (dataId : gmap string PyVal) : Exc Z :=
  visit ← getitem dataId "visit";
  detector ←
    match dataId !! "detector" with
    | Some d => Return d
    | None =>
        tc ← translator;
        raftName ← getitem dataId "raftName";
        detectorName ← getitem dataId "detectorName";
        compute_detector_num_from_name tc raftName detectorName
    end;
  tc ← translator;
  compute_detector_exposure_id tc visit detector.

Definition bypass_ccdExposureId (dataId : gmap string PyVal) : Exc Z :=
  _computeCcdExposureId dataId.

Definition bypass_ccdExposureId_bits : Z := 36.

(** [location] stands for [location.getLocationsWithRoot()]. *)
Definition bypass_raw_visitInfo (location : list string) : Exc VisitInfo :=
  fileName ← match location with
             | f :: _ => Return f
             | [] => Raise IndexError
             end;
  md ← match PyRe.search_hdu fileName with
       | Some digits =>
           hdu ← PyStr.int_of_string digits;
           readMetadata fileName (Some hdu)
       | None => readMetadata fileName None
       end;
  match MakeRawVisitInfoClass with
  | Some make => make md
  | None => Raise TypeError
  end.

End Mapper.

(** Lines 237-248 of [__init__]: where the calibrations are looked for when
    no [calibRoot] is given.  [exists_] is [os.path.exists]; a parent
    configuration has a [root] or not; the result is the new
    [kwargs['calibRoot']] and whether the warning was logged. *)
Section CalibRoot.

Variable exists_ : string -> bool.

(** Truth value of [kwargs.get(key, None)]. *)
Definition truthy (v : option string) : bool :=
  match v with
  | Some s => negb (bool_decide (s = EmptyString))
  | None => false
  end.

Definition calibSearch (root : string) (repositoryCfg : option (list (option string)))
  : list string :=
  [PosixPath.join root "CALIB"]
  ++ match repositoryCfg with
     | Some parents =>
         ((fun r => PosixPath.join r "CALIB") <$> omap id parents)
         ++ omap id parents
     | None => []
     end.

(** [for calibRoot in calibSearch: if exists(...): ...; break] *)
Fixpoint firstCalibRoot (search : list string) : option string :=
  match search with
  | [] => None
  | calibRoot :: rest =>
      if exists_ (PosixPath.join calibRoot "calibRegistry.sqlite3")
      then Some calibRoot
      else firstCalibRoot rest
  end.

Definition findCalibRoot (root calibRoot : option string)
  (repositoryCfg : option (list (option string))) : option string * bool :=
  if truthy root && negb (truthy calibRoot)
  then
    let calibRoot' :=
      match firstCalibRoot (calibSearch (default EmptyString root) repositoryCfg) with
      | Some found => Some found
      | None => calibRoot
      end in
    (calibRoot', negb (truthy calibRoot'))
  else (calibRoot, false).

End CalibRoot.

(** ** The translator for simulated data
    ([python/lsst/obs/lsst/translators/lsstsim.py])

    The methods are the bodies behind [cache_translation], as they run the
    first time a property is asked for.  A header is a dict of cards; the
    translator records the cards it used, keeps the class-wide mapping
    from detector names to numbers once it is read, and logs warnings. *)

(** What the translator takes from [astro_metadata_translator], [astropy]
    and the sibling module [.lsst]; the properties of the base class are
    functions of the header. *)
Class SimForeign : Type := {
  Location : Type;
  Time : Type;
  SkyCoord : Type;
  AltAz : Type;
  LSST_LOCATION : Location;
  (** the class attribute [cameraPolicyFile], [None] unless a subclass
      sets it *)
  cameraPolicyFile : option string;
  read_detector_ids : string -> Exc (gmap string PyVal);
  to_detector_group : gmap string PyVal -> Exc PyVal;
  to_detector_name : gmap string PyVal -> Exc PyVal;
  to_tracking_radec : gmap string PyVal -> Exc (option SkyCoord);
  (** [radec.transform_to(AltAz)] *)
  transform_to_AltAz : SkyCoord -> Exc AltAz;
  (** [Time(v, scale="tai", format="mjd")] *)
  mjd_time : PyVal -> Exc Time
}.

Module LsstSimTranslator.

(** [str.lower] on ASCII letters. *)
Definition lower_char (c : ascii) : ascii :=
  let n := nat_of_ascii c in
  if ((65 <=? n) && (n <=? 90))%nat then ascii_of_nat (n + 32) else c.

Fixpoint lower (s : string) : string :=
  match s with
  | EmptyString => EmptyString
  | String c s' => String (lower_char c) (lower s')
  end.

Section Methods.

Context `{SF : SimForeign}.

Record TState : Type := mkTState {
  used : gset string;
  detectorMapping : option (gmap string PyVal);
  warnings : list string
}.

Definition T (A : Type) : Type := TState -> Exc A * TState.

#[global] Instance T_ret : MRet T := fun A a st => (Return a, st).
#[global] Instance T_bind : MBind T := fun A B k m st =>
  match m st with
  | (Raise e, st') => (Raise e, st')
  | (Return a, st') => k a st'
  end.

Definition traise {A} (e : PyErr) : T A := fun st => (Raise e, st).
Definition tlift {A} (m : Exc A) : T A := fun st => (m, st).

(** [self._used_these_cards(card)] *)
Definition _used_these_cards (card : string) : T unit := fun st =>
  (Return tt, mkTState ({[card]} ∪ used st) (detectorMapping st) (warnings st)).

Definition log_warning (msg : string) : T unit := fun st =>
  (Return tt, mkTState (used st) (detectorMapping st) (warnings st ++ [msg])).

Definition getDetectorMapping : T (option (gmap string PyVal)) := fun st =>
  (Return (detectorMapping st), st).

Definition setDetectorMapping (m : gmap string PyVal) : T unit := fun st =>
  (Return tt, mkTState (used st) (Some m) (warnings st)).

(** [s.startswith(prefix)] on a header value *)
Definition startswith (v : PyVal) (p : string) : Exc bool :=
  match v with
  | VStr s => Return (String.prefix p s)
  | VInt _ => Raise AttributeError
  end.

Definition to_telescope (header : gmap string PyVal) : T (option string) :=
  from_outfile ← match header !! "OUTFILE" with
                 | Some v => tlift (startswith v "lsst")
                 | None => mret false
                 end;
  if (from_outfile : bool) then
    _ ← _used_these_cards "OUTFILE";
    mret (Some "LSST")
  else if bool_decide (is_Some (header !! "LSST_NUM")) then
    _ ← _used_these_cards "LSST_NUM";
    mret (Some "LSST")
  else mret None.

Definition to_location (header : gmap string PyVal) : T (option Location) :=
  tel ← to_telescope header;
  mret (if bool_decide (tel = Some "LSST") then Some LSST_LOCATION else None).

Definition to_datetime_begin (header : gmap string PyVal) : T Time :=
  _ ← _used_these_cards "MJD-OBS";
  v ← tlift (getitem header "MJD-OBS");
  tlift (mjd_time v).

Definition to_observation_type (header : gmap string PyVal) : T string :=
  obstype ← tlift (getitem header "IMGTYPE");
  _ ← _used_these_cards "IMGTYPE";
  obstype ← match obstype with
            | VStr s => mret (lower s)
            | VInt _ => traise AttributeError
            end;
  mret (if bool_decide (obstype = "skyexp") then "science" else obstype).

Definition no_detector_msg : string :=
  "Unable to determine detector number from detector name {fullname}".

Definition to_detector_num (header : gmap string PyVal) : T (option PyVal) :=
  raft ← tlift (to_detector_group header);
  detector ← tlift (to_detector_name header);
  let fullname := py_str raft +:+ "_" +:+ py_str detector in
  match cameraPolicyFile with
  | None => mret None
  | Some policyFile =>
      cached ← getDetectorMapping;
      mapping ← match cached with
                | Some m => mret m
                | None =>
                    m ← tlift (read_detector_ids policyFile);
                    _ ← setDetectorMapping m;
                    mret m
                end;
      match mapping !! fullname with
      | Some num => mret (Some num)
      | None =>
          _ ← log_warning no_detector_msg;
          mret None
      end
  end.

Definition to_altaz_begin (header : gmap string PyVal) : T (option AltAz) :=
  obstype ← to_observation_type header;
  if bool_decide (obstype = "science") then
    radec ← tlift (to_tracking_radec header);
    match radec with
    | Some r =>
        altaz ← tlift (transform_to_AltAz r);
        mret (Some altaz)
    | None => mret None
    end
  else mret None.

End Methods.

End LsstSimTranslator.

(** ** Vocabulary of the specification *)

Section Vocabulary.

Import LsstCamMapper.

(** The ranges the encoder allots to a tract and to a patch component. *)
Definition in_range (t pX pY : Z) : Prop :=
  0 <= t < 2 ^ 16 /\ 0 <= pX < 2 ^ 5 /\ 0 <= pY < 2 ^ 5.

(** A [dataId] that carries tract [t] and patch [(pX, pY)]. *)
Definition carries (dataId : gmap string PyVal) (t pX pY : Z) : Prop :=
  (exists v, dataId !! "tract" = Some v /\ py_int v = Return t) /\
  (exists p, dataId !! "patch" = Some p /\ parse_patch p = Return (pX, pY)).

(** A [dataId] whose filter has identifier [f] in the filter table. *)
Definition has_filter `{R : Registry} (dataId : gmap string PyVal) (f : Z) : Prop :=
  exists v, dataId !! "filter" = Some v /\ Filter_getId v = Return f.

(** The packing the specification writes down, before the filter shift. *)
Definition packed (t pX pY : Z) : Z :=
  Z.shiftl (Z.shiftl t 5 + pX) 5 + pY.

(** The three header keywords of the cross-check. *)
Definition iraf_keys : list string := ["DETSEC"; "DATASEC"; "BIASSEC"].

Definition is_log `{FT : ForeignTypes} (e : Event) : Prop :=
  match e with Log _ _ => True | AssembleCcd _ => False end.

(** The same integer rule on both axes, as the specification words the
    recomputation of the offset: [(x0 // ow) * w, (y0 // oh) * h]. *)
Definition integerOffsetRule (x0 y0 ow oh w h : Z) : Exc (pynum * pynum) :=
  ix ← floordiv x0 ow;
  iy ← floordiv y0 oh;
  Return (PyInt (ix * w), PyInt (iy * h)).

(** An amplifier the data cannot be reconciled with: the untrimmed box
    differs from the segment's and the active area has the wrong size. *)
Definition irreconcilable `{FT : ForeignTypes} (amp : Amp) (ampExp : AmpExp) : Prop :=
  rawBBox amp ≠ ae_bbox ampExp /\
  getDimensions (rawDataBBox amp) ≠ getDimensions (bbox amp).

(** The amplifier after lines 109-111: the untrimmed box is the data's,
    the serial overscan is widened to the data's width, the parallel
    overscan is heightened to the data's height. *)
Definition patchedBoxes (amp : Amp) (data : Box) : Amp :=
  let hbox := rawHorizontalOverscanBBox amp in
  let vbox := rawVerticalOverscanBBox amp in
  withRawVerticalOverscanBBox
    (BoxI (getBegin vbox) (getWidth vbox, getHeight data - getBeginY vbox))
    (withRawHorizontalOverscanBBox
       (BoxI (getBegin hbox) (getWidth data - getBeginX hbox, getHeight hbox))
       (withRawBBox data amp)).

(** The log after the patching message, which is written once. *)
Definition patchLog `{FT : ForeignTypes} (warned : bool) (evs : list Event)
  : list Event :=
  if warned then evs else evs ++ [Log Warn patching_msg].

(** What the cross-check of amplifier [i] logs, given the three parsed
    keywords. *)
Definition irafLogs `{FT : ForeignTypes} (i : nat) (amp : Amp)
  (detsec datasec biassec : option Box) : list Event :=
  let lvl := if (i =? 0)%nat then Warn else Debug in
  (if differs detsec (bbox amp) then [Log lvl detsec_msg] else [])
  ++ (if differs datasec (rawDataBBox amp) then [Log lvl datasec_msg] else [])
  ++ (if differs biassec (rawHorizontalOverscanBBox amp)
      then [Log lvl biassec_msg] else []).

(** The convention the specification states for the corrected overscan
    boxes: the serial overscan as high as the untrimmed box, the parallel
    overscan as wide. *)
Definition spans_full (amp : Amp) : Prop :=
  getHeight (rawHorizontalOverscanBBox amp) = getHeight (rawBBox amp)
  /\ getWidth (rawVerticalOverscanBBox amp) = getWidth (rawBBox amp).

End Vocabulary.

(** ** A concrete registry and framework, for running the model *)

(** The nine filters of [defineFilters], numbered in definition order, and
    a registry with two rows. *)
#[local] Instance exampleRegistry : Registry := {|
  Filter_getId v :=
    match v with
    | VStr "NONE" => Return 0
    | VStr "275CutOn" => Return 1
    | VStr "550CutOn" => Return 2
    | VStr "u" => Return 3
    | VStr "g" => Return 4
    | VStr "r" => Return 5
    | VStr "i" => Return 6
    | VStr "z" => Return 7
    | VStr "y" => Return 8
    | _ => Raise (RuntimeError "Unable to find filter")
    end;
  query_raw format dataId :=
    Return [ (fun _ => VInt 7) <$> format; (fun _ => VInt 8) <$> format ]
|}.

Definition mkDataId (l : list (string * PyVal)) : gmap string PyVal :=
  list_to_map l.

(** Truncation of a float towards zero. *)
Definition Z_of_float (f : float) : Z :=
  match Prim2SF f with
  | S754_finite s m e =>
      let v := Z.shiftl (Z.pos m) e in if s then - v else v
  | _ => 0
  end.

(** A small framework: a sky position is finite when it is present, an
    angle is a number of degrees, a WCS records what it was made from. *)
#[local] Instance exampleTypes : ForeignTypes := {|
  Image := unit;
  Detector := list Amp;
  CameraSys := CameraSysPrefix;
  Transform := CameraSysPrefix * CameraSysPrefix;
  SkyWcs := (CameraSysPrefix * CameraSysPrefix) * Z * bool * (Z * Z);
  SpherePoint := option (Z * Z);
  Angle := Z
|}.

#[local] Instance exampleForeign : Foreign := {|
  bboxFromIraf v :=
    match v with
    | VStr "[1:512,1:2000]" => Return (mkBox (0, 0) (512, 2000))
    | VStr "[11:522,1:2000]" => Return (mkBox (10, 0) (512, 2000))
    | VStr "[523:544,1:2000]" => Return (mkBox (522, 0) (22, 2000))
    | _ => Raise (RuntimeError "Unable to parse IRAF-style bbox")
    end;
  ExtentI x y :=
    let num n := match n with PyInt z => z | PyFloat f => Z_of_float f end in
    Return (num x, num y);
  assembleCcd ampDict ccd := Return (mkExposure tt ccd None None None);
  makeRawVisitInfo md :=
    match md !! "RA", md !! "DEC", md !! "ROTANGLE" with
    | Some (VInt ra), Some (VInt dec), Some (VInt rot) =>
        Return (mkVisitInfo (Some (ra, dec)) rot)
    | _, _, _ => Return (mkVisitInfo None 0)
    end;
  isFinite p := match p with Some _ => true | None => false end;
  degrees n := n;
  angle_sub a b := a - b;
  makeCameraSys d p := p;
  getTransform d a b := (a, b);
  makeSkyWcs trans rotation flipX boresight :=
    match boresight with
    | Some p => Return (trans, rotation, flipX, p)
    | None => Raise (RuntimeError "boresight is not finite")
    end
|}.

(** Two amplifiers of a sensor with 544x2048 untrimmed segments in the
    geometry (10 prescan columns, 22 serial and 48 parallel overscan). *)
Definition exampleAmp (nm : string) (x0 : Z) (off : Z * Z) : Amp :=
  mkAmp nm (mkBox (x0, 0) (512, 2000)) (mkBox (0, 0) (544, 2048))
        (mkBox (10, 0) (512, 2000)) (mkBox (522, 0) (22, 2000))
        (mkBox (10, 2000) (512, 48)) off.

Definition exampleCcd : list Amp :=
  [exampleAmp "C00" 0 (0, 0); exampleAmp "C11" 512 (544, 2048)].

Definition exampleWorld : World := mkWorld exampleCcd [].

(** Segments as read from a file with 54 serial overscan columns. *)
Definition exampleSegment (detsec : string) : AmpExp :=
  mkAmpExp (mkBox (0, 0) (576, 2048))
           (list_to_map [("DETSEC", VStr detsec);
                         ("DATASEC", VStr "[11:522,1:2000]")])
           tt.

Definition exampleSegments : list AmpExp :=
  [exampleSegment "[1:512,1:2000]"; exampleSegment "[1:512,1:2000]"].

(** An amplifier whose active area has the wrong size. *)
Definition brokenAmp : Amp :=
  mkAmp "C00" (mkBox (0, 0) (512, 2000)) (mkBox (0, 0) (544, 2048))
        (mkBox (10, 0) (509, 2000)) (mkBox (522, 0) (22, 2000))
        (mkBox (10, 2000) (512, 48)) (0, 0).

Definition exampleHeader (finite : bool) : gmap string PyVal :=
  if finite
  then list_to_map [("RA", VInt 10); ("DEC", VInt (-30)); ("ROTANGLE", VInt 20)]
  else ∅.

(** A detector with the broken amplifier alone, and the components of one
    raw read with or without a boresight in the header. *)
Definition brokenWorld : World := mkWorld [brokenAmp] [].

Definition exampleComponents (finite : bool) : ComponentInfo :=
  mkComponentInfo exampleSegments (exampleHeader finite).

(** The world after the geometry of [exampleWorld] is checked against
    [exampleSegments], and the exposure the example assembler makes of it. *)
Definition checkedWorld : World :=
  snd (checkAmps 0 false ∅ exampleSegments exampleWorld).

Definition checkedExposure : Exposure :=
  mkExposure tt (amps checkedWorld) None None None.

(** Data identifiers for a single-filter coadd, for an out-of-range
    tract and for an out-of-range patch. *)
Definition coaddId : gmap string PyVal :=
  mkDataId [("tract", VInt 1); ("patch", VStr "2,3"); ("filter", VStr "r")].

Definition originId : gmap string PyVal :=
  mkDataId [("tract", VStr "0"); ("patch", VStr "0,0"); ("filter", VStr "r")].

Definition bigTractId : gmap string PyVal :=
  mkDataId [("tract", VInt 65536); ("patch", VStr "0,0")].

Definition bigPatchId : gmap string PyVal :=
  mkDataId [("tract", VInt 7); ("patch", VStr "3,32")].

(** Queries for amplifier segments: all channels, one channel, a channel
    that does not exist. *)
Definition ampFormat : list string := ["visit"; "channel"; "detector"].

Definition visitOnly : gmap string PyVal := mkDataId [("visit", VInt 3)].

Definition channel16 : gmap string PyVal :=
  mkDataId [("visit", VInt 3); ("channel", VInt 16)].

Definition channel17 : gmap string PyVal :=
  mkDataId [("visit", VInt 3); ("channel", VInt 17)].

(** The sixteen tuples one registry row expands to. *)
Definition expand (k : nat) (value : list PyVal) : list (list PyVal) :=
  (fun c => LsstCamMapper.insert_at k (VInt c) value) <$> seqZ 1 16.

(** ** Vocabulary of the further properties *)

Definition ascii_digit (c : ascii) : bool :=
  match PyStr.digit c with Some _ => true | None => false end.

(** A text of one or more ASCII digits. *)
Definition all_digits (s : string) : Prop :=
  s ≠ EmptyString
  /\ Forall (fun c => ascii_digit c = true) (list_ascii_of_string s).

Definition newline : string := String "010"%char EmptyString.

(** What [int] reads one character as, and then the rest of the text. *)
Definition put (cp : N) (rest : list ascii) : list ascii :=
  match PyStr.to_ascii cp with
  | Some c => c :: PyStr.transform rest
  | None => ["?"%char]
  end.

(** [int] reads the text [s] as the one or more ASCII digits [ads]: a
    run of decimal digits of any script. *)
Definition reads_as_digits (s : string) (ads : list ascii) : Prop :=
  PyStr.transform (list_ascii_of_string s) = ads
  /\ ads ≠ []
  /\ Forall (fun c => ascii_digit c = true) ads.

(** The number a run of digits stands for, read after [acc]. *)
Fixpoint digits_number (acc : Z) (l : list ascii) : Z :=
  match l with
  | [] => acc
  | c :: l' => digits_number (10 * acc + default 0 (PyStr.digit c)) l'
  end.

(** What [int] gives for a run of digits: the number they spell, or
    [ValueError] when they are more than the interpreter converts. *)
Definition int_of_digits (ads : list ascii) : Exc Z :=
  if (PyStr.int_max_str_digits <? N.of_nat (length ads))%N
  then Raise (PyStr.too_many_digits (N.of_nat (length ads)))
  else Return (digits_number 0 ads).

(** A directory that holds a calibration registry. *)
Definition has_registry (exists_ : string -> bool) (calibRoot : string) : bool :=
  exists_ (PosixPath.join calibRoot "calibRegistry.sqlite3").

(** The format the registry is asked with: the first ["channel"] is gone. *)
Definition stripped_format (format : list string) : list string :=
  match LsstCamMapper.index "channel" format with
  | Some k => delete k format
  | None => format
  end.

(** The translator state after one more card is recorded as used. *)
Definition mark (card : string) (st : LsstSimTranslator.TState)
  : LsstSimTranslator.TState :=
  LsstSimTranslator.mkTState
    ({[card]} ∪ LsstSimTranslator.used st)
    (LsstSimTranslator.detectorMapping st)
    (LsstSimTranslator.warnings st).

Definition is_patch_warning `{FT : ForeignTypes} (e : Event) : bool :=
  match e with
  | Log Warn fmt => bool_decide (fmt = patching_msg)
  | _ => false
  end.

Definition is_assemble `{FT : ForeignTypes} (e : Event) : bool :=
  match e with
  | AssembleCcd _ => true
  | Log _ _ => false
  end.

Definition count_if {A} (p : A -> bool) (l : list A) : nat :=
  length (List.filter p l).

(** What identifies an amplifier and is not the reconciliation's to change. *)
Definition same_identity (a a' : Amp) : Prop :=
  name a' = name a /\ bbox a' = bbox a /\ rawDataBBox a' = rawDataBBox a.

(** ** More concrete instances *)

Definition exampleTranslator : Translator := {|
  compute_detector_num_from_name raft det :=
    match raft, det with
    | VStr "R22", VStr "S11" => Return (VInt 94)
    | _, _ => Raise (KeyError "detector")
    end;
  compute_detector_exposure_id visit det :=
    match visit, det with
    | VInt v, VInt d => Return (v * 1000 + d)
    | _, _ => Raise TypeError
    end
|}.

(** A mapper of a subclass, with a translator and a registry of one row. *)
#[local] Instance exampleButler : Butler := {|
  queryMetadata dataType format dataId :=
    match dataType with
    | "raw" => Return [ (fun _ => VStr "R22") <$> format ]
    | _ => Return []
    end;
  translatorClass := Some exampleTranslator;
  readMetadata fileName hdu :=
    Return (<["HDU" := VInt (default (-1) hdu)]> (exampleHeader true));
  MakeRawVisitInfoClass := Some makeRawVisitInfo
|}.

(** The mapper as [LsstCamMapper] itself is declared: no translator, no
    visit-information class. *)
Definition baseButler : Butler := {|
  queryMetadata dataType format dataId := Return [];
  translatorClass := None;
  readMetadata fileName hdu := Return ∅;
  MakeRawVisitInfoClass := None
|}.

#[local] Instance exampleSim : SimForeign := {|
  Location := string;
  Time := Z;
  SkyCoord := Z * Z;
  AltAz := Z * Z;
  LSST_LOCATION := "Cerro Pachon";
  cameraPolicyFile := Some "policy/phosim.yaml";
  read_detector_ids f := Return (<["R22_S11" := VInt 94]> ∅);
  to_detector_group header := getitem header "RAFT";
  to_detector_name header := getitem header "SENSOR";
  to_tracking_radec header := Return (Some (10, -30));
  transform_to_AltAz radec := Return (snd radec, fst radec);
  mjd_time v := py_int v
|}.

Definition simHeader : gmap string PyVal :=
  list_to_map [("OUTFILE", VStr "lsst_a_1"); ("LSST_NUM", VStr "E2V");
               ("IMGTYPE", VStr "SKYEXP"); ("RAFT", VStr "R22");
               ("SENSOR", VStr "S11")].

Definition biasHeader : gmap string PyVal :=
  list_to_map [("IMGTYPE", VStr "Bias"); ("RAFT", VStr "R22");
               ("SENSOR", VStr "S00")].

Definition freshState : LsstSimTranslator.TState :=
  LsstSimTranslator.mkTState ∅ None [].

(** A second coadd, next to [coaddId]. *)
Definition coaddId' : gmap string PyVal :=
  mkDataId [("tract", VStr "1"); ("patch", VStr "2,4"); ("filter", VStr "g")].

(** A file system with a calibration registry in the first parent only. *)
Definition exampleExists (path : string) : bool :=
  bool_decide (path = "/repo/parent/CALIB/calibRegistry.sqlite3").

(** An amplifier whose declared untrimmed box is empty. *)
Definition emptyBoxAmp : Amp :=
  mkAmp "C00" (mkBox (0, 0) (512, 2000)) emptyBox
        (mkBox (10, 0) (512, 2000)) (mkBox (522, 0) (22, 2000))
        (mkBox (10, 2000) (512, 48)) (0, 0).

(** A registry that answers like [exampleRegistry] where no channel is
    asked for, and one that is out of service. *)
Definition otherRegistry : Registry := {|
  Filter_getId v := Raise (RuntimeError "Unable to find filter");
  query_raw format dataId :=
    match dataId !! "channel" with
    | Some _ => Raise (KeyError "channel")
    | None => Return [ (fun _ => VInt 7) <$> format; (fun _ => VInt 8) <$> format ]
    end
|}.

Definition failingRegistry : Registry := {|
  Filter_getId v := Raise (RuntimeError "Unable to find filter");
  query_raw format dataId := Raise (RuntimeError "registry is locked")
|}.

(** Segments whose boxes are the geometry's. *)
Definition matchingComponents : ComponentInfo :=
  mkComponentInfo
    [mkAmpExp (mkBox (0, 0) (544, 2048)) ∅ tt;
     mkAmpExp (mkBox (0, 0) (544, 2048)) ∅ tt]
    (exampleHeader true).

(** A first read of the example, and what it returns. *)
Definition firstRead : Exc Exposure * World :=
  assemble_raw ∅ (exampleComponents true) exampleWorld.

Definition firstExposure : Exposure :=
  match fst firstRead with
  | Return exposure => exposure
  | Raise _ => checkedExposure
  end.

(** * Properties of the coadd identifier encoder *)

Section EncoderFacts.

Context `{R : Registry}.
Import LsstCamMapper.

Lemma getitem_Some {V} (d : gmap string V) (k : string) (v : V) :
  d !! k = Some v -> getitem d k = Return v.
Proof. intros H. unfold getitem. rewrite H. reflexivity. Qed.

Lemma encoder_tract dataId v t singleFilter :
  dataId !! "tract" = Some v -> py_int v = Return t ->
  _computeCoaddExposureId dataId singleFilter =
    if (t <? 0) || (t >=? 2 ^ 16) then Raise (RuntimeError tract_msg)
    else
      p ← getitem dataId "patch";
      '(patchX, patchY) ← parse_patch p;
      _ ← check_patch [patchX; patchY];
      if singleFilter
      then
        f ← getitem dataId "filter";
        fid ← Filter_getId f;
        Return (Z.shiftl (packed t patchX patchY) 6 + fid)
      else Return (packed t patchX patchY).
Proof.
  intros Hv Hi. unfold _computeCoaddExposureId.
  rewrite (getitem_Some _ _ _ Hv). cbn. rewrite Hi. reflexivity.
Qed.

Lemma encoder_unfold dataId t pX pY singleFilter :
  carries dataId t pX pY ->
  _computeCoaddExposureId dataId singleFilter =
    if (t <? 0) || (t >=? 2 ^ 16) then Raise (RuntimeError tract_msg)
    else
      _ ← check_patch [pX; pY];
      if singleFilter
      then
        f ← getitem dataId "filter";
        fid ← Filter_getId f;
        Return (Z.shiftl (packed t pX pY) 6 + fid)
      else Return (packed t pX pY).
Proof.
  intros [(v & Hv & Hi) (p & Hp & Hpp)].
  rewrite (encoder_tract _ _ _ _ Hv Hi).
  destruct ((t <? 0) || (t >=? 2 ^ 16)); [reflexivity|].
  rewrite (getitem_Some _ _ _ Hp). cbn. rewrite Hpp. reflexivity.
Qed.

Lemma check_patch_ok pX pY :
  0 <= pX < 2 ^ 5 -> 0 <= pY < 2 ^ 5 -> check_patch [pX; pY] = Return tt.
Proof.
  intros HX HY. unfold check_patch. change (2 ^ _nbit_patch) with (2 ^ 5).
  replace (pX <? 0) with false by lia. replace (pX >=? 2 ^ 5) with false by lia.
  replace (pY <? 0) with false by lia. replace (pY >=? 2 ^ 5) with false by lia.
  reflexivity.
Qed.

Lemma check_patch_bad pX pY :
  pX < 0 \/ 2 ^ 5 <= pX \/ pY < 0 \/ 2 ^ 5 <= pY ->
  check_patch [pX; pY] = Raise (RuntimeError patch_msg).
Proof.
  intros H. unfold check_patch. change (2 ^ _nbit_patch) with (2 ^ 5).
  destruct ((pX <? 0) || (pX >=? 2 ^ 5)) eqn:EX; [reflexivity|].
  destruct ((pY <? 0) || (pY >=? 2 ^ 5)) eqn:EY; [reflexivity|].
  lia.
Qed.

Lemma encoder_in_range dataId t pX pY singleFilter :
  carries dataId t pX pY -> in_range t pX pY ->
  _computeCoaddExposureId dataId singleFilter =
    if singleFilter
    then
      f ← getitem dataId "filter";
      fid ← Filter_getId f;
      Return (Z.shiftl (packed t pX pY) 6 + fid)
    else Return (packed t pX pY).
Proof.
  intros Hc (Ht & HX & HY). rewrite (encoder_unfold _ _ _ _ _ Hc).
  replace ((t <? 0) || (t >=? 2 ^ 16)) with false by lia.
  rewrite check_patch_ok by assumption. reflexivity.
Qed.

Lemma encoder_single dataId t pX pY f :
  carries dataId t pX pY -> in_range t pX pY -> has_filter dataId f ->
  _computeCoaddExposureId dataId true = Return (Z.shiftl (packed t pX pY) 6 + f).
Proof.
  intros Hc Hr (v & Hv & Hf). rewrite (encoder_in_range _ _ _ _ _ Hc Hr).
  rewrite (getitem_Some _ _ _ Hv). cbn. rewrite Hf. reflexivity.
Qed.

Lemma packed_bounds t pX pY :
  in_range t pX pY -> 0 <= packed t pX pY < 2 ^ 26.
Proof.
  intros (Ht & HX & HY). unfold packed. rewrite !Z.shiftl_mul_pow2 by lia.
  change (2 ^ 5) with 32 in *. change (2 ^ 16) with 65536 in *.
  change (2 ^ 26) with 67108864. lia.
Qed.

(** C1: a [dataId] with tract [t] and patch [(pX, pY)] in range encodes to
    [(((t << 5) + pX) << 5) + pY] without a filter and to that value
    shifted left by 6 plus the filter identifier [f] with a single filter;
    tract 1 with patch (2,3) gives 1091 before the filter shift, and tract 0
    with patch (0,0) and filter identifier 5 gives 5. *)
Theorem coadd_id_packing dataId t pX pY :
  carries dataId t pX pY -> in_range t pX pY ->
  _computeCoaddExposureId dataId false
    = Return (Z.shiftl (Z.shiftl t 5 + pX) 5 + pY)
  /\ (forall f, has_filter dataId f ->
        _computeCoaddExposureId dataId true
          = Return (Z.shiftl (Z.shiftl (Z.shiftl t 5 + pX) 5 + pY) 6 + f))
  /\ (t = 1 -> pX = 2 -> pY = 3 ->
        _computeCoaddExposureId dataId false = Return 1091)
  /\ (t = 0 -> pX = 0 -> pY = 0 -> has_filter dataId 5 ->
        _computeCoaddExposureId dataId true = Return 5).
Proof.
  intros Hc Hr.
  pose proof (encoder_in_range _ _ _ _ false Hc Hr) as Hm. cbn in Hm.
  repeat split.
  - exact Hm.
  - intros f Hf. exact (encoder_single _ _ _ _ _ Hc Hr Hf).
  - intros -> -> ->. exact Hm.
  - intros -> -> -> Hf. exact (encoder_single _ _ _ _ _ Hc Hr Hf).
Qed.

(** C2: a tract below 0 or from [2^16] on, or a patch component below 0 or
    from [2^5] on, makes the encoder raise [RuntimeError], whatever the rest
    of the [dataId]; a [dataId] in range passes both checks and goes on to
    the packing. *)
Theorem coadd_id_range_checks dataId v t singleFilter :
  dataId !! "tract" = Some v -> py_int v = Return t ->
  (t < 0 \/ 2 ^ 16 <= t ->
     _computeCoaddExposureId dataId singleFilter
       = Raise (RuntimeError tract_msg))
  /\ (forall pX pY, carries dataId t pX pY -> 0 <= t < 2 ^ 16 ->
        pX < 0 \/ 2 ^ 5 <= pX \/ pY < 0 \/ 2 ^ 5 <= pY ->
        _computeCoaddExposureId dataId singleFilter
          = Raise (RuntimeError patch_msg))
  /\ (forall pX pY, carries dataId t pX pY -> in_range t pX pY ->
        _computeCoaddExposureId dataId singleFilter
          = if singleFilter
            then
              f ← getitem dataId "filter";
              fid ← Filter_getId f;
              Return (Z.shiftl (packed t pX pY) 6 + fid)
            else Return (packed t pX pY)).
Proof.
  intros Hv Hi. repeat split.
  - intros Ht. rewrite (encoder_tract _ _ _ _ Hv Hi).
    replace ((t <? 0) || (t >=? 2 ^ 16)) with true by lia. reflexivity.
  - intros pX pY Hc Ht Hp. rewrite (encoder_unfold _ _ _ _ _ Hc).
    replace ((t <? 0) || (t >=? 2 ^ 16)) with false by lia.
    rewrite (check_patch_bad _ _ Hp). reflexivity.
  - intros pX pY Hc Hr. exact (encoder_in_range _ _ _ _ _ Hc Hr).
Qed.

(** C9: the bit widths reported for single-filter and merged coadd
    identifiers are the sum of the field widths, 16 + 5 + 5 + 6 = 32, and
    every identifier encoded from a tract, a patch and a filter identifier
    in range is below 2 to that width. *)
Theorem coadd_id_bits dataId t pX pY :
  carries dataId t pX pY -> in_range t pX pY ->
  bypass_deepCoaddId_bits = _nbit_tract + _nbit_patch + _nbit_patch + _nbit_filter
  /\ bypass_deepMergedCoaddId_bits = bypass_deepCoaddId_bits
  /\ bypass_dcrCoaddId_bits = bypass_deepCoaddId_bits
  /\ bypass_dcrMergedCoaddId_bits = bypass_deepCoaddId_bits
  /\ bypass_deepCoaddId_bits = 16 + 5 + 5 + 6
  /\ bypass_deepCoaddId_bits = 32
  /\ (forall f, has_filter dataId f -> f < 2 ^ 6 ->
        exists id, bypass_deepCoaddId dataId = Return id
                   /\ bypass_dcrCoaddId dataId = Return id
                   /\ id < 2 ^ bypass_deepCoaddId_bits)
  /\ (exists id, bypass_deepMergedCoaddId dataId = Return id
                 /\ bypass_dcrMergedCoaddId dataId = Return id
                 /\ id < 2 ^ bypass_deepMergedCoaddId_bits).
Proof.
  intros Hc Hr.
  pose proof (packed_bounds _ _ _ Hr) as Hb.
  do 6 (split; [reflexivity|]). split.
  - intros f Hf Hlt. exists (Z.shiftl (packed t pX pY) 6 + f).
    unfold bypass_dcrCoaddId, bypass_deepCoaddId.
    rewrite (encoder_single _ _ _ _ _ Hc Hr Hf).
    repeat split. rewrite Z.shiftl_mul_pow2 by lia.
    change (2 ^ bypass_deepCoaddId_bits) with 4294967296.
    change (2 ^ 6) with 64 in *. change (2 ^ 26) with 67108864 in *. lia.
  - exists (packed t pX pY).
    unfold bypass_dcrMergedCoaddId, bypass_deepMergedCoaddId.
    rewrite (encoder_in_range _ _ _ _ false Hc Hr).
    repeat split.
    change (2 ^ bypass_deepMergedCoaddId_bits) with 4294967296.
    change (2 ^ 26) with 67108864 in *. lia.
Qed.

End EncoderFacts.

Lemma coadd_id_packing_witness :
  LsstCamMapper._computeCoaddExposureId coaddId false = Return 1091
  /\ LsstCamMapper._computeCoaddExposureId coaddId true = Return 69829
  /\ LsstCamMapper._computeCoaddExposureId originId true = Return 5.
Proof.
  assert (Hc : carries coaddId 1 2 3)
    by (split; eexists; split; reflexivity).
  assert (Hr : in_range 1 2 3) by (unfold in_range; lia).
  assert (Hc0 : carries originId 0 0 0)
    by (split; eexists; split; reflexivity).
  assert (Hr0 : in_range 0 0 0) by (unfold in_range; lia).
  assert (Hf : has_filter coaddId 5) by (eexists; split; reflexivity).
  assert (Hf0 : has_filter originId 5) by (eexists; split; reflexivity).
  destruct (coadd_id_packing coaddId 1 2 3 Hc Hr) as (_ & H2 & H3 & _).
  destruct (coadd_id_packing originId 0 0 0 Hc0 Hr0) as (_ & _ & _ & H4).
  split; [exact (H3 eq_refl eq_refl eq_refl)|].
  split; [exact (H2 5 Hf)|].
  exact (H4 eq_refl eq_refl eq_refl Hf0).
Defined.

Lemma coadd_id_range_checks_witness :
  LsstCamMapper._computeCoaddExposureId bigTractId false
    = Raise (RuntimeError LsstCamMapper.tract_msg)
  /\ LsstCamMapper._computeCoaddExposureId bigPatchId true
    = Raise (RuntimeError LsstCamMapper.patch_msg)
  /\ LsstCamMapper._computeCoaddExposureId coaddId false = Return 1091.
Proof.
  split; [|split].
  - apply (coadd_id_range_checks bigTractId (VInt 65536) 65536 false);
      [reflexivity | reflexivity | lia].
  - apply (coadd_id_range_checks bigPatchId (VInt 7) 7 true eq_refl eq_refl)
      with (pX := 3) (pY := 32).
    + split; eexists; split; reflexivity.
    + lia.
    + lia.
  - apply (coadd_id_range_checks coaddId (VInt 1) 1 false eq_refl eq_refl)
      with (pX := 2) (pY := 3).
    + split; eexists; split; reflexivity.
    + unfold in_range; lia.
Defined.

Lemma coadd_id_bits_witness :
  LsstCamMapper.bypass_deepCoaddId_bits = 32
  /\ exists id, LsstCamMapper.bypass_deepCoaddId coaddId = Return id
                /\ id < 2 ^ 32.
Proof.
  assert (Hc : carries coaddId 1 2 3)
    by (split; eexists; split; reflexivity).
  assert (Hr : in_range 1 2 3) by (unfold in_range; lia).
  destruct (coadd_id_bits coaddId 1 2 3 Hc Hr)
    as (_ & _ & _ & _ & _ & Hb & Hs & _).
  split; [exact Hb|].
  destruct (Hs 5) as (id & Hid & _ & Hlt).
  - eexists; split; reflexivity.
  - lia.
  - exists id. split; [exact Hid | exact Hlt].
Defined.

(** * Properties of the per-channel query *)

Section QueryFacts.

Context `{R : Registry}.
Import LsstCamMapper.

Lemma index_lookup x l k : index x l = Some k -> l !! k = Some x.
Proof.
  revert k. induction l as [|y l IH]; intros k; simpl; [discriminate|].
  case_bool_decide as Hy.
  - intros [= <-]. simpl. congruence.
  - destruct (index x l) as [j|]; simpl; [|discriminate].
    intros [= <-]. simpl. apply IH. reflexivity.
Qed.

Lemma insert_at_lookup {A} (k : nat) (c : A) (value : list A) :
  (k <= length value)%nat -> insert_at k c value !! k = Some c.
Proof.
  intros Hk. unfold insert_at.
  apply list_lookup_middle. rewrite length_take. lia.
Qed.

Lemma insert_at_delete {A} (k : nat) (c : A) (value : list A) :
  (k <= length value)%nat -> delete k (insert_at k c value) = value.
Proof.
  revert value. induction k as [|k IH]; intros [|a value] Hk; simpl in *;
    try reflexivity; try lia.
  unfold insert_at in *. simpl. f_equal. apply IH. lia.
Qed.

Lemma expand_rows_length (f : list PyVal -> list (list PyVal)) (n : nat) rows :
  (forall value, length (f value) = n) ->
  length (flat_map f rows) = (n * length rows)%nat.
Proof.
  intros Hf. induction rows as [|value rows IH]; simpl; [lia|].
  rewrite length_app, Hf, IH. lia.
Qed.

Lemma flat_map_singleton {A} (rows : list A) :
  flat_map (fun value => [value]) rows = rows.
Proof. induction rows as [|a rows IH]; simpl; [reflexivity|]. now rewrite IH. Qed.

Lemma flat_map_one {A B} (g : A -> B) (rows : list A) :
  flat_map (fun value => [g value]) rows = g <$> rows.
Proof. induction rows as [|a rows IH]; simpl; [reflexivity|]. now rewrite IH. Qed.

(** C10: a channel outside 1..16 raises [ValueError], whatever the
    registry would answer; a channel in range is the only one reported, at
    the place of ["channel"] in the format; without a channel in the
    [dataId], every registry row becomes sixteen tuples, one per channel
    from 1 to 16, the channel sitting at the place of ["channel"] in the
    format. *)
Theorem query_raw_amp_channels (format : list string) (dataId : gmap string PyVal) :
  (forall c, dataId !! "channel" = Some (VInt c) -> c < 1 \/ 16 < c ->
     query_raw_amp format dataId = Raise (ValueError channel_msg))
  /\ (forall c k rows,
        dataId !! "channel" = Some (VInt c) -> 1 <= c <= 16 ->
        index "channel" format = Some k ->
        query_raw (delete k format) (delete "channel" dataId) = Return rows ->
        query_raw_amp format dataId = Return (insert_at k (VInt c) <$> rows))
  /\ (forall c,
        dataId !! "channel" = Some (VInt c) -> 1 <= c <= 16 ->
        index "channel" format = None ->
        query_raw_amp format dataId
          = query_raw format (delete "channel" dataId))
  /\ (forall k rows,
        dataId !! "channel" = None ->
        index "channel" format = Some k ->
        query_raw (delete k format) dataId = Return rows ->
        query_raw_amp format dataId = Return (flat_map (expand k) rows)
        /\ length (flat_map (expand k) rows) = (16 * length rows)%nat
        /\ forall value, expand k value =
             (fun c => insert_at k (VInt c) value)
               <$> [1; 2; 3; 4; 5; 6; 7; 8; 9; 10; 11; 12; 13; 14; 15; 16])
  /\ (forall k, index "channel" format = Some k ->
        format !! k = Some "channel"
        /\ forall (c : PyVal) value, (k <= length value)%nat ->
             insert_at k c value !! k = Some c
             /\ delete k (insert_at k c value) = value).
Proof.
  split; [|split; [|split; [|split]]].
  - intros c Hc Hr. unfold query_raw_amp, requested_channels. rewrite Hc.
    unfold nChannel. replace ((c >? 16) || (c <? 1)) with true by lia.
    reflexivity.
  - intros c k rows Hc Hr Hk Hq. unfold query_raw_amp, requested_channels.
    rewrite Hc. unfold nChannel.
    replace ((c >? 16) || (c <? 1)) with false by lia.
    cbn. rewrite Hk, Hq. cbn. rewrite flat_map_one. reflexivity.
  - intros c Hc Hr Hk. unfold query_raw_amp, requested_channels.
    rewrite Hc. unfold nChannel.
    replace ((c >? 16) || (c <? 1)) with false by lia.
    cbn. rewrite Hk.
    destruct (query_raw format (delete "channel" dataId)) as [e|rows]; cbn;
      [reflexivity|].
    rewrite flat_map_singleton. reflexivity.
  - intros k rows Hc Hk Hq. split; [|split].
    + unfold query_raw_amp, requested_channels. rewrite Hc.
      cbn. rewrite Hk, Hq. reflexivity.
    + apply expand_rows_length. intros value. reflexivity.
    + intros value. reflexivity.
  - intros k Hk. split; [exact (index_lookup _ _ _ Hk)|].
    intros c value Hle. split.
    + apply insert_at_lookup, Hle.
    + apply insert_at_delete, Hle.
Qed.

End QueryFacts.

Lemma query_raw_amp_channels_witness :
  LsstCamMapper.query_raw_amp ampFormat channel17
    = Raise (ValueError LsstCamMapper.channel_msg)
  /\ LsstCamMapper.query_raw_amp ampFormat channel16
    = Return [[VInt 7; VInt 16; VInt 7]; [VInt 8; VInt 16; VInt 8]]
  /\ length (flat_map (expand 1) [[VInt 7; VInt 7]; [VInt 8; VInt 8]]) = 32%nat.
Proof.
  destruct (query_raw_amp_channels ampFormat channel17) as (H1 & _).
  destruct (query_raw_amp_channels ampFormat channel16) as (_ & H2 & _).
  destruct (query_raw_amp_channels ampFormat visitOnly) as (_ & _ & _ & H3 & _).
  split; [|split].
  - apply (H1 17); [reflexivity | lia].
  - apply (H2 16 1%nat [[VInt 7; VInt 7]; [VInt 8; VInt 8]]);
      [reflexivity | lia | reflexivity | reflexivity].
  - apply (H3 1%nat [[VInt 7; VInt 7]; [VInt 8; VInt 8]]); reflexivity.
Defined.

(** * Properties of the raw composite assembler *)

Section AssemblerFacts.

Context `{F : Foreign}.

Lemma alter_as_insert {A} (f : A -> A) (l : list A) (i : nat) (a : A) :
  l !! i = Some a -> alter f i l = <[i := f a]> l.
Proof.
  revert i. induction l as [|b l IH]; intros [|i] H; simpl in *;
    try discriminate.
  - injection H as ->. reflexivity.
  - f_equal. apply IH, H.
Qed.

Lemma bind_run {A B} (m : M A) (k : A -> M B) (w : World) :
  (m ≫= k) w = match m w with
               | (Raise e, w') => (Raise e, w')
               | (Return a, w') => k a w'
               end.
Proof. reflexivity. Qed.

Lemma getAmp_run i (w : World) amp :
  amps w !! i = Some amp -> getAmp i w = (Return amp, w).
Proof. intros H. unfold getAmp. rewrite H. reflexivity. Qed.

Lemma patchGeometry_fatal i warned ampExp w amp :
  amps w !! i = Some amp ->
  irreconcilable amp ampExp ->
  patchGeometry i warned ampExp w = (Raise (RuntimeError active_area_msg), w).
Proof.
  intros Ha [Hb Hd]. unfold patchGeometry.
  rewrite bind_run, (getAmp_run _ _ _ Ha).
  rewrite (bool_decide_eq_true_2 _ Hb).
  rewrite (bool_decide_eq_true_2 _ Hd). reflexivity.
Qed.

Lemma patchGeometry_same i warned ampExp w amp :
  amps w !! i = Some amp ->
  rawBBox amp = ae_bbox ampExp ->
  patchGeometry i warned ampExp w = (Return warned, w).
Proof.
  intros Ha Hb. unfold patchGeometry.
  rewrite bind_run, (getAmp_run _ _ _ Ha).
  rewrite bool_decide_eq_false_2 by (intros Hn; exact (Hn Hb)).
  reflexivity.
Qed.

Lemma patchGeometry_patch i warned ampExp w amp :
  amps w !! i = Some amp ->
  rawBBox amp ≠ ae_bbox ampExp ->
  getDimensions (rawDataBBox amp) = getDimensions (bbox amp) ->
  patchGeometry i warned ampExp w =
    let data := ae_bbox ampExp in
    let amp1 := patchedBoxes amp data in
    let evs := patchLog warned (events w) in
    match newRawXYOffset (fst (rawXYOffset amp)) (snd (rawXYOffset amp))
            (getWidth (rawBBox amp)) (getHeight (rawBBox amp))
            (getWidth data) (getHeight data) with
    | Raise e => (Raise e, mkWorld (<[i := amp1]> (amps w)) evs)
    | Return (nx, ny) =>
        match ExtentI nx ny with
        | Raise e => (Raise e, mkWorld (<[i := amp1]> (amps w)) evs)
        | Return off =>
            (Return true, mkWorld (<[i := withRawXYOffset off amp1]> (amps w)) evs)
        end
    end.
Proof.
  intros Ha Hb Hd. unfold patchGeometry.
  rewrite bind_run, (getAmp_run _ _ _ Ha).
  rewrite (bool_decide_eq_true_2 _ Hb).
  rewrite bool_decide_eq_false_2 by (intros Hn; exact (Hn Hd)).
  pose proof (lookup_lt_Some _ _ _ Ha) as Hlt.
  rewrite bind_run.
  assert (Hstep : (if warned then mret () else logEv Warn patching_msg) w
                  = (Return tt, mkWorld (amps w) (patchLog warned (events w)))).
  { destruct warned; destruct w; reflexivity. }
  rewrite Hstep. clear Hstep.
  cbv zeta. unfold patchedBoxes, getDimensions, getWidth, getHeight.
  destruct (dimensions (ae_bbox ampExp)) as [dw dh] eqn:Edata.
  destruct (dimensions (rawBBox amp)) as [ow oh] eqn:Eraw.
  destruct (rawXYOffset amp) as [x0 y0] eqn:Eoff.
  unfold setRawBBox, setRawHorizontalOverscanBBox, setRawVerticalOverscanBBox,
    setRawXYOffset, modifyAmp.
  rewrite !bind_run. cbn [amps events fst snd].
  rewrite !list_alter_alter_eq, (alter_as_insert _ _ _ _ Ha).
  unfold getAmp. cbn [amps events].
  rewrite list_lookup_insert_eq by exact Hlt.
  unfold compose.
  cbn [rawBBox rawXYOffset withRawBBox withRawHorizontalOverscanBBox
       withRawVerticalOverscanBBox].
  rewrite Edata, Eoff.
  unfold lift.
  destruct (newRawXYOffset x0 y0 ow oh dw dh) as [e|[nx ny]]; [reflexivity|].
  rewrite bind_run.
  destruct (ExtentI nx ny) as [e|off]; [reflexivity|].
  unfold mbind, M_bind, mret, M_ret. cbn [amps events].
  rewrite (alter_as_insert _ _ _ _ (list_lookup_insert_eq _ _ _ Hlt)).
  rewrite list_insert_insert_eq. reflexivity.
Qed.

Lemma irafBox_run (md : gmap string PyVal) key (w : World) :
  irafBox md key w =
    match md !! key with
    | Some v =>
        match bboxFromIraf v with
        | Raise e => (Raise e, w)
        | Return b => (Return (Some b), w)
        end
    | None => (Return None, w)
    end.
Proof.
  unfold irafBox. destruct (md !! key) as [v|]; [|reflexivity].
  rewrite bind_run. unfold lift. destruct (bboxFromIraf v); reflexivity.
Qed.

Lemma when_log_run (c : bool) (i : nat) msg (w : World) :
  when c ((if (i =? 0)%nat then logEv Warn else logEv Debug) msg) w
  = (Return tt,
     mkWorld (amps w)
       (events w ++ if c then [Log (if (i =? 0)%nat then Warn else Debug) msg]
                    else [])).
Proof.
  destruct w as [l evs]. unfold when.
  destruct c; [destruct (i =? 0)%nat; reflexivity|].
  cbn. rewrite app_nil_r. reflexivity.
Qed.

Lemma checkIraf_logs i (w : World) amp detsec datasec biassec :
  amps w !! i = Some amp ->
  (amp ← getAmp i;
   _ ← when (differs detsec (bbox amp))
          ((if (i =? 0)%nat then logEv Warn else logEv Debug) detsec_msg);
   amp ← getAmp i;
   _ ← when (differs datasec (rawDataBBox amp))
          ((if (i =? 0)%nat then logEv Warn else logEv Debug) datasec_msg);
   amp ← getAmp i;
   when (differs biassec (rawHorizontalOverscanBBox amp))
        ((if (i =? 0)%nat then logEv Warn else logEv Debug) biassec_msg)) w
  = (Return tt,
     mkWorld (amps w) (events w ++ irafLogs i amp detsec datasec biassec)).
Proof.
  intros Ha. unfold irafLogs.
  rewrite bind_run, (getAmp_run _ _ _ Ha).
  rewrite bind_run, when_log_run.
  rewrite bind_run, (getAmp_run i _ amp) by exact Ha.
  rewrite bind_run, when_log_run.
  rewrite bind_run, (getAmp_run i _ amp) by exact Ha.
  rewrite when_log_run. cbn [amps events].
  rewrite <- !app_assoc. reflexivity.
Qed.

Lemma checkIraf_run i dataId ampExp (w : World) amp :
  amps w !! i = Some amp ->
  checkIraf i dataId ampExp w =
    let md := ae_metadata ampExp in
    match irafBox md "DETSEC" w with
    | (Raise e, _) => (Raise e, w)
    | (Return detsec, _) =>
        match irafBox md "DATASEC" w with
        | (Raise e, _) => (Raise e, w)
        | (Return datasec, _) =>
            match irafBox md "BIASSEC" w with
            | (Raise e, _) => (Raise e, w)
            | (Return biassec, _) =>
                (Return tt,
                 mkWorld (amps w)
                   (events w ++ irafLogs i amp detsec datasec biassec))
            end
        end
    end.
Proof.
  intros Ha. unfold checkIraf. cbv zeta.
  rewrite bind_run.
  rewrite (irafBox_run _ "DETSEC").
  destruct (ae_metadata ampExp !! "DETSEC") as [v1|];
    [destruct (bboxFromIraf v1) as [e1|b1]; [reflexivity|]|];
  (rewrite bind_run, (irafBox_run _ "DATASEC");
   destruct (ae_metadata ampExp !! "DATASEC") as [v2|];
     [destruct (bboxFromIraf v2) as [e2|b2]; [reflexivity|]|];
   (rewrite bind_run, (irafBox_run _ "BIASSEC");
    destruct (ae_metadata ampExp !! "BIASSEC") as [v3|];
      [destruct (bboxFromIraf v3) as [e3|b3]; [reflexivity|]|];
    exact (checkIraf_logs _ _ _ _ _ _ Ha))).
Qed.


Lemma lift_run {A} (m : Exc A) (w : World) : lift m w = (m, w).
Proof. reflexivity. Qed.

Lemma getAmps_run (w : World) : getAmps w = (Return (amps w), w).
Proof. reflexivity. Qed.

Lemma patchGeometry_frame i warned ampExp (w w' : World) amp r :
  amps w !! i = Some amp ->
  patchGeometry i warned ampExp w = (r, w') ->
  (exists amp', amps w' !! i = Some amp')
  /\ forall j, j ≠ i -> amps w' !! j = amps w !! j.
Proof.
  intros Ha Hrun. pose proof (lookup_lt_Some _ _ _ Ha) as Hlt.
  destruct (decide (rawBBox amp = ae_bbox ampExp)) as [Hb|Hb].
  { rewrite (patchGeometry_same _ _ _ _ _ Ha Hb) in Hrun.
    injection Hrun as _ <-. eauto. }
  destruct (decide (getDimensions (rawDataBBox amp) = getDimensions (bbox amp)))
    as [Hd|Hd].
  2:{ rewrite (patchGeometry_fatal _ _ _ _ _ Ha (conj Hb Hd)) in Hrun.
      injection Hrun as _ <-. eauto. }
  rewrite (patchGeometry_patch _ _ _ _ _ Ha Hb Hd) in Hrun. cbv zeta in Hrun.
  destruct (newRawXYOffset _ _ _ _ _ _) as [e|[nx ny]];
    [|destruct (ExtentI nx ny) as [e|off]];
    injection Hrun as _ <-; cbn [amps];
    (split; [eexists; apply list_lookup_insert_eq, Hlt
            | intros j Hj; apply list_lookup_insert_ne; congruence]).
Qed.

Lemma checkIraf_frame i dataId ampExp (w w' : World) amp r :
  amps w !! i = Some amp ->
  checkIraf i dataId ampExp w = (r, w') ->
  amps w' = amps w.
Proof.
  intros Ha Hrun. rewrite (checkIraf_run _ _ _ _ _ Ha) in Hrun.
  cbv zeta in Hrun.
  destruct (irafBox _ "DETSEC" w) as [[e1|b1] ?];
    [injection Hrun as _ <-; reflexivity|].
  destruct (irafBox _ "DATASEC" w) as [[e2|b2] ?];
    [injection Hrun as _ <-; reflexivity|].
  destruct (irafBox _ "BIASSEC" w) as [[e3|b3] ?];
    injection Hrun as _ <-; reflexivity.
Qed.

Lemma checkAmps_fatal dataId ampExps :
  forall j warned (w : World) k ampExp amp,
    ampExps !! k = Some ampExp ->
    amps w !! (j + k)%nat = Some amp ->
    irreconcilable amp ampExp ->
    exists e w', checkAmps j warned dataId ampExps w = (Raise e, w').
Proof.
  induction ampExps as [|ampExp0 rest IH]; intros j warned w k ampExp amp Hk Ha Hbad;
    [discriminate|].
  cbn [checkAmps]. rewrite bind_run, getAmps_run.
  pose proof (lookup_lt_Some _ _ _ Ha) as Hlt.
  rewrite bool_decide_eq_true_2 by lia.
  destruct (lookup_lt_is_Some_2 (amps w) j ltac:(lia)) as [ampj Hj].
  rewrite bind_run.
  destruct k as [|k].
  - injection Hk as ->. rewrite Nat.add_0_r in Ha.
    rewrite (patchGeometry_fatal _ _ _ _ _ Ha Hbad). eauto.
  - destruct (patchGeometry j warned ampExp0 w) as [[e|warned'] w1] eqn:Hp;
      [eauto|].
    destruct (patchGeometry_frame _ _ _ _ _ _ _ Hj Hp) as [[ampj' Hj'] Hfr].
    rewrite bind_run.
    destruct (checkIraf j dataId ampExp0 w1) as [[e|[]] w2] eqn:Hc; [eauto|].
    apply (IH (S j) warned' w2 k ampExp amp Hk); [|exact Hbad].
    rewrite (checkIraf_frame _ _ _ _ _ _ _ Hj' Hc).
    rewrite Hfr by lia. rewrite <- Ha. f_equal. lia.
Qed.


Lemma BoxI_positive (corner : Z * Z) (bw bh : Z) :
  0 < bw -> 0 < bh -> BoxI corner (bw, bh) = mkBox corner (bw, bh).
Proof.
  intros Hw Hh. destruct corner as [x y]. unfold BoxI, flip. cbn [fst snd].
  replace (bw =? 0) with false by lia. replace (bw <? 0) with false by lia.
  replace (bh =? 0) with false by lia. replace (bh <? 0) with false by lia.
  reflexivity.
Qed.

Lemma patchGeometry_patched i warned ampExp (w : World) amp :
  amps w !! i = Some amp ->
  rawBBox amp ≠ ae_bbox ampExp ->
  getDimensions (rawDataBBox amp) = getDimensions (bbox amp) ->
  exists r w' amp',
    patchGeometry i warned ampExp w = (r, w')
    /\ amps w' !! i = Some amp'
    /\ (amp' = patchedBoxes amp (ae_bbox ampExp)
        \/ exists off, amp' = withRawXYOffset off (patchedBoxes amp (ae_bbox ampExp))).
Proof.
  intros Ha Hb Hd. pose proof (lookup_lt_Some _ _ _ Ha) as Hlt.
  rewrite (patchGeometry_patch _ _ _ _ _ Ha Hb Hd). cbv zeta.
  destruct (newRawXYOffset _ _ _ _ _ _) as [e|[nx ny]];
    [|destruct (ExtentI nx ny) as [e|off]];
    eexists _, _, _; (split; [reflexivity|]); cbn [amps];
    (split; [apply list_lookup_insert_eq, Hlt|]); eauto.
Qed.

(** C3: with an empty [raw_amp] component [assemble_raw] raises
    [RuntimeError] and leaves the world as it was: nothing is logged, the
    CCD assembler is not called, and no exposure is returned. *)
Theorem empty_raw_amp_is_fatal dataId componentInfo (w : World) :
  raw_amp componentInfo = [] ->
  assemble_raw dataId componentInfo w = (Raise (RuntimeError no_amps_msg), w)
  /\ forall exposure w', assemble_raw dataId componentInfo w ≠ (Return exposure, w').
Proof.
  intros He. unfold assemble_raw. rewrite He. cbn [length Nat.eqb].
  split; [reflexivity|]. intros exposure w'. unfold raise. discriminate.
Qed.

(** C4: for an amplifier whose untrimmed box differs from its segment's
    box, a raw-data box whose dimensions differ from the nominal box's makes
    the check raise [RuntimeError] with the geometry untouched, and
    [assemble_raw] raises; when the dimensions agree the check goes on and
    patches the untrimmed box and the two overscan boxes. *)
Theorem active_area_mismatch_is_fatal i warned dataId componentInfo ampExp
  (w : World) amp :
  amps w !! i = Some amp ->
  raw_amp componentInfo !! i = Some ampExp ->
  rawBBox amp ≠ ae_bbox ampExp ->
  (getDimensions (rawDataBBox amp) ≠ getDimensions (bbox amp) ->
     patchGeometry i warned ampExp w = (Raise (RuntimeError active_area_msg), w)
     /\ exists e w', assemble_raw dataId componentInfo w = (Raise e, w'))
  /\ (getDimensions (rawDataBBox amp) = getDimensions (bbox amp) ->
      exists r w' amp',
        patchGeometry i warned ampExp w = (r, w')
        /\ amps w' !! i = Some amp'
        /\ rawBBox amp' = ae_bbox ampExp
        /\ rawHorizontalOverscanBBox amp'
           = rawHorizontalOverscanBBox (patchedBoxes amp (ae_bbox ampExp))
        /\ rawVerticalOverscanBBox amp'
           = rawVerticalOverscanBBox (patchedBoxes amp (ae_bbox ampExp))).
Proof.
  intros Ha Hk Hb. split.
  - intros Hd. split; [exact (patchGeometry_fatal _ _ _ _ _ Ha (conj Hb Hd))|].
    unfold assemble_raw.
    destruct (raw_amp componentInfo) as [|a0 rest] eqn:El; [discriminate|].
    cbn [length Nat.eqb]. rewrite bind_run.
    destruct (checkAmps_fatal dataId (a0 :: rest) 0 false w i ampExp amp Hk Ha
                (conj Hb Hd)) as (e & w' & Hrun).
    rewrite Hrun. eauto.
  - intros Hd.
    destruct (patchGeometry_patched i warned ampExp w amp Ha Hb Hd)
      as (r & w' & amp' & Hrun & Ha' & Hamp).
    exists r, w', amp'. split; [exact Hrun|]. split; [exact Ha'|].
    destruct Hamp as [->|[off ->]]; repeat split; reflexivity.
Qed.

(** C5, as the code has it: after the patch the serial overscan keeps its
    corner and its height and is [w - beginX] wide, the parallel overscan
    keeps its corner and its width and is [h - beginY] high, where [w] and
    [h] are the dimensions of the data and the new extents are positive. *)
Theorem overscan_boxes_after_patch i warned ampExp (w : World) amp :
  amps w !! i = Some amp ->
  rawBBox amp ≠ ae_bbox ampExp ->
  getDimensions (rawDataBBox amp) = getDimensions (bbox amp) ->
  0 < getWidth (ae_bbox ampExp) - getBeginX (rawHorizontalOverscanBBox amp) ->
  0 < getHeight (rawHorizontalOverscanBBox amp) ->
  0 < getWidth (rawVerticalOverscanBBox amp) ->
  0 < getHeight (ae_bbox ampExp) - getBeginY (rawVerticalOverscanBBox amp) ->
  exists r w' amp',
    patchGeometry i warned ampExp w = (r, w')
    /\ amps w' !! i = Some amp'
    /\ rawBBox amp' = ae_bbox ampExp
    /\ rawHorizontalOverscanBBox amp'
       = mkBox (getBegin (rawHorizontalOverscanBBox amp))
               (getWidth (ae_bbox ampExp) - getBeginX (rawHorizontalOverscanBBox amp),
                getHeight (rawHorizontalOverscanBBox amp))
    /\ rawVerticalOverscanBBox amp'
       = mkBox (getBegin (rawVerticalOverscanBBox amp))
               (getWidth (rawVerticalOverscanBBox amp),
                getHeight (ae_bbox ampExp) - getBeginY (rawVerticalOverscanBBox amp)).
Proof.
  intros Ha Hb Hd H1 H2 H3 H4.
  destruct (patchGeometry_patched i warned ampExp w amp Ha Hb Hd)
    as (r & w' & amp' & Hrun & Ha' & Hamp).
  exists r, w', amp'. split; [exact Hrun|]. split; [exact Ha'|].
  rewrite <- (BoxI_positive _ _ _ H1 H2), <- (BoxI_positive _ _ _ H3 H4).
  destruct Hamp as [->|[off ->]]; repeat split; reflexivity.
Qed.

(** C6: the new offset is [(x0 // ow) * w] on X, an integer, but
    [(y0 / oh) * h] on Y, a float from true division; at offset (544, 2048)
    the Y component is the float 2048.0 where the integer rule gives 2048,
    and at offset (150, 150) with 100x100 boxes grown to 110x110 it is 165.0
    where the integer rule gives 110. *)
Theorem offset_rule_mixes_divisions :
  (forall x0 y0 ow oh xRawExtent yRawExtent nx ny,
     newRawXYOffset x0 y0 ow oh xRawExtent yRawExtent = Return (nx, ny) ->
     nx = PyInt (x0 / ow * xRawExtent) /\ exists f, ny = PyFloat f)
  /\ newRawXYOffset 544 2048 544 2048 576 2048
     = Return (PyInt 576, PyFloat 2048%float)
  /\ integerOffsetRule 544 2048 544 2048 576 2048
     = Return (PyInt 576, PyInt 2048)
  /\ newRawXYOffset 150 150 100 100 110 110
     = Return (PyInt 110, PyFloat 165%float)
  /\ integerOffsetRule 150 150 100 100 110 110
     = Return (PyInt 110, PyInt 110).
Proof.
  split; [|repeat split; vm_compute; reflexivity].
  intros x0 y0 ow oh xr yr nx ny. unfold newRawXYOffset, floordiv, truediv.
  destruct (ow =? 0); [discriminate|]. cbn.
  destruct (oh =? 0); [discriminate|]. cbn.
  intros [= <- <-]. split; [reflexivity|]. eauto.
Qed.

Lemma checkIraf_outcome i dataId ampExp (w : World) amp :
  amps w !! i = Some amp ->
  exists r evs,
    checkIraf i dataId ampExp w = (r, mkWorld (amps w) (events w ++ evs))
    /\ Forall is_log evs
    /\ (forall e, r = Raise e ->
          exists k v, k ∈ iraf_keys /\ ae_metadata ampExp !! k = Some v
                      /\ bboxFromIraf v = Raise e)
    /\ ((forall k v, k ∈ iraf_keys -> ae_metadata ampExp !! k = Some v ->
           raised (bboxFromIraf v) = false) -> r = Return tt).
Proof.
  intros Ha. rewrite (checkIraf_run _ _ _ _ _ Ha). cbv zeta.
  assert (Hw : w = mkWorld (amps w) (events w ++ []))
    by (destruct w; cbn; rewrite app_nil_r; reflexivity).
  assert (Hkeys : forall k, k ∈ ["DETSEC"; "DATASEC"; "BIASSEC"] -> k ∈ iraf_keys)
    by (intros k Hk; exact Hk).
  rewrite !irafBox_run.
  assert (Hfail : forall k v e, k ∈ iraf_keys -> ae_metadata ampExp !! k = Some v ->
            bboxFromIraf v = Raise e ->
            exists r evs,
              (Raise e : Exc unit, w) = (r, mkWorld (amps w) (events w ++ evs))
              /\ Forall is_log evs
              /\ (forall e', r = Raise e' ->
                    exists k v, k ∈ iraf_keys /\ ae_metadata ampExp !! k = Some v
                                /\ bboxFromIraf v = Raise e')
              /\ ((forall k v, k ∈ iraf_keys -> ae_metadata ampExp !! k = Some v ->
                     raised (bboxFromIraf v) = false) -> r = Return tt)).
  { intros k v e Hk Hv He. exists (Raise e), []. split; [congruence|].
    split; [constructor|]. split.
    - intros e' [= <-]. eauto.
    - intros Hall. specialize (Hall k v Hk Hv). rewrite He in Hall. discriminate. }
  assert (Hlogs : forall d1 d2 d3, Forall is_log (irafLogs i amp d1 d2 d3)).
  { intros d1 d2 d3. unfold irafLogs.
    destruct (differs d1 _), (differs d2 _), (differs d3 _);
      repeat constructor. }
  destruct (ae_metadata ampExp !! "DETSEC") as [v1|] eqn:E1;
    [destruct (bboxFromIraf v1) as [e1|b1] eqn:P1;
       [apply (Hfail "DETSEC" v1 e1); [set_solver|assumption..]|]|];
  (destruct (ae_metadata ampExp !! "DATASEC") as [v2|] eqn:E2;
    [destruct (bboxFromIraf v2) as [e2|b2] eqn:P2;
       [apply (Hfail "DATASEC" v2 e2); [set_solver|assumption..]|]|];
   (destruct (ae_metadata ampExp !! "BIASSEC") as [v3|] eqn:E3;
     [destruct (bboxFromIraf v3) as [e3|b3] eqn:P3;
        [apply (Hfail "BIASSEC" v3 e3); [set_solver|assumption..]|]|];
    (eexists (Return tt), _; split; [reflexivity|];
     split; [apply Hlogs|]; split; [discriminate | reflexivity]))).
Qed.

(** C7: the cross-check of DETSEC, DATASEC and BIASSEC leaves every
    amplifier as it was, the nominal box, the raw-data box and the overscan
    boxes included, and only appends log records; the comparisons never
    raise, so the check returns whenever the parser of the keywords does,
    and an exception, if any, is the parser's on one of the three headers. *)
Theorem iraf_check_is_harmless i dataId ampExp (w : World) amp :
  amps w !! i = Some amp ->
  exists r w',
    checkIraf i dataId ampExp w = (r, w')
    /\ amps w' = amps w
    /\ amps w' !! i = Some amp
    /\ (exists evs : list Event,
          events w' = (events w ++ evs)%list /\ Forall is_log evs)
    /\ (forall e, r = Raise e ->
          exists k v, k ∈ iraf_keys /\ ae_metadata ampExp !! k = Some v
                      /\ bboxFromIraf v = Raise e)
    /\ ((forall k v, k ∈ iraf_keys -> ae_metadata ampExp !! k = Some v ->
           raised (bboxFromIraf v) = false) -> r = Return tt).
Proof.
  intros Ha.
  destruct (checkIraf_outcome i dataId ampExp w amp Ha)
    as (r & evs & Hrun & Hlog & Hraise & Hret).
  exists r, (mkWorld (amps w) (events w ++ evs)).
  split; [exact Hrun|]. split; [reflexivity|]. split; [exact Ha|].
  split; [exists evs; split; [reflexivity | exact Hlog]|].
  split; [exact Hraise | exact Hret].
Qed.

(** C8: once the segments are assembled and the visit information is
    made, a finite boresight gives the exposure the WCS made from the
    detector's PIXELS to FIELD_ANGLE transform, the boresight and the
    rotation [90 degrees - rotangle], with nothing logged; a boresight that
    is not finite leaves the WCS as the assembler put it, logs one warning,
    and the exposure is returned all the same. *)
Theorem wcs_iff_finite_boresight dataId componentInfo (w w1 : World)
  exposure visitInfo :
  raw_amp componentInfo ≠ [] ->
  checkAmps 0 false dataId (raw_amp componentInfo) w = (Return tt, w1) ->
  assembleCcd (makeAmpDict (amps w1) (raw_amp componentInfo) ∅) (amps w1)
    = Return exposure ->
  makeRawVisitInfo (raw_hdu componentInfo) = Return visitInfo ->
  let md := raw_hdu componentInfo in
  let assembled := setVisitInfo (setMetadata exposure md) visitInfo in
  let boresight := getBoresightRaDec visitInfo in
  let rotation := angle_sub (degrees 90) (getBoresightRotAngle visitInfo) in
  let detector := exp_detector exposure in
  let trans := getTransform detector (makeCameraSys detector PIXELS)
                                     (makeCameraSys detector FIELD_ANGLE) in
  let w2 := mkWorld (amps w1)
              (events w1 ++ [AssembleCcd
                               (makeAmpDict (amps w1) (raw_amp componentInfo) ∅)]) in
  (isFinite boresight = true ->
     forall wcs, makeSkyWcs trans rotation false boresight = Return wcs ->
       assemble_raw dataId componentInfo w = (Return (setWcs assembled wcs), w2)
       /\ exp_wcs (setWcs assembled wcs) = Some wcs)
  /\ (isFinite boresight = false ->
        assemble_raw dataId componentInfo w
          = (Return assembled,
             mkWorld (amps w2) (events w2 ++ [Log Warn no_wcs_msg]))
        /\ exp_wcs assembled = exp_wcs exposure).
Proof.
  intros Hne Hloop Hasm Hvi. cbv zeta.
  unfold assemble_raw.
  destruct (raw_amp componentInfo) as [|a0 rest] eqn:El; [congruence|].
  cbn [length Nat.eqb]. rewrite bind_run, Hloop.
  rewrite bind_run, getAmps_run, bind_run.
  unfold callAssembleCcd. rewrite Hasm.
  rewrite bind_run, lift_run, Hvi.
  destruct (isFinite (getBoresightRaDec visitInfo)); split; intros Hfin;
    try discriminate Hfin.
  - intros wcs Hwcs. rewrite bind_run, lift_run. unfold getWcsFromDetector.
    cbn [exp_detector setVisitInfo setMetadata].
    rewrite Hwcs. split; reflexivity.
  - split; reflexivity.
Qed.

End AssemblerFacts.

Lemma empty_raw_amp_is_fatal_witness :
  assemble_raw ∅ (mkComponentInfo [] (exampleHeader true)) exampleWorld
  = (Raise (RuntimeError no_amps_msg), exampleWorld).
Proof.
  exact (proj1 (empty_raw_amp_is_fatal
                  ∅ (mkComponentInfo [] (exampleHeader true)) exampleWorld
                  eq_refl)).
Defined.

Lemma active_area_mismatch_is_fatal_witness :
  patchGeometry 0 false (exampleSegment "[1:512,1:2000]") brokenWorld
  = (Raise (RuntimeError active_area_msg), brokenWorld)
  /\ exists e w',
       assemble_raw ∅ (mkComponentInfo [exampleSegment "[1:512,1:2000]"] ∅)
         brokenWorld = (Raise e, w').
Proof.
  assert (Hb : rawBBox brokenAmp ≠ ae_bbox (exampleSegment "[1:512,1:2000]"))
    by discriminate.
  destruct (active_area_mismatch_is_fatal
              0 false ∅ (mkComponentInfo [exampleSegment "[1:512,1:2000]"] ∅)
              (exampleSegment "[1:512,1:2000]") brokenWorld brokenAmp
              eq_refl eq_refl Hb) as [H _].
  apply H. discriminate.
Defined.

(** The claim of C5 fails on the first amplifier of the example: its
    geometry has a 22x2000 serial overscan in a 544x2048 untrimmed box, the
    file has a 576x2048 segment, the active area agrees; after the patch
    the serial overscan is 54x2000, not 2048 high, and the parallel
    overscan is 512x48, not 576 wide. *)
Lemma overscan_span_counterexample :
  exists w' amp',
    amps exampleWorld !! 0%nat = Some (exampleAmp "C00" 0 (0, 0))
    /\ rawBBox (exampleAmp "C00" 0 (0, 0)) ≠ ae_bbox (exampleSegment "[1:512,1:2000]")
    /\ getDimensions (rawDataBBox (exampleAmp "C00" 0 (0, 0)))
       = getDimensions (bbox (exampleAmp "C00" 0 (0, 0)))
    /\ patchGeometry 0 false (exampleSegment "[1:512,1:2000]") exampleWorld
       = (Return true, w')
    /\ amps w' !! 0%nat = Some amp'
    /\ rawBBox amp' = ae_bbox (exampleSegment "[1:512,1:2000]")
    /\ getHeight (rawHorizontalOverscanBBox amp') = 2000
    /\ getHeight (rawBBox amp') = 2048
    /\ getWidth (rawVerticalOverscanBBox amp') = 512
    /\ getWidth (rawBBox amp') = 576
    /\ ~ spans_full amp'.
Proof.
  eexists _, _.
  split; [reflexivity|]. split; [discriminate|]. split; [reflexivity|].
  split; [vm_compute; reflexivity|].
  split; [reflexivity|].
  do 5 (split; [reflexivity|]).
  unfold spans_full. intros [H _]. discriminate H.
Qed.

Lemma overscan_boxes_after_patch_witness :
  exists r w' amp',
    patchGeometry 0 false (exampleSegment "[1:512,1:2000]") exampleWorld = (r, w')
    /\ amps w' !! 0%nat = Some amp'
    /\ rawBBox amp' = mkBox (0, 0) (576, 2048)
    /\ rawHorizontalOverscanBBox amp' = mkBox (522, 0) (54, 2000)
    /\ rawVerticalOverscanBBox amp' = mkBox (10, 2000) (512, 48).
Proof.
  assert (Hb : rawBBox (exampleAmp "C00" 0 (0, 0))
               ≠ ae_bbox (exampleSegment "[1:512,1:2000]")) by discriminate.
  exact (overscan_boxes_after_patch
           0 false (exampleSegment "[1:512,1:2000]") exampleWorld
           (exampleAmp "C00" 0 (0, 0))
           eq_refl Hb eq_refl eq_refl eq_refl eq_refl eq_refl).
Defined.

Lemma iraf_check_is_harmless_witness :
  exists r w',
    checkIraf 1 ∅ (exampleSegment "[1:512,1:2000]") exampleWorld = (r, w')
    /\ amps w' = amps exampleWorld
    /\ amps w' !! 1%nat = Some (exampleAmp "C11" 512 (544, 2048))
    /\ (exists evs : list Event,
          events w' = (events exampleWorld ++ evs)%list /\ Forall is_log evs)
    /\ (forall e, r = Raise e ->
          exists k v, k ∈ iraf_keys
                      /\ ae_metadata (exampleSegment "[1:512,1:2000]") !! k = Some v
                      /\ bboxFromIraf v = Raise e)
    /\ ((forall k v, k ∈ iraf_keys ->
           ae_metadata (exampleSegment "[1:512,1:2000]") !! k = Some v ->
           raised (bboxFromIraf v) = false) -> r = Return tt).
Proof.
  exact (iraf_check_is_harmless
           1 ∅ (exampleSegment "[1:512,1:2000]") exampleWorld
           (exampleAmp "C11" 512 (544, 2048)) eq_refl).
Defined.

(** C7 as it was stated fails on a keyword that is no IRAF box: the parser
    raises, and with it the cross-check and the whole read. *)
Lemma iraf_check_raises_counterexample :
  checkIraf 0 ∅ (exampleSegment "512,2000") exampleWorld
  = (Raise (RuntimeError "Unable to parse IRAF-style bbox"), exampleWorld)
  /\ fst (assemble_raw ∅
            (mkComponentInfo [exampleSegment "512,2000"] (exampleHeader true))
            exampleWorld)
     = Raise (RuntimeError "Unable to parse IRAF-style bbox").
Proof. split; vm_compute; reflexivity. Qed.

Lemma wcs_iff_finite_boresight_witness :
  (exists e w',
     assemble_raw ∅ (exampleComponents true) exampleWorld = (Return e, w')
     /\ exp_wcs e = Some (PIXELS, FIELD_ANGLE, 70, false, (10, -30)))
  /\ (exists e w',
        assemble_raw ∅ (exampleComponents false) exampleWorld = (Return e, w')
        /\ exp_wcs e = None
        /\ last (events w') = Some (Log Warn no_wcs_msg)).
Proof.
  assert (Hne : forall b, raw_amp (exampleComponents b) ≠ []) by discriminate.
  assert (Hloop : forall b,
            checkAmps 0 false ∅ (raw_amp (exampleComponents b)) exampleWorld
            = (Return tt, checkedWorld))
    by (intros b; vm_compute; reflexivity).
  assert (Hasm : forall b,
            assembleCcd (makeAmpDict (amps checkedWorld)
                           (raw_amp (exampleComponents b)) ∅)
              (amps checkedWorld) = Return checkedExposure)
    by reflexivity.
  split.
  - destruct (wcs_iff_finite_boresight
                ∅ (exampleComponents true) exampleWorld checkedWorld
                checkedExposure (@mkVisitInfo exampleTypes (Some (10, -30)) 20)
                (Hne true) (Hloop true) (Hasm true) eq_refl) as [H _].
    destruct (H eq_refl (PIXELS, FIELD_ANGLE, 70, false, (10, -30)) eq_refl)
      as [Hrun Hwcs].
    eexists _, _. split; [exact Hrun | exact Hwcs].
  - destruct (wcs_iff_finite_boresight
                ∅ (exampleComponents false) exampleWorld checkedWorld
                checkedExposure (@mkVisitInfo exampleTypes None 0)
                (Hne false) (Hloop false) (Hasm false) eq_refl) as [_ H].
    destruct (H eq_refl) as [Hrun Hwcs].
    eexists _, _. split; [exact Hrun|]. split; [exact Hwcs|].
    vm_compute. reflexivity.
Defined.

(** * Further properties of the coadd identifier encoder *)

Section EncoderMore.

Context `{R : Registry}.
Import LsstCamMapper.

Lemma packed_value t pX pY : 0 <= t -> packed t pX pY = (t * 32 + pX) * 32 + pY.
Proof.
  intros Ht. unfold packed. rewrite !Z.shiftl_mul_pow2 by lia. reflexivity.
Qed.

Lemma single_value t pX pY f :
  0 <= t -> 0 <= pX -> 0 <= pY ->
  Z.shiftl (packed t pX pY) 6 + f = ((t * 32 + pX) * 32 + pY) * 64 + f.
Proof.
  intros Ht HX HY. rewrite packed_value by lia.
  rewrite Z.shiftl_mul_pow2 by lia. reflexivity.
Qed.

Lemma land_low (x : Z) (n : Z) : 0 <= n -> Z.land x (2 ^ n - 1) = x mod 2 ^ n.
Proof.
  intros Hn. replace (2 ^ n - 1) with (Z.ones n)
    by (rewrite Z.ones_equiv; lia).
  apply Z.land_ones, Hn.
Qed.

(** X1: the fields are read back from a single-filter identifier by
    shifts and masks, the tract in the bits from 16 up, the patch in two
    5-bit fields, the filter in the low 6 bits; the merged identifier is the
    single-filter one shifted right by 6. *)
Theorem coadd_id_decodes dataId t pX pY f id :
  carries dataId t pX pY -> in_range t pX pY ->
  has_filter dataId f -> 0 <= f < 2 ^ 6 ->
  bypass_deepCoaddId dataId = Return id ->
  Z.shiftr id 16 = t
  /\ Z.land (Z.shiftr id 11) 31 = pX
  /\ Z.land (Z.shiftr id 6) 31 = pY
  /\ Z.land id 63 = f
  /\ bypass_deepMergedCoaddId dataId = Return (Z.shiftr id 6)
  /\ Z.shiftr (Z.shiftr id 6) 10 = t
  /\ Z.land (Z.shiftr (Z.shiftr id 6) 5) 31 = pX.
Proof.
  intros Hc Hr Hf Hfr Hid.
  unfold bypass_deepCoaddId in Hid.
  rewrite (encoder_single _ _ _ _ _ Hc Hr Hf) in Hid.
  injection Hid as <-.
  unfold bypass_deepMergedCoaddId.
  rewrite (encoder_in_range _ _ _ _ false Hc Hr).
  destruct Hr as (Ht & HX & HY).
  rewrite single_value by lia. rewrite packed_value by lia.
  change 31 with (2 ^ 5 - 1). change 63 with (2 ^ 6 - 1).
  rewrite !Z.shiftr_div_pow2, !land_low by lia.
  change (2 ^ 5) with 32 in *. change (2 ^ 6) with 64 in *.
  change (2 ^ 16) with 65536 in *. change (2 ^ 11) with 2048.
  change (2 ^ 10) with 1024.
  assert (Hmid : (((t * 32 + pX) * 32 + pY) * 64 + f) / 64
                 = (t * 32 + pX) * 32 + pY)
    by (symmetry; apply (Z.div_unique _ _ _ f); lia).
  rewrite Hmid.
  repeat split.
  - symmetry. apply (Z.div_unique _ _ _ ((pX * 32 + pY) * 64 + f)); lia.
  - assert (Hq : (((t * 32 + pX) * 32 + pY) * 64 + f) / 2048 = t * 32 + pX)
      by (symmetry; apply (Z.div_unique _ _ _ (pY * 64 + f)); lia).
    rewrite Hq. symmetry. apply (Z.mod_unique _ _ t); lia.
  - symmetry. apply (Z.mod_unique _ _ (t * 32 + pX)); lia.
  - symmetry. apply (Z.mod_unique _ _ ((t * 32 + pX) * 32 + pY)); lia.
  - symmetry. apply (Z.div_unique _ _ _ (pX * 32 + pY)); lia.
  - assert (Hq : ((t * 32 + pX) * 32 + pY) / 32 = t * 32 + pX)
      by (symmetry; apply (Z.div_unique _ _ _ pY); lia).
    rewrite Hq. symmetry. apply (Z.mod_unique _ _ t); lia.
Qed.

(** X2: two data identifiers in range with the same single-filter
    identifier have the same tract, patch and filter; with the same merged
    identifier, the same tract and patch. *)
Theorem coadd_id_injective dataId1 dataId2 t1 pX1 pY1 f1 t2 pX2 pY2 f2 :
  carries dataId1 t1 pX1 pY1 -> in_range t1 pX1 pY1 ->
  has_filter dataId1 f1 -> 0 <= f1 < 2 ^ 6 ->
  carries dataId2 t2 pX2 pY2 -> in_range t2 pX2 pY2 ->
  has_filter dataId2 f2 -> 0 <= f2 < 2 ^ 6 ->
  (bypass_deepCoaddId dataId1 = bypass_deepCoaddId dataId2 ->
     t1 = t2 /\ pX1 = pX2 /\ pY1 = pY2 /\ f1 = f2)
  /\ (bypass_deepMergedCoaddId dataId1 = bypass_deepMergedCoaddId dataId2 ->
        t1 = t2 /\ pX1 = pX2 /\ pY1 = pY2).
Proof.
  intros Hc1 Hr1 Hf1 Hb1 Hc2 Hr2 Hf2 Hb2.
  unfold bypass_deepCoaddId, bypass_deepMergedCoaddId.
  rewrite (encoder_single _ _ _ _ _ Hc1 Hr1 Hf1),
    (encoder_single _ _ _ _ _ Hc2 Hr2 Hf2),
    (encoder_in_range _ _ _ _ false Hc1 Hr1),
    (encoder_in_range _ _ _ _ false Hc2 Hr2).
  destruct Hr1 as (Ht1 & HX1 & HY1), Hr2 as (Ht2 & HX2 & HY2).
  rewrite !single_value, !packed_value by lia.
  change (2 ^ 5) with 32 in *. change (2 ^ 6) with 64 in *.
  split; intros [= Heq]; lia.
Qed.

(** X3: single-filter identifiers are not negative and are ordered as
    (tract, patch x, patch y, filter) is ordered lexicographically. *)
Theorem coadd_id_ordered dataId1 dataId2 t1 pX1 pY1 f1 t2 pX2 pY2 f2 id1 id2 :
  carries dataId1 t1 pX1 pY1 -> in_range t1 pX1 pY1 ->
  has_filter dataId1 f1 -> 0 <= f1 < 2 ^ 6 ->
  carries dataId2 t2 pX2 pY2 -> in_range t2 pX2 pY2 ->
  has_filter dataId2 f2 -> 0 <= f2 < 2 ^ 6 ->
  bypass_deepCoaddId dataId1 = Return id1 ->
  bypass_deepCoaddId dataId2 = Return id2 ->
  0 <= id1
  /\ (id1 < id2 <->
      t1 < t2 \/ (t1 = t2 /\ (pX1 < pX2 \/ (pX1 = pX2 /\
        (pY1 < pY2 \/ (pY1 = pY2 /\ f1 < f2)))))).
Proof.
  intros Hc1 Hr1 Hf1 Hb1 Hc2 Hr2 Hf2 Hb2.
  unfold bypass_deepCoaddId.
  rewrite (encoder_single _ _ _ _ _ Hc1 Hr1 Hf1),
    (encoder_single _ _ _ _ _ Hc2 Hr2 Hf2).
  destruct Hr1 as (Ht1 & HX1 & HY1), Hr2 as (Ht2 & HX2 & HY2).
  rewrite !single_value by lia.
  change (2 ^ 5) with 32 in *. change (2 ^ 6) with 64 in *.
  intros [= <-] [= <-]. split; [lia|]. split; intros H; lia.
Qed.

(** X4: a missing tract, patch or filter raises [KeyError] on that key,
    in this order; the filter is only asked for a single-filter
    identifier. *)
Theorem coadd_id_missing_keys (dataId : gmap string PyVal) singleFilter :
  (dataId !! "tract" = None ->
     _computeCoaddExposureId dataId singleFilter = Raise (KeyError "tract"))
  /\ (forall v t, dataId !! "tract" = Some v -> py_int v = Return t ->
        0 <= t < 2 ^ 16 -> dataId !! "patch" = None ->
        _computeCoaddExposureId dataId singleFilter = Raise (KeyError "patch"))
  /\ (forall t pX pY, carries dataId t pX pY -> in_range t pX pY ->
        dataId !! "filter" = None ->
        _computeCoaddExposureId dataId true = Raise (KeyError "filter")
        /\ _computeCoaddExposureId dataId false
           = Return (Z.shiftl (Z.shiftl t 5 + pX) 5 + pY)).
Proof.
  split; [|split].
  - intros Hn. unfold _computeCoaddExposureId, getitem. rewrite Hn. reflexivity.
  - intros v t Hv Hi Ht Hp. rewrite (encoder_tract _ _ _ _ Hv Hi).
    replace ((t <? 0) || (t >=? 2 ^ 16)) with false by lia.
    unfold getitem. rewrite Hp. reflexivity.
  - intros t pX pY Hc Hr Hf. split.
    + rewrite (encoder_in_range _ _ _ _ true Hc Hr).
      unfold getitem. rewrite Hf. reflexivity.
    + exact (encoder_in_range _ _ _ _ false Hc Hr).
Qed.

End EncoderMore.

Section EncoderRegistry.

Import LsstCamMapper.

(** X5: the merged identifier does not depend on the filter entry of the
    data identifier nor on the filter table. *)
Theorem merged_id_ignores_filter (R1 R2 : Registry) (dataId : gmap string PyVal)
  (v : PyVal) :
  @bypass_deepMergedCoaddId R1 (<["filter" := v]> dataId)
    = @bypass_deepMergedCoaddId R2 dataId
  /\ @bypass_deepMergedCoaddId R1 (delete "filter" dataId)
    = @bypass_deepMergedCoaddId R2 dataId.
Proof.
  unfold bypass_deepMergedCoaddId, _computeCoaddExposureId, getitem.
  rewrite !lookup_insert_ne, !lookup_delete_ne by discriminate.
  split; reflexivity.
Qed.

End EncoderRegistry.


(** * Decimal text: printing and [int] *)

Section Decimal.

Lemma chars_app (s1 s2 : string) :
  list_ascii_of_string (s1 +:+ s2)
  = (list_ascii_of_string s1 ++ list_ascii_of_string s2)%list.
Proof. induction s1 as [|c s1 IH]; simpl; [reflexivity|]. f_equal. exact IH. Qed.

Lemma digits_number_app l1 l2 acc :
  digits_number acc (l1 ++ l2) = digits_number (digits_number acc l1) l2.
Proof. revert acc. induction l1 as [|c l1 IH]; intros acc; cbn; [reflexivity|]. apply IH. Qed.

Lemma digits_value (l : list ascii) :
  forall acc, 0 <= acc -> Forall (fun c => ascii_digit c = true) l ->
    0 <= digits_number acc l.
Proof.
  induction l as [|c l IH]; intros acc Hacc Hall; cbn; [exact Hacc|].
  inversion Hall as [|? ? Hc Hl]; subst. apply IH; [|exact Hl].
  unfold ascii_digit in Hc. destruct (PyStr.digit c) as [d|] eqn:Hd; [|discriminate].
  cbn. unfold PyStr.digit in Hd.
  destruct ((48 <=? Z.of_nat (nat_of_ascii c)) && (Z.of_nat (nat_of_ascii c) <=? 57))
    eqn:Hb; [|discriminate].
  injection Hd as <-. lia.
Qed.

Lemma pretty_char_digit (r : N) :
  (r < 10)%N ->
  PyStr.digit (pretty_N_char r) = Some (Z.of_N r).
Proof.
  intros Hr.
  assert (r = 0 \/ r = 1 \/ r = 2 \/ r = 3 \/ r = 4 \/ r = 5 \/ r = 6
          \/ r = 7 \/ r = 8 \/ r = 9)%N as H by lia.
  repeat (destruct H as [->|H]; [reflexivity|]). subst. reflexivity.
Qed.

(** The digits [pretty_N_go] puts before [s] spell [x], and there are no
    more of them than [x] needs. *)
Lemma pretty_go_digits (x : N) :
  forall s, (0 < x)%N ->
    exists ds, list_ascii_of_string (pretty_N_go x s)
               = (ds ++ list_ascii_of_string s)%list
               /\ ds ≠ []
               /\ Forall (fun c => ascii_digit c = true) ds
               /\ (forall acc, digits_number acc ds
                               = acc * 10 ^ Z.of_nat (length ds) + Z.of_N x)
               /\ forall k : nat, Z.of_N x < 10 ^ Z.of_nat k -> (length ds <= k)%nat.
Proof.
  induction (N.lt_wf_0 x) as [x _ IH]. intros s Hx.
  rewrite pretty_N_go_step by exact Hx.
  assert (Hr : (x `mod` 10 < 10)%N) by (apply N.mod_lt; lia).
  pose proof (pretty_char_digit _ Hr) as Hd.
  assert (Hisd : ascii_digit (pretty_N_char (x `mod` 10)) = true)
    by (unfold ascii_digit; rewrite Hd; reflexivity).
  assert (Hx10 : Z.of_N x = 10 * Z.of_N (x `div` 10) + Z.of_N (x `mod` 10)).
  { rewrite (N.div_mod x 10) at 1 by lia. lia. }
  assert (Hk : forall k : nat, Z.of_N x < 10 ^ Z.of_nat k ->
            exists k', k = S k' /\ Z.of_N (x `div` 10) < 10 ^ Z.of_nat k').
  { intros [|k'] Hlt; [cbn in Hlt; lia|]. exists k'. split; [reflexivity|].
    rewrite Nat2Z.inj_succ, Z.pow_succ_r in Hlt by lia.
    generalize dependent (10 ^ Z.of_nat k'). intros P HP.
    generalize dependent (Z.of_N (x `div` 10)). intros q Hq.
    pose proof (N2Z.is_nonneg (x `mod` 10)). lia. }
  destruct (decide (x `div` 10 = 0)%N) as [Hq|Hq].
  - rewrite Hq, pretty_N_go_0. exists [pretty_N_char (x `mod` 10)].
    split; [reflexivity|]. split; [discriminate|].
    split; [repeat constructor; exact Hisd|]. split.
    + intros acc. cbn. rewrite Hd. cbn. rewrite Hx10, Hq. lia.
    + intros k Hlt. destruct (Hk k Hlt) as (k' & -> & _). cbn. lia.
  - destruct (IH (x `div` 10)%N) with (s := String (pretty_N_char (x `mod` 10)) s)
      as (ds & Hchars & Hne & Hall & Hval & Hlen).
    { apply N.div_lt; lia. }
    { lia. }
    exists (ds ++ [pretty_N_char (x `mod` 10)])%list.
    split; [rewrite Hchars, <- app_assoc; reflexivity|].
    split; [destruct ds; discriminate|].
    split; [apply Forall_app; split; [exact Hall | repeat constructor; exact Hisd]|].
    split.
    + intros acc. rewrite digits_number_app, Hval. cbn. rewrite Hd. cbn.
      rewrite length_app. cbn. rewrite Nat2Z.inj_add, Z.pow_add_r by lia.
      rewrite Hx10. change (10 ^ Z.of_nat 1) with 10. lia.
    + intros k Hlt. destruct (Hk k Hlt) as (k' & -> & Hlt').
      rewrite length_app. cbn. specialize (Hlen k' Hlt'). lia.
Qed.

Lemma pretty_pos_digits (p : positive) :
  exists ds, list_ascii_of_string (pretty (N.pos p)) = ds
             /\ ds ≠ []
             /\ Forall (fun c => ascii_digit c = true) ds
             /\ digits_number 0 ds = Z.pos p
             /\ forall k : nat, Z.pos p < 10 ^ Z.of_nat k -> (length ds <= k)%nat.
Proof.
  unfold pretty, pretty_N. rewrite decide_False by discriminate.
  destruct (pretty_go_digits (N.pos p) EmptyString ltac:(lia))
    as (ds & Hchars & Hne & Hall & Hval & Hlen).
  exists ds. cbn in Hchars. rewrite app_nil_r in Hchars.
  split; [exact Hchars|]. split; [exact Hne|]. split; [exact Hall|].
  split; [rewrite Hval; lia | exact Hlen].
Qed.

(** An ASCII digit is below U+007F, no blank, no sign, no underscore and
    no comma. *)
Lemma digit_plain c :
  ascii_digit c = true ->
  (Unicode.byte c <? 127)%N = true
  /\ PyStr.isspace c = false
  /\ Ascii.eqb c ","%char = false
  /\ PyStr.digit c = Some (Z.of_N (Unicode.byte c) - 48)
  /\ Unicode.decimal (Unicode.byte c) = Some (Unicode.byte c - 48)%N.
Proof.
  destruct c as [[] [] [] [] [] [] [] []]; vm_compute; intros H;
    first [discriminate H | repeat split; reflexivity].
Qed.

Lemma transform_digits (ds : list ascii) :
  Forall (fun c => ascii_digit c = true) ds ->
  forall tail, PyStr.transform (ds ++ tail) = (ds ++ PyStr.transform tail)%list.
Proof.
  induction 1 as [|c l Hc _ IH]; intros tail; [reflexivity|].
  destruct (digit_plain c Hc) as (Hlow & _).
  cbn [app PyStr.transform]. rewrite Hlow, IH. reflexivity.
Qed.

Lemma scan_digits (l : list ascii) :
  Forall (fun c => ascii_digit c = true) l ->
  forall count acc b,
    PyStr.scan count acc b l
    = Some ((count + N.of_nat (length l))%N, digits_number acc l,
            match l with [] => b | _ => false end, []).
Proof.
  induction 1 as [|c l Hc Hl IH]; intros count acc b; cbn [PyStr.scan].
  - rewrite N.add_0_r. reflexivity.
  - unfold ascii_digit in Hc. destruct (PyStr.digit c) as [d|] eqn:Hd; [|discriminate].
    rewrite IH. cbn [digits_number length]. rewrite Hd. cbn [default from_option].
    replace (count + 1 + N.of_nat (length l))%N with (count + N.of_nat (S (length l)))%N
      by lia.
    destruct l; reflexivity.
Qed.

(** What the parser makes of a text that begins with a digit, or with a
    minus sign and a digit. *)
Lemma parse_head (c : ascii) (l : list ascii) :
  ascii_digit c = true ->
  PyStr.parse (c :: l)
  = match PyStr.scan 0 0 false (c :: l) with
    | None => Raise PyStr.invalid_literal
    | Some (count, n, underscore, rest) =>
        if underscore then Raise PyStr.invalid_literal
        else if (PyStr.int_max_str_digits <? count)%N
             then Raise (PyStr.too_many_digits count)
        else if (count =? 0)%N then Raise PyStr.invalid_literal
        else match PyStr.lstrip rest with
             | [] => Return n
             | _ => Raise PyStr.invalid_literal
             end
    end
  /\ PyStr.parse ("-"%char :: c :: l)
     = match PyStr.scan 0 0 false (c :: l) with
       | None => Raise PyStr.invalid_literal
       | Some (count, n, underscore, rest) =>
           if underscore then Raise PyStr.invalid_literal
           else if (PyStr.int_max_str_digits <? count)%N
                then Raise (PyStr.too_many_digits count)
           else if (count =? 0)%N then Raise PyStr.invalid_literal
           else match PyStr.lstrip rest with
                | [] => Return (- n)
                | _ => Raise PyStr.invalid_literal
                end
       end.
Proof.
  destruct c as [[] [] [] [] [] [] [] []]; intros H;
    first [discriminate H | split; reflexivity].
Qed.

(** [int] on a text that it reads as a run of ASCII digits: the number
    they spell, unless they are more than the interpreter converts. *)
Lemma parse_digit_run (ds : list ascii) :
  ds ≠ [] -> Forall (fun c => ascii_digit c = true) ds ->
  let count := N.of_nat (length ds) in
  PyStr.parse ds
  = (if (PyStr.int_max_str_digits <? count)%N
     then Raise (PyStr.too_many_digits count)
     else Return (digits_number 0 ds))
  /\ PyStr.parse ("-"%char :: ds)
     = (if (PyStr.int_max_str_digits <? count)%N
        then Raise (PyStr.too_many_digits count)
        else Return (- digits_number 0 ds)).
Proof.
  intros Hne Hall count. destruct ds as [|c l]; [congruence|].
  destruct (parse_head c l (Forall_inv Hall)) as [-> ->].
  rewrite (scan_digits _ Hall). cbv iota beta. rewrite N.add_0_l. fold count.
  assert (Hpos : (count =? 0)%N = false)
    by (apply N.eqb_neq; unfold count; cbn [length]; lia).
  rewrite Hpos. split; destruct (PyStr.int_max_str_digits <? count)%N; reflexivity.
Qed.

Lemma int_of_pretty (z : Z) :
  - 10 ^ 4300 < z < 10 ^ 4300 -> PyStr.int_of_string (pretty z) = Return z.
Proof.
  intros Hz. unfold PyStr.int_of_string.
  destruct z as [|p|p]; [clear Hz; reflexivity| |];
    destruct (pretty_pos_digits p) as (ds & Hchars & Hne & Hall & Hval & Hlen);
    destruct (parse_digit_run ds Hne Hall) as [Hpos Hneg];
    assert (Hshort : (PyStr.int_max_str_digits <? N.of_nat (length ds))%N = false)
      by (apply N.ltb_ge; specialize (Hlen 4300%nat);
          change (Z.of_nat 4300) with 4300 in Hlen;
          unfold PyStr.int_max_str_digits;
          set (B := 10 ^ 4300) in *; clearbody B; lia);
    cbv zeta in Hpos, Hneg; rewrite Hshort in Hpos, Hneg; clear Hz Hlen.
  - change (pretty (Z.pos p)) with (pretty (N.pos p)). rewrite Hchars.
    rewrite <- (app_nil_r ds), (transform_digits ds Hall []). cbn [PyStr.transform].
    rewrite app_nil_r, Hpos, Hval. reflexivity.
  - change (pretty (Z.neg p)) with ("-" +:+ pretty (N.pos p)).
    rewrite chars_app, Hchars. change (list_ascii_of_string "-") with ["-"%char].
    cbn [app PyStr.transform].
    change (Unicode.byte "-" <? 127)%N with true. cbv iota.
    rewrite <- (app_nil_r ds), (transform_digits ds Hall []). cbn [PyStr.transform].
    rewrite app_nil_r, Hneg, Hval. reflexivity.
Qed.

(** The characters of a printed integer: none is a comma. *)
Lemma pretty_no_comma (z : Z) :
  Forall (fun c => Ascii.eqb c ","%char = false) (list_ascii_of_string (pretty z)).
Proof.
  destruct z as [|p|p]; [repeat constructor| |];
    destruct (pretty_pos_digits p) as (ds & Hchars & _ & Hall & _).
  - change (pretty (Z.pos p)) with (pretty (N.pos p)). rewrite Hchars.
    eapply Forall_impl; [exact Hall|]. intros c Hc. apply (digit_plain c Hc).
  - change (pretty (Z.neg p)) with ("-" +:+ pretty (N.pos p)).
    rewrite chars_app, Hchars. constructor; [reflexivity|].
    eapply Forall_impl; [exact Hall|]. intros c Hc. apply (digit_plain c Hc).
Qed.

Lemma split_aux_plain (l : list ascii) :
  Forall (fun c => Ascii.eqb c ","%char = false) l ->
  forall cur, PyStr.split_aux ","%char cur l
              = [string_of_list_ascii (rev cur ++ l)].
Proof.
  induction 1 as [|c l Hc _ IH]; intros cur; cbn.
  - rewrite app_nil_r. reflexivity.
  - rewrite Hc, IH. cbn. rewrite <- app_assoc. reflexivity.
Qed.

Lemma split_aux_comma (l1 l2 : list ascii) :
  Forall (fun c => Ascii.eqb c ","%char = false) l1 ->
  Forall (fun c => Ascii.eqb c ","%char = false) l2 ->
  forall cur, PyStr.split_aux ","%char cur (l1 ++ ","%char :: l2)
              = [string_of_list_ascii (rev cur ++ l1); string_of_list_ascii l2].
Proof.
  intros H1 H2. induction H1 as [|c l Hc _ IH]; intros cur; cbn.
  - rewrite app_nil_r. f_equal. exact (split_aux_plain l2 H2 []).
  - rewrite Hc, IH. cbn. rewrite <- app_assoc. reflexivity.
Qed.

Lemma parse_patch_pretty (x y : Z) :
  - 10 ^ 4300 < x < 10 ^ 4300 -> - 10 ^ 4300 < y < 10 ^ 4300 ->
  LsstCamMapper.parse_patch (VStr (pretty x +:+ "," +:+ pretty y)) = Return (x, y).
Proof.
  intros Hx Hy.
  assert (Hsplit : PyStr.split ","%char (pretty x +:+ "," +:+ pretty y)
                   = [pretty x; pretty y]).
  { unfold PyStr.split. rewrite !chars_app.
    change (list_ascii_of_string ",") with [","%char]. cbn [app].
    rewrite (split_aux_comma _ _ (pretty_no_comma x) (pretty_no_comma y) []).
    cbn [rev app]. rewrite !string_of_list_ascii_of_string. reflexivity. }
  unfold LsstCamMapper.parse_patch. rewrite Hsplit. cbn.
  rewrite (int_of_pretty x Hx), (int_of_pretty y Hy). reflexivity.
Qed.

Lemma in_range_short (t pX pY : Z) :
  in_range t pX pY ->
  - 10 ^ 4300 < t < 10 ^ 4300
  /\ - 10 ^ 4300 < pX < 10 ^ 4300
  /\ - 10 ^ 4300 < pY < 10 ^ 4300.
Proof.
  intros (Ht & HX & HY).
  assert (H5 : 10 ^ 5 <= 10 ^ 4300) by (apply Z.pow_le_mono_r; lia).
  change (10 ^ 5) with 100000 in H5.
  change (2 ^ LsstCamMapper._nbit_tract) with 65536 in Ht.
  change (2 ^ LsstCamMapper._nbit_patch) with 32 in HX, HY.
  set (B := 10 ^ 4300) in *. clearbody B. lia.
Qed.

(** X7: a data identifier in range whose tract is [t], as a number or as
    its decimal text, and whose patch is the text ["pX,pY"], is encoded
    from [t] and [(pX, pY)]: its merged identifier is
    [(t*32 + pX)*32 + pY]. *)
Theorem coadd_id_of_text `{R : Registry} (dataId : gmap string PyVal) (t pX pY : Z) :
  dataId !! "tract" = Some (VInt t) \/ dataId !! "tract" = Some (VStr (pretty t)) ->
  dataId !! "patch" = Some (VStr (pretty pX +:+ "," +:+ pretty pY)) ->
  in_range t pX pY ->
  carries dataId t pX pY
  /\ LsstCamMapper.bypass_deepMergedCoaddId dataId
     = Return ((t * 32 + pX) * 32 + pY).
Proof.
  intros Ht Hp Hr. destruct (in_range_short _ _ _ Hr) as (Hts & HXs & HYs).
  assert (Hc : carries dataId t pX pY).
  { split.
    - destruct Ht as [Ht|Ht]; eexists; (split; [exact Ht|]);
        [reflexivity | exact (int_of_pretty t Hts)].
    - eexists. split; [exact Hp|]. exact (parse_patch_pretty pX pY HXs HYs). }
  split; [exact Hc|]. clear Hts HXs HYs.
  unfold LsstCamMapper.bypass_deepMergedCoaddId.
  rewrite (encoder_in_range _ _ _ _ false Hc Hr).
  destruct Hr as (Hr & _). rewrite packed_value by lia. reflexivity.
Qed.

End Decimal.

(** * Further properties of the per-channel query *)

Section QueryMore.

Import LsstCamMapper.

Lemma requested_channels_ok (dataId : gmap string PyVal) d chans :
  requested_channels dataId = Return (d, chans) ->
  d = delete "channel" dataId /\ d !! "channel" = None
  /\ (length chans = 1 \/ length chans = 16)%nat.
Proof.
  unfold requested_channels.
  destruct (dataId !! "channel") as [[c|s]|] eqn:Hc; [| discriminate |].
  - destruct ((c >? nChannel) || (c <? 1)); [discriminate|].
    intros [= <- <-]. split; [reflexivity|].
    split; [apply lookup_delete_eq | left; reflexivity].
  - intros [= <- <-]. split; [symmetry; apply delete_id, Hc|].
    split; [exact Hc | right; reflexivity].
Qed.

(** X8: the registry counts for one question only, the format without its
    first ["channel"] and the data identifier without its channel: two
    registries that answer it alike give the same result. *)
Theorem query_raw_amp_asks_once (R1 R2 : Registry) (format : list string)
  (dataId : gmap string PyVal) :
  @query_raw R1 (stripped_format format) (delete "channel" dataId)
    = @query_raw R2 (stripped_format format) (delete "channel" dataId) ->
  @query_raw_amp R1 format dataId = @query_raw_amp R2 format dataId.
Proof.
  intros Hq. unfold query_raw_amp.
  destruct (requested_channels dataId) as [e|[d chans]] eqn:Hr; [reflexivity|].
  destruct (requested_channels_ok _ _ _ Hr) as (-> & _ & _).
  cbn. unfold stripped_format in Hq.
  destruct (index "channel" format) as [k|]; rewrite Hq; reflexivity.
Qed.

Context `{R : Registry}.

(** X9: a result comes from the rows of that one registry answer, whose
    query has no channel key: sixteen tuples a row when the format asks for
    the channel and the data identifier gives none, one a row otherwise,
    and the rows themselves when the format does not ask for it. *)
Theorem query_raw_amp_row_count (format : list string)
  (dataId : gmap string PyVal) result :
  query_raw_amp format dataId = Return result ->
  exists rows,
    query_raw (stripped_format format) (delete "channel" dataId) = Return rows
    /\ (delete "channel" dataId) !! "channel" = None
    /\ length result
       = (length rows *
          match index "channel" format, dataId !! "channel" with
          | Some _, None => 16
          | _, _ => 1
          end)%nat
    /\ (index "channel" format = None -> result = rows).
Proof.
  unfold query_raw_amp, stripped_format, requested_channels.
  destruct (dataId !! "channel") as [[c|s]|] eqn:Hc; [| discriminate |].
  - destruct ((c >? nChannel) || (c <? 1)); [discriminate|]. cbn.
    destruct (index "channel" format) as [k|];
      (destruct (query_raw _ _) as [e|rows]; cbn; [discriminate|]);
      intros [= <-]; exists rows;
      (split; [reflexivity|]); (split; [apply lookup_delete_eq|]).
    + split; [|discriminate].
      rewrite (expand_rows_length _ 1) by reflexivity. lia.
    + rewrite flat_map_singleton. split; [lia | reflexivity].
  - cbn. rewrite (delete_id _ _ Hc).
    destruct (index "channel" format) as [k|];
      (destruct (query_raw _ _) as [e|rows]; cbn; [discriminate|]);
      intros [= <-]; exists rows;
      (split; [reflexivity|]); (split; [exact Hc|]).
    + split; [|discriminate].
      rewrite (expand_rows_length _ 16) by reflexivity. lia.
    + rewrite flat_map_singleton. split; [lia | reflexivity].
Qed.

(** X10: with no channel or a channel in range, an exception of the
    registry is the exception of the query. *)
Theorem query_raw_amp_propagates (format : list string)
  (dataId : gmap string PyVal) e :
  (dataId !! "channel" = None
   \/ exists c, dataId !! "channel" = Some (VInt c) /\ 1 <= c <= 16) ->
  query_raw (stripped_format format) (delete "channel" dataId) = Raise e ->
  query_raw_amp format dataId = Raise e.
Proof.
  intros Hc Hq. unfold query_raw_amp, requested_channels.
  unfold stripped_format in Hq.
  destruct Hc as [Hc|(c & Hc & Hr)]; rewrite Hc.
  - cbn. rewrite (delete_id _ _ Hc) in Hq.
    destruct (index "channel" format); rewrite Hq; reflexivity.
  - unfold nChannel. replace ((c >? 16) || (c <? 1)) with false by lia. cbn.
    destruct (index "channel" format); rewrite Hq; reflexivity.
Qed.

End QueryMore.


(** * Registry values and exposure identifiers *)

Section MapperMore.

Context `{B : Butler}.

(** X11: a key of the data identifier is returned as it is; a missing key
    is looked up in the bias registry when [taiObs] is given and in the raw
    registry otherwise, the first value of the first row is the answer, and
    no row, an empty row or an [IndexError] of the registry all end in
    [RuntimeError]: [IndexError] never comes out. *)
Theorem registry_value_lookup (dataId : gmap string PyVal) (k : string) :
  (forall v, dataId !! k = Some v -> _getRegistryValue dataId k = Return v)
  /\ (dataId !! k = None ->
      let dataType :=
        if bool_decide (is_Some (dataId !! "taiObs")) then "bias" else "raw" in
      (forall v row rows,
         queryMetadata dataType [k] dataId = Return ((v :: row) :: rows) ->
         _getRegistryValue dataId k = Return v)
      /\ (forall rows,
            queryMetadata dataType [k] dataId = Return ([] :: rows)
            \/ queryMetadata dataType [k] dataId = Return []
            \/ queryMetadata dataType [k] dataId = Raise IndexError ->
            _getRegistryValue dataId k = Raise (RuntimeError lookup_msg)))
  /\ _getRegistryValue dataId k ≠ Raise IndexError.
Proof.
  unfold _getRegistryValue. split; [|split].
  - intros v Hv. rewrite Hv. reflexivity.
  - intros Hn. rewrite Hn. cbv zeta. split.
    + intros v row rows Hq. rewrite Hq. reflexivity.
    + intros rows [Hq|[Hq|Hq]]; rewrite Hq; reflexivity.
  - destruct (dataId !! k); [discriminate|].
    destruct (queryMetadata _ _ _) as [[]|[|[|v row] rows]]; discriminate.
Qed.

(** X12: without a visit the identifier raises [KeyError]; with
    [translatorClass] left at [None] it never returns; with a translator
    and a detector in the data identifier the names are not looked at, and
    without the detector the raft name is asked for first. *)
Theorem ccd_exposure_id_lookup (dataId : gmap string PyVal) :
  (dataId !! "visit" = None ->
     _computeCcdExposureId dataId = Raise (KeyError "visit"))
  /\ (translatorClass = None ->
        (exists e, _computeCcdExposureId dataId = Raise e)
        /\ (is_Some (dataId !! "visit") ->
              bypass_ccdExposureId dataId = Raise AttributeError))
  /\ (forall tc visit detector,
        translatorClass = Some tc ->
        dataId !! "visit" = Some visit ->
        dataId !! "detector" = Some detector ->
        _computeCcdExposureId dataId
          = compute_detector_exposure_id tc visit detector)
  /\ (forall tc visit,
        translatorClass = Some tc ->
        dataId !! "visit" = Some visit ->
        dataId !! "detector" = None ->
        (dataId !! "raftName" = None ->
           _computeCcdExposureId dataId = Raise (KeyError "raftName"))
        /\ (forall raft det,
              dataId !! "raftName" = Some raft ->
              dataId !! "detectorName" = Some det ->
              _computeCcdExposureId dataId
                = (detector ← compute_detector_num_from_name tc raft det;
                   compute_detector_exposure_id tc visit detector))).
Proof.
  unfold bypass_ccdExposureId, _computeCcdExposureId, translator, getitem.
  split; [|split; [|split]].
  - intros ->. reflexivity.
  - intros ->. split.
    + destruct (dataId !! "visit"); cbn; [|eauto].
      destruct (dataId !! "detector"); cbn; eauto.
    + intros [v ->]. cbn. destruct (dataId !! "detector"); reflexivity.
  - intros tc visit detector -> -> ->. reflexivity.
  - intros tc visit -> -> ->. split.
    + intros ->. reflexivity.
    + intros raft det -> ->. reflexivity.
Qed.

End MapperMore.

(** * The HDU in a file name *)

Section Hdu.

Lemma chars_nonempty (s : string) :
  s ≠ EmptyString -> list_ascii_of_string s ≠ [].
Proof. destruct s; [congruence | discriminate]. Qed.

Lemma string_app (a b : list ascii) :
  string_of_list_ascii (a ++ b)
  = string_of_list_ascii a +:+ string_of_list_ascii b.
Proof. induction a as [|c a IH]; simpl; [reflexivity|]. rewrite IH. reflexivity. Qed.

(** ** Decimal digits and the characters [int] accepts *)

Lemma space_not_decimal (cp : N) :
  Unicode.isspace cp = true -> Unicode.decimal cp = None.
Proof.
  unfold Unicode.isspace. intros H. apply existsb_exists in H as (w & Hin & Heq).
  apply N.eqb_eq in Heq. subst w. unfold Unicode.whitespace in Hin.
  repeat (destruct Hin as [<-|Hin]; [vm_compute; reflexivity|]). destruct Hin.
Qed.

Lemma decimal_below_ten (cp d : N) :
  Unicode.decimal cp = Some d -> (d < 10)%N.
Proof.
  unfold Unicode.decimal. intros H.
  destruct (List.find _ Unicode.decimal_blocks) as [zero|] eqn:Hf; [|discriminate].
  injection H as <-. apply find_some in Hf as [_ Hb].
  apply andb_true_iff in Hb as [H1 H2].
  apply N.leb_le in H1. apply N.ltb_lt in H2. lia.
Qed.

Lemma to_ascii_decimal (cp d : N) :
  Unicode.decimal cp = Some d ->
  exists a, PyStr.to_ascii cp = Some a /\ ascii_digit a = true.
Proof.
  intros Hd. unfold PyStr.to_ascii.
  destruct (Unicode.isspace cp) eqn:Hs.
  { rewrite (space_not_decimal _ Hs) in Hd. discriminate. }
  rewrite Hd. cbn. eexists. split; [reflexivity|].
  pose proof (decimal_below_ten _ _ Hd) as Hlt.
  assert (d = 0 \/ d = 1 \/ d = 2 \/ d = 3 \/ d = 4 \/ d = 5 \/ d = 6
          \/ d = 7 \/ d = 8 \/ d = 9)%N as H by lia.
  repeat (destruct H as [->|H]; [reflexivity|]). subst. reflexivity.
Qed.

(** A character of one byte is a decimal digit exactly when it is an
    ASCII digit. *)
Lemma decimal_one_byte (c : ascii) :
  (Unicode.byte c <? 128)%N = true ->
  match Unicode.decimal (Unicode.byte c) with
  | Some _ => ascii_digit c = true /\ (Unicode.byte c <? 127)%N = true
  | None => ascii_digit c = false
  end.
Proof.
  destruct c as [[] [] [] [] [] [] [] []]; vm_compute; intros H;
    first [discriminate H | split; reflexivity | reflexivity].
Qed.

Lemma digit_one_byte (c : ascii) :
  ascii_digit c = true ->
  (Unicode.byte c <? 128)%N = true
  /\ exists d, Unicode.decimal (Unicode.byte c) = Some d.
Proof.
  destruct c as [[] [] [] [] [] [] [] []]; vm_compute; intros H;
    first [discriminate H | split; [reflexivity | eexists; reflexivity]].
Qed.

(** ** The same character read from its first byte and from its last *)

Lemma code2_lead (c1 c2 : ascii) cp :
  Unicode.code2 c1 c2 = Some cp -> (194 <= Unicode.byte c1 < 224)%N.
Proof.
  unfold Unicode.code2. intros H.
  destruct ((194 <=? Unicode.byte c1)%N) eqn:H1; [|discriminate].
  destruct ((Unicode.byte c1 <? 224)%N) eqn:H2; [|discriminate].
  apply N.leb_le in H1. apply N.ltb_lt in H2. lia.
Qed.

Lemma code3_lead (c1 c2 c3 : ascii) cp :
  Unicode.code3 c1 c2 c3 = Some cp -> (224 <= Unicode.byte c1 < 240)%N.
Proof.
  unfold Unicode.code3. intros H.
  destruct ((224 <=? Unicode.byte c1)%N) eqn:H1; [|discriminate].
  destruct ((Unicode.byte c1 <? 240)%N) eqn:H2; [|discriminate].
  apply N.leb_le in H1. apply N.ltb_lt in H2. lia.
Qed.

Lemma code4_lead (c1 c2 c3 c4 : ascii) cp :
  Unicode.code4 c1 c2 c3 c4 = Some cp -> (240 <= Unicode.byte c1 < 245)%N.
Proof.
  unfold Unicode.code4. intros H.
  destruct ((240 <=? Unicode.byte c1)%N) eqn:H1; [|discriminate].
  destruct ((Unicode.byte c1 <? 245)%N) eqn:H2; [|discriminate].
  apply N.leb_le in H1. apply N.ltb_lt in H2. lia.
Qed.

Lemma lead_not_one_byte (c : ascii) :
  (194 <= Unicode.byte c)%N ->
  (Unicode.byte c <? 127)%N = false /\ (Unicode.byte c <? 128)%N = false.
Proof. intros H. split; apply N.ltb_ge; lia. Qed.

Lemma code2_not_lead (c1 c2 : ascii) :
  (224 <= Unicode.byte c1)%N -> Unicode.code2 c1 c2 = None.
Proof.
  intros H. unfold Unicode.code2.
  assert (Hf : (Unicode.byte c1 <? 224)%N = false) by (apply N.ltb_ge; lia).
  rewrite Hf, andb_false_r. reflexivity.
Qed.

Lemma code3_not_lead (c1 c2 c3 : ascii) :
  (240 <= Unicode.byte c1)%N -> Unicode.code3 c1 c2 c3 = None.
Proof.
  intros H. unfold Unicode.code3.
  assert (Hf : (Unicode.byte c1 <? 240)%N = false) by (apply N.ltb_ge; lia).
  rewrite Hf, andb_false_r. reflexivity.
Qed.

Lemma transform_two (c1 c2 : ascii) (tail : list ascii) cp :
  Unicode.code2 c1 c2 = Some cp ->
  PyStr.transform (c1 :: c2 :: tail) = put cp tail.
Proof.
  intros H. pose proof (code2_lead _ _ _ H) as Hl.
  destruct (lead_not_one_byte c1 ltac:(lia)) as [H127 H128].
  cbn [PyStr.transform]. rewrite H127, H128, H. reflexivity.
Qed.

Lemma transform_three (c1 c2 c3 : ascii) (tail : list ascii) cp :
  Unicode.code3 c1 c2 c3 = Some cp ->
  PyStr.transform (c1 :: c2 :: c3 :: tail) = put cp tail.
Proof.
  intros H. pose proof (code3_lead _ _ _ _ H) as Hl.
  destruct (lead_not_one_byte c1 ltac:(lia)) as [H127 H128].
  cbn [PyStr.transform].
  rewrite H127, H128, (code2_not_lead c1 c2 ltac:(lia)), H. reflexivity.
Qed.

Lemma transform_four (c1 c2 c3 c4 : ascii) (tail : list ascii) cp :
  Unicode.code4 c1 c2 c3 c4 = Some cp ->
  PyStr.transform (c1 :: c2 :: c3 :: c4 :: tail) = put cp tail.
Proof.
  intros H. pose proof (code4_lead _ _ _ _ _ H) as Hl.
  destruct (lead_not_one_byte c1 ltac:(lia)) as [H127 H128].
  cbn [PyStr.transform].
  rewrite H127, H128, (code2_not_lead c1 c2 ltac:(lia)),
    (code3_not_lead c1 c2 c3 ltac:(lia)), H. reflexivity.
Qed.

(** ** The run of digits the search finds *)

Lemma span_digits_run (ds rest : list ascii) :
  Forall (fun c => ascii_digit c = true) ds ->
  PyRe.span_digits (ds ++ "["%char :: rest) = (ds, "["%char :: rest).
Proof.
  induction 1 as [|c ds Hc _ IH]; [reflexivity|].
  destruct (digit_one_byte c Hc) as [Hlow [d Hd]].
  cbn [app PyRe.span_digits]. rewrite Hlow, Hd, IH. reflexivity.
Qed.

(** The bytes of the run, from the last to the first, are digits to
    [int] as well: read from the first byte they give as many ASCII
    digits as the run has characters. *)
Lemma span_digits_sound (n : nat) :
  forall r dr rest, (length r <= n)%nat ->
    PyRe.span_digits r = (dr, rest) ->
    r = (dr ++ rest)%list
    /\ exists ads,
         Forall (fun c => ascii_digit c = true) ads
         /\ (dr ≠ [] -> ads ≠ [])
         /\ forall tail, PyStr.transform (rev dr ++ tail)
                         = (ads ++ PyStr.transform tail)%list.
Proof.
  induction n as [|n IH]; intros r dr rest Hlen Hs.
  { destruct r; [|cbn in Hlen; lia]. injection Hs as <- <-.
    split; [reflexivity|]. exists []. repeat split; [constructor | congruence]. }
  assert (Hstop : (dr, rest) = ([], r) ->
            r = (dr ++ rest)%list
            /\ exists ads,
                 Forall (fun c => ascii_digit c = true) ads
                 /\ (dr ≠ [] -> ads ≠ [])
                 /\ forall tail, PyStr.transform (rev dr ++ tail)
                                 = (ads ++ PyStr.transform tail)%list).
  { intros [= -> ->]. split; [reflexivity|]. exists [].
    repeat split; [constructor | congruence]. }
  assert (Hstep : forall cp chars before a,
            r = (chars ++ before)%list -> chars ≠ [] ->
            PyStr.to_ascii cp = Some a -> ascii_digit a = true ->
            (forall tail, PyStr.transform (rev chars ++ tail) = put cp tail) ->
            (let '(ds, rest0) := PyRe.span_digits before in
             ((chars ++ ds)%list, rest0)) = (dr, rest) ->
            r = (dr ++ rest)%list
            /\ exists ads,
                 Forall (fun c => ascii_digit c = true) ads
                 /\ (dr ≠ [] -> ads ≠ [])
                 /\ forall tail, PyStr.transform (rev dr ++ tail)
                                 = (ads ++ PyStr.transform tail)%list).
  { intros cp chars before a Hr Hne Ha Hdig Hfw Hrun.
    destruct (PyRe.span_digits before) as [ds rest0] eqn:Hb.
    injection Hrun as <- <-.
    destruct (IH before ds rest0) as [Hsplit (ads & Hall & _ & Htr)]; [|exact Hb|].
    { subst r. rewrite length_app in Hlen. destruct chars; [congruence|].
      cbn in Hlen. lia. }
    split; [rewrite Hr, Hsplit, app_assoc; reflexivity|].
    exists (ads ++ [a])%list.
    split; [apply Forall_app; split; [exact Hall | repeat constructor; exact Hdig]|].
    split; [intros _; destruct ads; discriminate|].
    intros tail. rewrite rev_app_distr, <- app_assoc, Htr, Hfw.
    unfold put. rewrite Ha, <- app_assoc. reflexivity. }
  destruct r as [|c1 r1]; [injection Hs as <- <-; apply Hstop; reflexivity|].
  cbn [PyRe.span_digits] in Hs.
  destruct ((Unicode.byte c1 <? 128)%N) eqn:H1.
  { pose proof (decimal_one_byte c1 H1) as Hone.
    destruct (Unicode.decimal (Unicode.byte c1)) as [d|] eqn:Hd;
      [|apply Hstop; symmetry; exact Hs].
    destruct Hone as [Hdig Hlow].
    apply (Hstep (Unicode.byte c1) [c1] r1 c1); try reflexivity;
      [discriminate| |exact Hdig| |exact Hs].
    - destruct (to_ascii_decimal _ _ Hd) as (a & Ha & _).
      destruct c1 as [[] [] [] [] [] [] [] []]; try discriminate Hdig; reflexivity.
    - intros tail. cbn [rev app PyStr.transform]. rewrite Hlow.
      unfold put.
      destruct c1 as [[] [] [] [] [] [] [] []]; try discriminate Hdig; reflexivity. }
  destruct r1 as [|c2 r2]; [apply Hstop; symmetry; exact Hs|].
  destruct (Unicode.code2 c2 c1) as [cp|] eqn:H2.
  { destruct (Unicode.decimal cp) as [d|] eqn:Hd; [|apply Hstop; symmetry; exact Hs].
    destruct (to_ascii_decimal _ _ Hd) as (a & Ha & Hdig).
    apply (Hstep cp [c1; c2] r2 a); try reflexivity;
      [discriminate|exact Ha|exact Hdig| |exact Hs].
    intros tail. exact (transform_two c2 c1 tail cp H2). }
  destruct r2 as [|c3 r3]; [apply Hstop; symmetry; exact Hs|].
  destruct (Unicode.code3 c3 c2 c1) as [cp|] eqn:H3.
  { destruct (Unicode.decimal cp) as [d|] eqn:Hd; [|apply Hstop; symmetry; exact Hs].
    destruct (to_ascii_decimal _ _ Hd) as (a & Ha & Hdig).
    apply (Hstep cp [c1; c2; c3] r3 a); try reflexivity;
      [discriminate|exact Ha|exact Hdig| |exact Hs].
    intros tail. exact (transform_three c3 c2 c1 tail cp H3). }
  destruct r3 as [|c4 r4]; [apply Hstop; symmetry; exact Hs|].
  destruct (Unicode.code4 c4 c3 c2 c1) as [cp|] eqn:H4;
    [|apply Hstop; symmetry; exact Hs].
  destruct (Unicode.decimal cp) as [d|] eqn:Hd; [|apply Hstop; symmetry; exact Hs].
  destruct (to_ascii_decimal _ _ Hd) as (a & Ha & Hdig).
  apply (Hstep cp [c1; c2; c3; c4] r4 a); try reflexivity;
    [discriminate|exact Ha|exact Hdig| |exact Hs].
  intros tail. exact (transform_four c4 c3 c2 c1 tail cp H4).
Qed.

Lemma int_of_ascii_digits (ds : string) :
  all_digits ds ->
  PyStr.int_of_string ds = int_of_digits (list_ascii_of_string ds)
  /\ 0 <= digits_number 0 (list_ascii_of_string ds).
Proof.
  intros [Hne Hall]. split; [|apply digits_value; [lia | exact Hall]].
  unfold PyStr.int_of_string.
  rewrite <- (app_nil_r (list_ascii_of_string ds)) at 1.
  rewrite (transform_digits _ Hall []). cbn [PyStr.transform]. rewrite app_nil_r.
  exact (proj1 (parse_digit_run _ (chars_nonempty _ Hne) Hall)).
Qed.

Lemma search_hdu_found (base ds : string) :
  all_digits ds ->
  PyRe.search_hdu (base +:+ "[" +:+ ds +:+ "]") = Some ds
  /\ PyRe.search_hdu (base +:+ "[" +:+ ds +:+ "]" +:+ newline) = Some ds.
Proof.
  intros [Hne Hall].
  assert (Hrev : Forall (fun c => ascii_digit c = true)
                   (rev (list_ascii_of_string ds)))
    by (apply Forall_rev; exact Hall).
  assert (Hrne : rev (list_ascii_of_string ds) ≠ []).
  { intros E. apply (f_equal (@length _)) in E. rewrite length_rev in E.
    apply (chars_nonempty _ Hne). destruct (list_ascii_of_string ds);
      [reflexivity | discriminate]. }
  split; unfold PyRe.search_hdu, newline;
    rewrite !chars_app; cbn [list_ascii_of_string];
    rewrite !rev_app_distr; cbn [rev app];
    rewrite <- !app_assoc; cbn [app];
    rewrite (span_digits_run _ _ Hrev);
    (destruct (rev (list_ascii_of_string ds)) as [|d dr] eqn:Er; [congruence|]);
    rewrite <- Er, rev_involutive, string_of_list_ascii_of_string; reflexivity.
Qed.

Lemma final_newline (r : list ascii) :
  (exists r1, r = "010"%char :: r1
              /\ match r with "010"%char :: r' => r' | _ => r end = r1)
  \/ match r with "010"%char :: r' => r' | _ => r end = r.
Proof.
  destruct r as [|c r1]; [right; reflexivity|].
  destruct c as [[] [] [] [] [] [] [] []];
    first [right; reflexivity | left; exists r1; split; reflexivity].
Qed.

Lemma search_hdu_tail (r : list ascii) (ds : string) :
  match r with
  | "]"%char :: r' =>
      match PyRe.span_digits r' with
      | ((_ :: _) as ds', "["%char :: _) => Some (string_of_list_ascii (rev ds'))
      | _ => None
      end
  | _ => None
  end = Some ds ->
  (exists rest, r = ("]"%char :: rev (list_ascii_of_string ds) ++ "["%char :: rest)%list)
  /\ exists ads, reads_as_digits ds ads.
Proof.
  destruct r as [|c r']; [discriminate|].
  destruct (ascii_dec c "]"%char) as [->|Hc].
  2:{ destruct c as [[] [] [] [] [] [] [] []]; try discriminate; congruence. }
  destruct (PyRe.span_digits r') as [dr rest0] eqn:Hs.
  destruct (span_digits_sound _ _ _ _ (le_n _) Hs) as [-> (ads & Hall & Hne & Htr)].
  destruct dr as [|d dr]; [discriminate|].
  destruct rest0 as [|c0 rest]; [discriminate|].
  destruct (ascii_dec c0 "["%char) as [->|Hc0].
  2:{ destruct c0 as [[] [] [] [] [] [] [] []]; try discriminate; congruence. }
  intros [= <-]. unfold reads_as_digits.
  rewrite !list_ascii_of_string_of_list_ascii.
  change (rev dr ++ [d])%list with (rev (d :: dr)). split.
  - exists rest. rewrite (rev_involutive (d :: dr)). reflexivity.
  - exists ads. split; [|split; [apply Hne; discriminate | exact Hall]].
    rewrite <- (app_nil_r (rev (d :: dr))), Htr. cbn [PyStr.transform].
    apply app_nil_r.
Qed.

Lemma search_hdu_sound (s ds : string) :
  PyRe.search_hdu s = Some ds ->
  (exists base, s = base +:+ "[" +:+ ds +:+ "]"
                \/ s = base +:+ "[" +:+ ds +:+ "]" +:+ newline)
  /\ exists ads, reads_as_digits ds ads
                 /\ PyStr.int_of_string ds = int_of_digits ads
                 /\ 0 <= digits_number 0 ads.
Proof.
  unfold PyRe.search_hdu. intros H.
  assert (Hs : s = string_of_list_ascii (rev (rev (list_ascii_of_string s))))
    by (rewrite rev_involutive, string_of_list_ascii_of_string; reflexivity).
  assert (Hint : (exists ads, reads_as_digits ds ads) ->
            exists ads, reads_as_digits ds ads
                        /\ PyStr.int_of_string ds = int_of_digits ads
                        /\ 0 <= digits_number 0 ads).
  { intros (ads & Hr). exists ads. split; [exact Hr|].
    destruct Hr as (Htr & Hne & Hall). unfold PyStr.int_of_string. rewrite Htr.
    split; [exact (proj1 (parse_digit_run _ Hne Hall))|].
    apply digits_value; [lia | exact Hall]. }
  destruct (final_newline (rev (list_ascii_of_string s))) as [(r1 & Hr & Hm)|Hm];
    rewrite Hm in H; apply search_hdu_tail in H as [(rest & Hshape) Hd];
    (split; [|exact (Hint Hd)]); exists (string_of_list_ascii (rev rest)).
  - right. rewrite Hs, Hr, Hshape. cbn [rev].
    rewrite !rev_app_distr. cbn [rev app]. rewrite rev_involutive.
    rewrite <- !app_assoc. cbn [app].
    rewrite !string_app. cbn [string_of_list_ascii].
    rewrite string_app, string_of_list_ascii_of_string. reflexivity.
  - left. rewrite Hs, Hshape. cbn [rev].
    rewrite !rev_app_distr. cbn [rev app]. rewrite rev_involutive.
    rewrite <- !app_assoc. cbn [app].
    rewrite !string_app. cbn [string_of_list_ascii].
    rewrite string_app, string_of_list_ascii_of_string. reflexivity.
Qed.

Lemma all_digits_pretty (n : Z) :
  0 <= n < 10 ^ 4300 ->
  all_digits (pretty n) /\ PyStr.int_of_string (pretty n) = Return n.
Proof.
  intros Hn. split.
  2:{ apply int_of_pretty.
      assert (0 < 10 ^ 4300)
        by (apply Z.pow_pos_nonneg; [reflexivity | discriminate]).
      set (B := 10 ^ 4300) in *. clearbody B. lia. }
  destruct Hn as [Hn _].
  destruct n as [|p|p]; [split; [discriminate | repeat constructor]| |lia].
  clear Hn.
  destruct (pretty_pos_digits p) as (ds & Hchars & Hne & Hall & _).
  change (pretty (Z.pos p)) with (pretty (N.pos p)). split.
  - intros E. rewrite E in Hchars. cbn in Hchars. congruence.
  - rewrite Hchars. exact Hall.
Qed.

Lemma length_chars (s : string) :
  length (list_ascii_of_string s) = String.length s.
Proof. induction s as [|c s IH]; cbn; [reflexivity | rewrite IH; reflexivity]. Qed.

(** X13: a text that ends in [[digits]], with ASCII digits, or in that
    and one newline, is found by the search, with the digits as its group;
    [int] reads up to 4300 digits back as the number they spell and raises
    [ValueError] on more. *)
Theorem hdu_suffix_found (base ds : string) :
  all_digits ds ->
  PyRe.search_hdu (base +:+ "[" +:+ ds +:+ "]") = Some ds
  /\ PyRe.search_hdu (base +:+ "[" +:+ ds +:+ "]" +:+ newline) = Some ds
  /\ ((String.length ds <= 4300)%nat ->
        PyStr.int_of_string ds = Return (digits_number 0 (list_ascii_of_string ds))
        /\ 0 <= digits_number 0 (list_ascii_of_string ds))
  /\ ((4300 < String.length ds)%nat ->
        PyStr.int_of_string ds
        = Raise (PyStr.too_many_digits (N.of_nat (String.length ds)))).
Proof.
  intros Hd. destruct (search_hdu_found base ds Hd) as [H1 H2].
  destruct (int_of_ascii_digits ds Hd) as [Hint Hpos].
  unfold int_of_digits in Hint. rewrite length_chars in Hint.
  split; [exact H1|]. split; [exact H2|]. split; intros Hlen.
  - rewrite Hint.
    assert (Hb : (PyStr.int_max_str_digits <? N.of_nat (String.length ds))%N = false)
      by (apply N.ltb_ge; unfold PyStr.int_max_str_digits; lia).
    rewrite Hb. split; [reflexivity | exact Hpos].
  - rewrite Hint.
    assert (Hb : (PyStr.int_max_str_digits <? N.of_nat (String.length ds))%N = true)
      by (apply N.ltb_lt; unfold PyStr.int_max_str_digits; lia).
    rewrite Hb. reflexivity.
Qed.

(** X14: whatever the search finds stands in brackets at the end of the
    text, before at most one newline, and is a run of one or more decimal
    digits, of any script: [int] reads them as ASCII digits and returns
    the number they spell, which is not negative, or raises [ValueError]
    when they are more than 4300. *)
Theorem hdu_suffix_sound (s ds : string) :
  PyRe.search_hdu s = Some ds ->
  (exists base, s = base +:+ "[" +:+ ds +:+ "]"
                \/ s = base +:+ "[" +:+ ds +:+ "]" +:+ newline)
  /\ exists ads, reads_as_digits ds ads
                 /\ PyStr.int_of_string ds = int_of_digits ads
                 /\ 0 <= digits_number 0 ads.
Proof. exact (search_hdu_sound s ds). Qed.

End Hdu.

Section Visit.

Context `{B : Butler}.

(** X15: a file name that ends in [[n]], for [n] of at most 4300 digits,
    has HDU [n] read; a longer run of digits in the brackets makes the
    call raise the [ValueError] of [int]; a name the search finds nothing
    in has the default HDU read; without a file name the call raises
    [IndexError], and with [MakeRawVisitInfoClass] left at [None] it never
    returns. *)
Theorem raw_visitInfo_reads_hdu (others : list string) :
  (forall base n, 0 <= n < 10 ^ 4300 ->
     bypass_raw_visitInfo ((base +:+ "[" +:+ pretty n +:+ "]") :: others)
     = (md ← readMetadata (base +:+ "[" +:+ pretty n +:+ "]") (Some n);
        match MakeRawVisitInfoClass with
        | Some make => make md
        | None => Raise TypeError
        end))
  /\ (forall base ds, all_digits ds -> (4300 < String.length ds)%nat ->
        bypass_raw_visitInfo ((base +:+ "[" +:+ ds +:+ "]") :: others)
        = Raise (PyStr.too_many_digits (N.of_nat (String.length ds))))
  /\ (forall fileName, PyRe.search_hdu fileName = None ->
        bypass_raw_visitInfo (fileName :: others)
        = (md ← readMetadata fileName None;
           match MakeRawVisitInfoClass with
           | Some make => make md
           | None => Raise TypeError
           end))
  /\ bypass_raw_visitInfo [] = Raise IndexError
  /\ (MakeRawVisitInfoClass = None ->
        forall location, raised (bypass_raw_visitInfo location) = true).
Proof.
  split; [|split; [|split; [|split]]].
  - intros base n Hn. destruct (all_digits_pretty n Hn) as [Hd Hi].
    destruct (search_hdu_found base (pretty n) Hd) as (Hs & _).
    unfold bypass_raw_visitInfo. cbn. rewrite Hs. cbn. rewrite Hi. reflexivity.
  - intros base ds Hd Hlen. destruct (search_hdu_found base ds Hd) as (Hs & _).
    destruct (int_of_ascii_digits ds Hd) as [Hint _].
    unfold int_of_digits in Hint. rewrite length_chars in Hint.
    assert (Hb : (PyStr.int_max_str_digits <? N.of_nat (String.length ds))%N = true)
      by (apply N.ltb_lt; unfold PyStr.int_max_str_digits; lia).
    rewrite Hb in Hint.
    unfold bypass_raw_visitInfo. cbn. rewrite Hs. cbn. rewrite Hint. reflexivity.
  - intros fileName Hs. unfold bypass_raw_visitInfo. cbn. rewrite Hs. reflexivity.
  - reflexivity.
  - intros Hnone location. unfold bypass_raw_visitInfo. rewrite Hnone.
    destruct location as [|fileName rest]; [reflexivity|]. cbn.
    destruct (PyRe.search_hdu fileName) as [ds|].
    + destruct (PyStr.int_of_string ds) as [e|hdu]; cbn; [reflexivity|].
      destruct (readMetadata fileName (Some hdu)); reflexivity.
    + destruct (readMetadata fileName None); reflexivity.
Qed.

End Visit.

(** * The calibration root *)

Section Calib.

Variable exists_ : string -> bool.

Lemma firstCalibRoot_first (search : list string) :
  match firstCalibRoot exists_ search with
  | Some c =>
      exists before after,
        search = (before ++ c :: after)%list
        /\ has_registry exists_ c = true
        /\ Forall (fun x => has_registry exists_ x = false) before
  | None => Forall (fun x => has_registry exists_ x = false) search
  end.
Proof.
  induction search as [|x search IH]; cbn; [constructor|].
  fold (has_registry exists_ x).
  destruct (has_registry exists_ x) eqn:Hx.
  - exists [], search. split; [reflexivity|]. split; [exact Hx | constructor].
  - destruct (firstCalibRoot exists_ search) as [c|].
    + destruct IH as (before & after & -> & Hc & Hb).
      exists (x :: before), after. split; [reflexivity|].
      split; [exact Hc | constructor; assumption].
    + constructor; assumption.
Qed.

Lemma join_nonempty (a b : string) : b ≠ EmptyString -> PosixPath.join a b ≠ EmptyString.
Proof.
  intros Hb. unfold PosixPath.join.
  destruct (bool_decide (a = EmptyString) || PosixPath.endswith_sep a);
    destruct a; cbn; try discriminate; exact Hb.
Qed.

(** X16: a calibration root that is given, or a missing root, leaves
    everything as it is and nothing is logged; otherwise [root/CALIB] wins
    when it holds a registry, the root chosen is the first of the search
    list that holds one, and when none does the warning is logged. *)
Theorem calib_root_search (root calibRoot : option string)
  (repositoryCfg : option (list (option string))) :
  (truthy calibRoot = true \/ truthy root = false ->
     findCalibRoot exists_ root calibRoot repositoryCfg = (calibRoot, false))
  /\ (forall r, root = Some r -> truthy root = true -> truthy calibRoot = false ->
        let search := calibSearch r repositoryCfg in
        (has_registry exists_ (PosixPath.join r "CALIB") = true ->
           findCalibRoot exists_ root calibRoot repositoryCfg
             = (Some (PosixPath.join r "CALIB"), false))
        /\ (forall c, fst (findCalibRoot exists_ root calibRoot repositoryCfg) = Some c ->
              Some c ≠ calibRoot ->
              exists before after,
                search = (before ++ c :: after)%list
                /\ has_registry exists_ c = true
                /\ Forall (fun x => has_registry exists_ x = false) before)
        /\ (Forall (fun x => has_registry exists_ x = false) search ->
              findCalibRoot exists_ root calibRoot repositoryCfg = (calibRoot, true))).
Proof.
  split.
  - intros H. unfold findCalibRoot.
    destruct H as [H|H]; rewrite H; [rewrite andb_false_r|]; reflexivity.
  - intros r -> Hr Hc. cbv zeta. unfold findCalibRoot. rewrite Hr, Hc.
    cbn [andb negb default from_option]. change (id r) with r in *.
    pose proof (firstCalibRoot_first (calibSearch r repositoryCfg)) as Hfirst.
    split; [|split].
    + intros Hreg. unfold calibSearch. cbn [app firstCalibRoot].
      unfold has_registry in Hreg. rewrite Hreg.
      assert (Ht : truthy (Some (PosixPath.join r "CALIB")) = true).
      { cbn. rewrite bool_decide_eq_false_2; [reflexivity|].
        apply join_nonempty. discriminate. }
      rewrite Ht. reflexivity.
    + intros c Hfst Hneq.
      destruct (firstCalibRoot exists_ (calibSearch r repositoryCfg)) as [c'|].
      * cbn in Hfst. injection Hfst as ->. exact Hfirst.
      * cbn in Hfst. congruence.
    + intros Hall.
      destruct (firstCalibRoot exists_ (calibSearch r repositoryCfg)) as [c'|].
      * destruct Hfirst as (before & after & Heq & Hreg & _).
        rewrite Heq in Hall. apply Forall_app in Hall as [_ Hall].
        inversion Hall as [|? ? Hc' _]; subst. congruence.
      * rewrite Hc. reflexivity.
Qed.

End Calib.


(** * The translator for simulated data *)

Section Sim.

Context `{SF : SimForeign}.
Import LsstSimTranslator.

Lemma tbind_run {A B} (m : T A) (k : A -> T B) (st : TState) :
  (m ≫= k) st = match m st with
                | (Raise e, st') => (Raise e, st')
                | (Return a, st') => k a st'
                end.
Proof. reflexivity. Qed.

Lemma lower_char_idem c : lower_char (lower_char c) = lower_char c.
Proof. destruct c as [[] [] [] [] [] [] [] []]; reflexivity. Qed.

Lemma lower_idem s : lower (lower s) = lower s.
Proof.
  induction s as [|c s IH]; cbn; [reflexivity|].
  rewrite lower_char_idem, IH. reflexivity.
Qed.

(** X17: the telescope and the location are LSST's when OUTFILE starts
    with ["lsst"], and then OUTFILE alone is recorded as used even if
    LSST_NUM is there; failing that when LSST_NUM is there; otherwise both
    are [None] and nothing is recorded. *)
Theorem telescope_from_header (header : gmap string PyVal) (st : TState) :
  (forall s, header !! "OUTFILE" = Some (VStr s) -> String.prefix "lsst" s = true ->
     to_telescope header st = (Return (Some "LSST"), mark "OUTFILE" st)
     /\ to_location header st = (Return (Some LSST_LOCATION), mark "OUTFILE" st))
  /\ ((header !! "OUTFILE" = None
       \/ exists s, header !! "OUTFILE" = Some (VStr s)
                    /\ String.prefix "lsst" s = false) ->
      (is_Some (header !! "LSST_NUM") ->
         to_telescope header st = (Return (Some "LSST"), mark "LSST_NUM" st)
         /\ to_location header st = (Return (Some LSST_LOCATION), mark "LSST_NUM" st))
      /\ (header !! "LSST_NUM" = None ->
            to_telescope header st = (Return None, st)
            /\ to_location header st = (Return None, st)))
  /\ (forall z, header !! "OUTFILE" = Some (VInt z) ->
        to_telescope header st = (Raise AttributeError, st)).
Proof.
  unfold to_location, to_telescope. split; [|split].
  - intros s Ho Hp. rewrite !tbind_run, Ho. cbn. rewrite Hp. cbn.
    split; reflexivity.
  - intros Ho.
    assert (Hfrom : (match header !! "OUTFILE" with
                     | Some v => tlift (startswith v "lsst")
                     | None => mret false
                     end) st = (Return false, st)).
    { destruct Ho as [->|(s & -> & Hp)]; [reflexivity|]. cbn. rewrite Hp. reflexivity. }
    rewrite !tbind_run, Hfrom. split.
    + intros Hl. rewrite (bool_decide_eq_true_2 _ Hl). split; reflexivity.
    + intros Hl. rewrite bool_decide_eq_false_2
        by (rewrite Hl; intros [? ?]; discriminate).
      split; reflexivity.
  - intros z Ho. rewrite tbind_run, Ho. reflexivity.
Qed.

(** X18: the observation type is IMGTYPE in lower case with ["skyexp"]
    turned into ["science"]: it is in lower case, never ["skyexp"], and the
    same for two spellings that differ in case; a missing IMGTYPE raises
    [KeyError] with nothing recorded. *)
Theorem observation_type_normalised (header : gmap string PyVal) (st : TState) :
  (header !! "IMGTYPE" = None ->
     to_observation_type header st = (Raise (KeyError "IMGTYPE"), st))
  /\ (forall z, header !! "IMGTYPE" = Some (VInt z) ->
        to_observation_type header st = (Raise AttributeError, mark "IMGTYPE" st))
  /\ (forall s, header !! "IMGTYPE" = Some (VStr s) ->
        exists obstype,
          to_observation_type header st = (Return obstype, mark "IMGTYPE" st)
          /\ obstype = (if bool_decide (lower s = "skyexp") then "science" else lower s)
          /\ lower obstype = obstype
          /\ obstype ≠ "skyexp"
          /\ forall header' s' st',
               header' !! "IMGTYPE" = Some (VStr s') -> lower s' = lower s ->
               fst (to_observation_type header' st') = Return obstype).
Proof.
  unfold to_observation_type. split; [|split].
  - intros Hn. rewrite tbind_run. unfold tlift, getitem. rewrite Hn. reflexivity.
  - intros z Hz. rewrite tbind_run. unfold tlift, getitem. rewrite Hz. reflexivity.
  - intros s Hs. eexists. split.
    + rewrite tbind_run. unfold tlift, getitem. rewrite Hs. reflexivity.
    + split; [reflexivity|]. split; [|split].
      * case_bool_decide; [reflexivity | apply lower_idem].
      * case_bool_decide as E; [discriminate | exact E].
      * intros header' s' st' Hs' Hl. rewrite tbind_run.
        unfold tlift, getitem. rewrite Hs'. cbn. rewrite Hl. reflexivity.
Qed.

(** X19: MJD-OBS is recorded as used before it is read: it is in the used
    cards in every outcome, also when the card is missing. *)
Theorem datetime_marks_card_first (header : gmap string PyVal) (st : TState) :
  (header !! "MJD-OBS" = None ->
     to_datetime_begin header st = (Raise (KeyError "MJD-OBS"), mark "MJD-OBS" st))
  /\ (forall r st', to_datetime_begin header st = (r, st') ->
        st' = mark "MJD-OBS" st /\ "MJD-OBS" ∈ used st').
Proof.
  unfold to_datetime_begin. split.
  - intros Hn. rewrite tbind_run. cbn. unfold getitem. rewrite Hn. reflexivity.
  - intros r st'. rewrite tbind_run. cbn.
    destruct (getitem header "MJD-OBS") as [e|v]; cbn.
    + intros [= <- <-]. split; [reflexivity|]. cbn. set_solver.
    + destruct (mjd_time v); intros [= <- <-]; (split; [reflexivity|]); cbn; set_solver.
Qed.

(** X20: without a policy file the detector number is [None] and nothing
    is read; a mapping that is cached is used as it is, whatever the policy
    file holds now; an empty cache is filled from the policy file; after a
    call that returned the cache is filled and a second call gives the same
    number. *)
Theorem detector_num_uses_cache (header : gmap string PyVal) (st : TState)
  (raft detector : PyVal) :
  to_detector_group header = Return raft ->
  to_detector_name header = Return detector ->
  let fullname := py_str raft +:+ "_" +:+ py_str detector in
  let answer (m : gmap string PyVal) (st1 : TState) :=
    match m !! fullname with
    | Some num => (Return (Some num), st1)
    | None =>
        (Return None,
         mkTState (used st1) (detectorMapping st1) (warnings st1 ++ [no_detector_msg]))
    end in
  (cameraPolicyFile = None -> to_detector_num header st = (Return None, st))
  /\ (forall policyFile m,
        cameraPolicyFile = Some policyFile -> detectorMapping st = Some m ->
        to_detector_num header st = answer m st)
  /\ (forall policyFile,
        cameraPolicyFile = Some policyFile -> detectorMapping st = None ->
        match read_detector_ids policyFile with
        | Raise e => to_detector_num header st = (Raise e, st)
        | Return m =>
            to_detector_num header st
              = answer m (mkTState (used st) (Some m) (warnings st))
        end)
  /\ (forall r st', to_detector_num header st = (Return r, st') ->
        (cameraPolicyFile = None /\ st' = st)
        \/ (is_Some (detectorMapping st')
            /\ (is_Some (detectorMapping st) ->
                  detectorMapping st' = detectorMapping st)
            /\ fst (to_detector_num header st') = Return r)).
Proof.
  intros Hg Hn. cbv zeta.
  assert (Hrun : to_detector_num header st =
            match cameraPolicyFile with
            | None => (Return None, st)
            | Some policyFile =>
                match detectorMapping st with
                | Some m =>
                    match m !! (py_str raft +:+ "_" +:+ py_str detector) with
                    | Some num => (Return (Some num), st)
                    | None =>
                        (Return None,
                         mkTState (used st) (detectorMapping st)
                           (warnings st ++ [no_detector_msg]))
                    end
                | None =>
                    match read_detector_ids policyFile with
                    | Raise e => (Raise e, st)
                    | Return m =>
                        match m !! (py_str raft +:+ "_" +:+ py_str detector) with
                        | Some num =>
                            (Return (Some num),
                             mkTState (used st) (Some m) (warnings st))
                        | None =>
                            (Return None,
                             mkTState (used st) (Some m)
                               (warnings st ++ [no_detector_msg]))
                        end
                    end
                end
            end).
  { unfold to_detector_num. rewrite !tbind_run. unfold tlift.
    rewrite Hg, Hn. destruct cameraPolicyFile as [policyFile|]; [|reflexivity].
    destruct st as [u [m|] w];
      cbv [mbind T_bind mret T_ret tlift getDetectorMapping setDetectorMapping
           log_warning detectorMapping used warnings].
    - destruct (m !! _); reflexivity.
    - destruct (read_detector_ids policyFile) as [e|m]; [reflexivity|].
      destruct (m !! _); reflexivity. }
  split; [|split; [|split]].
  - intros Hp. rewrite Hrun, Hp. reflexivity.
  - intros policyFile m Hp Hm. rewrite Hrun, Hp, Hm.
    destruct (m !! _); reflexivity.
  - intros policyFile Hp Hm. rewrite Hrun, Hp, Hm.
    destruct (read_detector_ids policyFile) as [e|m]; [reflexivity|].
    destruct (m !! _); reflexivity.
  - intros r st' Hres. rewrite Hrun in Hres.
    destruct cameraPolicyFile as [policyFile|] eqn:Hp.
    2:{ injection Hres as <- <-. left. split; reflexivity. }
    right.
    assert (Hcached : forall m st1, detectorMapping st1 = Some m ->
              fst (to_detector_num header st1)
              = Return (m !! (py_str raft +:+ "_" +:+ py_str detector))).
    { intros m st1 Hm. unfold to_detector_num. rewrite !tbind_run. unfold tlift.
      rewrite Hg, Hn, Hp. destruct st1 as [u dm w]. cbn in Hm. subst dm.
      cbv [mbind T_bind mret T_ret tlift getDetectorMapping setDetectorMapping
           log_warning detectorMapping used warnings fst].
      destruct (m !! _); reflexivity. }
    destruct (detectorMapping st) as [m|] eqn:Hm.
    + destruct (m !! _) as [num|] eqn:Hl; injection Hres as <- <-; cbn;
        rewrite ?Hm; (split; [eauto|]); (split; [reflexivity|]);
        [rewrite (Hcached m st Hm) | rewrite (Hcached m) by (cbn; first [reflexivity | exact Hm])];
        rewrite Hl; reflexivity.
    + destruct (read_detector_ids policyFile) as [e|m]; [discriminate|].
      destruct (m !! _) as [num|] eqn:Hl; injection Hres as <- <-; cbn;
        (split; [eauto|]); (split; [intros [? ?]; discriminate|]);
        rewrite (Hcached m) by reflexivity; rewrite Hl; reflexivity.
Qed.

Lemma observation_type_str (header : gmap string PyVal) (st : TState) s :
  header !! "IMGTYPE" = Some (VStr s) ->
  to_observation_type header st
  = (Return (if bool_decide (lower s = "skyexp") then "science" else lower s),
     mark "IMGTYPE" st).
Proof.
  intros Hs. unfold to_observation_type. rewrite tbind_run.
  unfold tlift, getitem. rewrite Hs. reflexivity.
Qed.

(** X21: for an observation type other than science the position is
    [None] and the tracking position is not asked for. *)
Theorem altaz_only_for_science (header : gmap string PyVal) (st : TState) :
  (forall s, header !! "IMGTYPE" = Some (VStr s) ->
     lower s ≠ "science" -> lower s ≠ "skyexp" ->
     to_altaz_begin header st = (Return None, mark "IMGTYPE" st))
  /\ (forall s, header !! "IMGTYPE" = Some (VStr s) ->
        lower s = "science" \/ lower s = "skyexp" ->
        to_altaz_begin header st
        = (match to_tracking_radec header with
           | Raise e => Raise e
           | Return None => Return None
           | Return (Some radec) =>
               match transform_to_AltAz radec with
               | Raise e => Raise e
               | Return altaz => Return (Some altaz)
               end
           end, mark "IMGTYPE" st))
  /\ (header !! "IMGTYPE" = None ->
        to_altaz_begin header st = (Raise (KeyError "IMGTYPE"), st)).
Proof.
  unfold to_altaz_begin. split; [|split].
  - intros s Hs H1 H2. rewrite tbind_run, (observation_type_str _ _ _ Hs).
    rewrite (bool_decide_eq_false_2 _ H2), (bool_decide_eq_false_2 _ H1).
    reflexivity.
  - intros s Hs H. rewrite tbind_run, (observation_type_str _ _ _ Hs).
    assert (Hsci : bool_decide
                     ((if bool_decide (lower s = "skyexp") then "science" else lower s)
                      = "science") = true).
    { destruct H as [H|H]; rewrite H; reflexivity. }
    rewrite Hsci. rewrite tbind_run. unfold tlift.
    destruct (to_tracking_radec header) as [e|[radec|]]; [reflexivity| |reflexivity].
    rewrite tbind_run. destruct (transform_to_AltAz radec); reflexivity.
  - intros Hn. unfold to_observation_type. rewrite !tbind_run.
    unfold tlift, getitem. rewrite Hn. reflexivity.
Qed.

End Sim.


(** * Further properties of the raw composite assembler *)

Section AssemblerMore.

Context `{F : Foreign}.

Lemma count_if_app {A} (p : A -> bool) (l1 l2 : list A) :
  count_if p (l1 ++ l2) = (count_if p l1 + count_if p l2)%nat.
Proof. unfold count_if. rewrite List.filter_app, length_app. reflexivity. Qed.

Lemma same_identity_refl a : same_identity a a.
Proof. repeat split. Qed.

Lemma same_identity_trans a b c :
  same_identity a b -> same_identity b c -> same_identity a c.
Proof. intros (?&?&?) (?&?&?). repeat split; congruence. Qed.

(** One step of the geometry check, in all its outcomes. *)
Lemma patchGeometry_step i warned ampExp (w w' : World) amp r :
  amps w !! i = Some amp ->
  patchGeometry i warned ampExp w = (r, w') ->
  exists amp' evs,
    amps w' = <[i := amp']> (amps w)
    /\ same_identity amp amp'
    /\ events w' = (events w ++ evs)%list
    /\ ((evs = [] /\ forall b, r = Return b -> b = warned)
        \/ (warned = false /\ evs = [Log Warn patching_msg]
            /\ forall b, r = Return b -> b = true))
    /\ (forall b, r = Return b -> rawBBox amp' = ae_bbox ampExp).
Proof.
  intros Ha Hrun.
  destruct (decide (rawBBox amp = ae_bbox ampExp)) as [Hb|Hb].
  { rewrite (patchGeometry_same _ _ _ _ _ Ha Hb) in Hrun.
    injection Hrun as <- <-. exists amp, [].
    rewrite (list_insert_id _ _ _ Ha), app_nil_r.
    split; [reflexivity|]. split; [apply same_identity_refl|].
    split; [reflexivity|]. split; [left; split; [reflexivity|congruence]|].
    intros _ _. exact Hb. }
  destruct (decide (getDimensions (rawDataBBox amp) = getDimensions (bbox amp)))
    as [Hd|Hd].
  2:{ rewrite (patchGeometry_fatal _ _ _ _ _ Ha (conj Hb Hd)) in Hrun.
      injection Hrun as <- <-. exists amp, [].
      rewrite (list_insert_id _ _ _ Ha), app_nil_r.
      split; [reflexivity|]. split; [apply same_identity_refl|].
      split; [reflexivity|]. split; [left; split; [reflexivity|discriminate]|].
      discriminate. }
  rewrite (patchGeometry_patch _ _ _ _ _ Ha Hb Hd) in Hrun. cbv zeta in Hrun.
  assert (Hlog : exists evs,
            patchLog warned (events w) = (events w ++ evs)%list
            /\ ((evs = [] /\ warned = true)
                \/ (warned = false /\ evs = [Log Warn patching_msg]))).
  { destruct warned; cbn.
    - exists []. rewrite app_nil_r. split; [reflexivity | left; split; reflexivity].
    - eexists. split; [reflexivity | right; split; reflexivity]. }
  destruct Hlog as (evs & Hevs & Hcase).
  destruct (newRawXYOffset _ _ _ _ _ _) as [e|[nx ny]];
    [|destruct (ExtentI nx ny) as [e|off]];
    injection Hrun as <- <-; cbn [amps events];
    eexists _, evs; (split; [reflexivity|]);
    (split; [repeat split|]); (split; [exact Hevs|]);
    (split; [destruct Hcase as [[-> ->]|[-> ->]];
               [left; split; [reflexivity | congruence]
               |right; split; [reflexivity|split; [reflexivity | congruence]]]
            | intros b Hb'; first [discriminate Hb' | reflexivity]]).
Qed.

Lemma irafLogs_no_patch i amp d1 d2 d3 :
  count_if is_patch_warning (irafLogs i amp d1 d2 d3) = 0%nat
  /\ Forall is_log (irafLogs i amp d1 d2 d3)
  /\ (length (irafLogs i amp d1 d2 d3) <= 3)%nat
  /\ Forall (fun e => exists fmt,
               e = Log (if (i =? 0)%nat then Warn else Debug) fmt)
       (irafLogs i amp d1 d2 d3).
Proof.
  unfold irafLogs.
  destruct (differs d1 _), (differs d2 _), (differs d3 _), (i =? 0)%nat;
    cbn; repeat split; repeat constructor; try lia; eauto.
Qed.

Lemma checkIraf_step i dataId ampExp (w w' : World) amp r :
  amps w !! i = Some amp ->
  checkIraf i dataId ampExp w = (r, w') ->
  amps w' = amps w
  /\ exists evs, events w' = (events w ++ evs)%list
       /\ count_if is_patch_warning evs = 0%nat
       /\ Forall is_log evs
       /\ (length evs <= 3)%nat
       /\ Forall (fun e => exists fmt,
                    e = Log (if (i =? 0)%nat then Warn else Debug) fmt) evs.
Proof.
  intros Ha Hrun. rewrite (checkIraf_run _ _ _ _ _ Ha) in Hrun. cbv zeta in Hrun.
  assert (Hnil : amps w = amps w
           /\ exists evs, events w = (events w ++ evs)%list
                /\ count_if is_patch_warning evs = 0%nat
                /\ Forall is_log evs /\ (length evs <= 3)%nat
                /\ Forall (fun e => exists fmt,
                    e = Log (if (i =? 0)%nat then Warn else Debug) fmt) evs).
  { split; [reflexivity|]. exists []. rewrite app_nil_r.
    repeat split; try constructor. cbn. lia. }
  destruct (irafBox _ "DETSEC" w) as [[e1|b1] ?];
    [injection Hrun as <- <-; exact Hnil|].
  destruct (irafBox _ "DATASEC" w) as [[e2|b2] ?];
    [injection Hrun as <- <-; exact Hnil|].
  destruct (irafBox _ "BIASSEC" w) as [[e3|b3] ?];
    [injection Hrun as <- <-; exact Hnil|].
  injection Hrun as <- <-. split; [reflexivity|].
  eexists. split; [reflexivity|]. apply irafLogs_no_patch.
Qed.


(** What the loop over [zip(ccd, ampExps)] keeps and what it may add. *)
Lemma checkAmps_trace dataId ampExps :
  forall j warned (w w' : World) r,
    checkAmps j warned dataId ampExps w = (r, w') ->
    length (amps w') = length (amps w)
    /\ (forall n amp, amps w !! n = Some amp ->
          exists amp', amps w' !! n = Some amp' /\ same_identity amp amp')
    /\ (forall n, (n < j \/ j + length ampExps <= n)%nat ->
          amps w' !! n = amps w !! n)
    /\ (r = Return tt ->
          forall k seg amp', ampExps !! k = Some seg ->
            amps w' !! (j + k)%nat = Some amp' -> rawBBox amp' = ae_bbox seg)
    /\ exists evs, events w' = (events w ++ evs)%list
         /\ Forall is_log evs
         /\ (count_if is_patch_warning evs <= if warned then 0 else 1)%nat.
Proof.
  induction ampExps as [|ampExp rest IH]; intros j warned w w' r Hrun.
  { injection Hrun as <- <-. split; [reflexivity|].
    split; [intros n amp Hn; exists amp; split; [exact Hn|apply same_identity_refl]|].
    split; [reflexivity|]. split; [intros _ k seg amp' Hk; discriminate|].
    exists []. rewrite app_nil_r. split; [reflexivity|].
    split; [constructor|]. cbn. destruct warned; lia. }
  cbn [checkAmps] in Hrun. rewrite bind_run, getAmps_run in Hrun.
  case_bool_decide as Hj.
  2:{ injection Hrun as <- <-. split; [reflexivity|].
      split; [intros n amp Hn; exists amp; split; [exact Hn|apply same_identity_refl]|].
      split; [reflexivity|].
      split; [intros _ k seg amp' _ Hn; apply lookup_lt_Some in Hn; lia|].
      exists []. rewrite app_nil_r. split; [reflexivity|].
      split; [constructor|]. cbn. destruct warned; lia. }
  destruct (lookup_lt_is_Some_2 (amps w) j Hj) as [ampj Haj].
  rewrite bind_run in Hrun.
  destruct (patchGeometry j warned ampExp w) as [rp w1] eqn:Hp.
  destruct (patchGeometry_step _ _ _ _ _ _ _ Haj Hp)
    as (ampj' & evs1 & Hamps1 & Hid1 & Hev1 & Hcase & Hraw).
  assert (Hlen1 : length (amps w1) = length (amps w))
    by (rewrite Hamps1; apply length_insert).
  assert (Haj1 : amps w1 !! j = Some ampj')
    by (rewrite Hamps1; apply list_lookup_insert_eq, Hj).
  assert (Hid_step : forall n amp, amps w !! n = Some amp ->
            exists amp', amps w1 !! n = Some amp' /\ same_identity amp amp').
  { intros n amp Hn. rewrite Hamps1. destruct (decide (n = j)) as [->|Hne].
    - rewrite list_lookup_insert_eq by exact Hj. exists ampj'.
      split; [reflexivity|]. congruence.
    - rewrite list_lookup_insert_ne by congruence. exists amp.
      split; [exact Hn | apply same_identity_refl]. }
  assert (Hfr_step : forall n, n ≠ j -> amps w1 !! n = amps w !! n)
    by (intros n Hn; rewrite Hamps1; apply list_lookup_insert_ne; congruence).
  assert (Hcount1 : Forall is_log evs1
            /\ (count_if is_patch_warning evs1 <= if warned then 0 else 1)%nat
            /\ forall b, rp = Return b ->
                 (count_if is_patch_warning evs1
                  + (if b then 0 else 1) <= if warned then 0 else 1)%nat).
  { destruct Hcase as [[-> Hb]|(-> & -> & Hb)].
    - split; [constructor|]. split; [cbn; destruct warned; lia|].
      intros b Hrb. rewrite (Hb b Hrb). cbn. destruct warned; lia.
    - assert (Hone : count_if is_patch_warning [Log Warn patching_msg] = 1%nat)
        by (vm_compute; reflexivity).
      split; [repeat constructor|]. split; [rewrite Hone; lia|].
      intros b Hrb. rewrite (Hb b Hrb), Hone. lia. }
  destruct Hcount1 as (Hlog1 & Hc1 & Hc1b).
  destruct rp as [e|warned'].
  { injection Hrun as <- <-. split; [exact Hlen1|]. split; [exact Hid_step|].
    split; [intros n Hn; apply Hfr_step; cbn in Hn; lia|].
    split; [discriminate|]. exists evs1. repeat split; assumption. }
  rewrite bind_run in Hrun.
  destruct (checkIraf j dataId ampExp w1) as [rc w2] eqn:Hc.
  destruct (checkIraf_step _ _ _ _ _ _ _ Haj1 Hc)
    as (Hamps2 & evs2 & Hev2 & Hc2 & Hlog2 & _ & _).
  destruct rc as [e|[]].
  { injection Hrun as <- <-. split; [rewrite Hamps2; exact Hlen1|].
    split; [intros n amp Hn; rewrite Hamps2; exact (Hid_step n amp Hn)|].
    split; [intros n Hn; rewrite Hamps2; apply Hfr_step; cbn in Hn; lia|].
    split; [discriminate|].
    exists (evs1 ++ evs2)%list. rewrite Hev2, Hev1, app_assoc.
    split; [reflexivity|]. split; [apply Forall_app; split; assumption|].
    rewrite count_if_app, Hc2. lia. }
  destruct (IH (S j) warned' w2 w' r Hrun)
    as (Hlen3 & Hid3 & Hfr3 & Hraw3 & evs3 & Hev3 & Hlog3 & Hc3).
  split; [rewrite Hlen3, Hamps2; exact Hlen1|].
  split.
  { intros n amp Hn. destruct (Hid_step n amp Hn) as (a1 & Ha1 & Hi1).
    rewrite <- Hamps2 in Ha1. destruct (Hid3 n a1 Ha1) as (a3 & Ha3 & Hi3).
    exists a3. split; [exact Ha3 | exact (same_identity_trans _ _ _ Hi1 Hi3)]. }
  split.
  { intros n Hn. cbn in Hn. rewrite Hfr3 by lia. rewrite Hamps2.
    apply Hfr_step. lia. }
  split.
  { intros Hr k seg amp' Hk Hn. destruct k as [|k].
    - injection Hk as <-. rewrite Nat.add_0_r in Hn.
      rewrite Hfr3, Hamps2, Haj1 in Hn by lia. injection Hn as <-.
      exact (Hraw warned' eq_refl).
    - apply (Hraw3 Hr k seg amp' Hk).
      rewrite <- Hn. f_equal. lia. }
  exists (evs1 ++ evs2 ++ evs3)%list.
  rewrite Hev3, Hev2, Hev1, <- !app_assoc. split; [reflexivity|].
  split; [repeat (apply Forall_app; split); assumption|].
  rewrite !count_if_app, Hc2. specialize (Hc1b warned' eq_refl).
  destruct warned'; lia.
Qed.


(** The run of [assemble_raw] after the emptiness test, in its outcomes. *)
Lemma assemble_raw_trace dataId componentInfo (w w' : World) r :
  assemble_raw dataId componentInfo w = (r, w') ->
  (raw_amp componentInfo = [] /\ w' = w)
  \/ exists rl w1,
       checkAmps 0 false dataId (raw_amp componentInfo) w = (rl, w1)
       /\ amps w' = amps w1
       /\ ((raised rl = true /\ w' = w1 /\ raised r = true)
           \/ (rl = Return tt
               /\ exists tail,
                    events w' = (events w1
                                 ++ AssembleCcd (makeAmpDict (amps w1)
                                                   (raw_amp componentInfo) ∅)
                                    :: tail)%list
                    /\ (tail = [] \/ tail = [Log Warn no_wcs_msg]))).
Proof.
  unfold assemble_raw.
  destruct (raw_amp componentInfo) as [|a0 rest] eqn:El.
  { intros [= <- <-]. left. split; reflexivity. }
  cbn [length Nat.eqb]. rewrite bind_run.
  destruct (checkAmps 0 false dataId (a0 :: rest) w) as [[e|[]] w1] eqn:Hl.
  { intros [= <- <-]. right. exists (Raise e), w1.
    split; [reflexivity|]. split; [reflexivity|]. left. repeat split. }
  rewrite bind_run, getAmps_run, bind_run. unfold callAssembleCcd.
  intros Hrun. right. exists (Return tt), w1. split; [reflexivity|].
  destruct (assembleCcd _ _) as [e|exposure].
  { injection Hrun as <- <-. split; [reflexivity|]. right.
    split; [reflexivity|]. exists []. split; [reflexivity | left; reflexivity]. }
  rewrite bind_run, lift_run in Hrun.
  destruct (makeRawVisitInfo _) as [e|visitInfo].
  { injection Hrun as <- <-. split; [reflexivity|]. right.
    split; [reflexivity|]. exists []. split; [reflexivity | left; reflexivity]. }
  destruct (isFinite _).
  - rewrite bind_run, lift_run in Hrun.
    destruct (getWcsFromDetector _ _ _ _); injection Hrun as <- <-;
      (split; [reflexivity|]); right; (split; [reflexivity|]); exists [];
      (split; [reflexivity | left; reflexivity]).
  - injection Hrun as <- <-. split; [reflexivity|]. right.
    split; [reflexivity|]. exists [Log Warn no_wcs_msg].
    split; [cbn; rewrite <- app_assoc; reflexivity | right; reflexivity].
Qed.

(** X22: in every outcome [assemble_raw] keeps the number of amplifiers,
    and of each its name, its nominal box and its raw-data box; amplifiers
    beyond the segments are not touched at all. *)
Theorem reconciliation_keeps_identity dataId componentInfo (w w' : World) r :
  assemble_raw dataId componentInfo w = (r, w') ->
  length (amps w') = length (amps w)
  /\ (forall n amp, amps w !! n = Some amp ->
        exists amp', amps w' !! n = Some amp'
                     /\ name amp' = name amp
                     /\ bbox amp' = bbox amp
                     /\ rawDataBBox amp' = rawDataBBox amp)
  /\ (forall n, (length (raw_amp componentInfo) <= n)%nat ->
        amps w' !! n = amps w !! n).
Proof.
  intros Hrun.
  destruct (assemble_raw_trace _ _ _ _ _ Hrun)
    as [[_ ->]|(rl & w1 & Hl & Hamps & _)].
  { split; [reflexivity|]. split; [|reflexivity].
    intros n amp Hn. exists amp. repeat split. exact Hn. }
  destruct (checkAmps_trace _ _ _ _ _ _ _ Hl) as (Hlen & Hid & Hfr & _).
  rewrite Hamps. split; [exact Hlen|]. split.
  - intros n amp Hn. destruct (Hid n amp Hn) as (amp' & Hn' & Hi).
    exists amp'. split; [exact Hn' | exact Hi].
  - intros n Hn. apply Hfr. right. lia.
Qed.

(** X23: one call logs the patching warning at most once and calls the
    CCD assembler at most once, exactly once when it returns an exposure. *)
Theorem warns_and_assembles_once dataId componentInfo (w w' : World) r :
  assemble_raw dataId componentInfo w = (r, w') ->
  exists evs,
    events w' = (events w ++ evs)%list
    /\ (count_if is_patch_warning evs <= 1)%nat
    /\ (count_if is_assemble evs <= 1)%nat
    /\ (forall exposure, r = Return exposure -> count_if is_assemble evs = 1%nat).
Proof.
  intros Hrun.
  destruct (assemble_raw_trace _ _ _ _ _ Hrun)
    as [[He ->]|(rl & w1 & Hl & Hamps & Hcase)].
  { exists []. rewrite app_nil_r. split; [reflexivity|].
    split; [cbn; lia|]. split; [cbn; lia|].
    intros exposure ->. unfold assemble_raw in Hrun. rewrite He in Hrun.
    discriminate Hrun. }
  destruct (checkAmps_trace _ _ _ _ _ _ _ Hl)
    as (_ & _ & _ & _ & evs & Hev & Hlog & Hcount).
  assert (Hno : count_if is_assemble evs = 0%nat).
  { clear -Hlog. induction Hlog as [|e l He _ IH]; [reflexivity|].
    destruct e; [|destruct He]. exact IH. }
  destruct Hcase as [(Hr1 & -> & Hr)|(-> & tail & Hev' & Htail)].
  - exists evs. split; [exact Hev|]. split; [exact Hcount|].
    split; [lia|]. intros exposure ->. discriminate Hr.
  - exists (evs ++ AssembleCcd (makeAmpDict (amps w1) (raw_amp componentInfo) ∅)
                   :: tail)%list.
    rewrite Hev', Hev, <- app_assoc. split; [reflexivity|].
    assert (Hp : count_if is_patch_warning
                   (AssembleCcd (makeAmpDict (amps w1) (raw_amp componentInfo) ∅)
                    :: tail) = 0%nat)
      by (destruct Htail as [->| ->]; reflexivity).
    assert (Ha : count_if is_assemble
                   (AssembleCcd (makeAmpDict (amps w1) (raw_amp componentInfo) ∅)
                    :: tail) = 1%nat)
      by (destruct Htail as [->| ->]; reflexivity).
    rewrite !count_if_app, Hno, Hp, Ha.
    split; [lia|]. split; [lia|]. intros exposure _. reflexivity.
Qed.


Lemma checkAmps_matching dataId ampExps :
  forall j warned (w w' : World) r,
    (forall k amp seg, amps w !! (j + k)%nat = Some amp ->
       ampExps !! k = Some seg -> rawBBox amp = ae_bbox seg) ->
    checkAmps j warned dataId ampExps w = (r, w') ->
    amps w' = amps w
    /\ exists evs, events w' = (events w ++ evs)%list
         /\ count_if is_patch_warning evs = 0%nat.
Proof.
  induction ampExps as [|ampExp rest IH]; intros j warned w w' r Hall Hrun.
  { injection Hrun as <- <-. split; [reflexivity|]. exists [].
    rewrite app_nil_r. split; reflexivity. }
  cbn [checkAmps] in Hrun. rewrite bind_run, getAmps_run in Hrun.
  case_bool_decide as Hj.
  2:{ injection Hrun as <- <-. split; [reflexivity|]. exists [].
      rewrite app_nil_r. split; reflexivity. }
  destruct (lookup_lt_is_Some_2 (amps w) j Hj) as [ampj Haj].
  assert (Hsame : rawBBox ampj = ae_bbox ampExp).
  { apply (Hall 0%nat ampj ampExp); [rewrite Nat.add_0_r; exact Haj | reflexivity]. }
  rewrite bind_run, (patchGeometry_same _ _ _ _ _ Haj Hsame), bind_run in Hrun.
  destruct (checkIraf j dataId ampExp w) as [rc w2] eqn:Hc.
  destruct (checkIraf_step _ _ _ _ _ _ _ Haj Hc)
    as (Hamps2 & evs2 & Hev2 & Hc2 & _).
  destruct rc as [e|[]].
  { injection Hrun as <- <-. split; [exact Hamps2|]. exists evs2.
    split; assumption. }
  destruct (IH (S j) warned w2 w' r) as (Hamps3 & evs3 & Hev3 & Hc3);
    [|exact Hrun|].
  { intros k amp seg Hk Hseg. apply (Hall (S k) amp seg); [|exact Hseg].
    rewrite <- Hamps2, <- Hk. f_equal. lia. }
  split; [congruence|]. exists (evs2 ++ evs3)%list.
  rewrite Hev3, Hev2, <- app_assoc. split; [reflexivity|].
  rewrite count_if_app, Hc2, Hc3. reflexivity.
Qed.

Lemma tail_no_patch (ampDict : gmap string AmpExp) (tail : list Event) :
  tail = [] \/ tail = [Log Warn no_wcs_msg] ->
  count_if is_patch_warning (AssembleCcd ampDict :: tail) = 0%nat.
Proof. intros [->| ->]; reflexivity. Qed.

Lemma matching_geometry_untouched_aux dataId componentInfo (w w' : World) r :
  (forall n amp seg, amps w !! n = Some amp ->
     raw_amp componentInfo !! n = Some seg -> rawBBox amp = ae_bbox seg) ->
  assemble_raw dataId componentInfo w = (r, w') ->
  amps w' = amps w
  /\ exists evs, events w' = (events w ++ evs)%list
       /\ count_if is_patch_warning evs = 0%nat.
Proof.
  intros Hall Hrun.
  destruct (assemble_raw_trace _ _ _ _ _ Hrun)
    as [[_ ->]|(rl & w1 & Hl & Hamps & Hcase)].
  { split; [reflexivity|]. exists []. rewrite app_nil_r. split; reflexivity. }
  destruct (checkAmps_matching _ _ 0%nat false w w1 rl Hall Hl)
    as (Hamps1 & evs & Hev & Hc).
  split; [congruence|].
  destruct Hcase as [(_ & -> & _)|(-> & tail & Hev' & Htail)].
  - exists evs. split; assumption.
  - eexists. rewrite Hev', Hev, <- app_assoc. split; [reflexivity|].
    rewrite count_if_app, Hc. exact (tail_no_patch _ _ Htail).
Qed.

(** X24: when every amplifier's untrimmed box is its segment's box, the
    geometry comes out as it went in and no patching warning is logged. *)
Theorem matching_geometry_untouched dataId componentInfo (w w' : World) r :
  (forall n amp seg, amps w !! n = Some amp ->
     raw_amp componentInfo !! n = Some seg -> rawBBox amp = ae_bbox seg) ->
  assemble_raw dataId componentInfo w = (r, w') ->
  amps w' = amps w
  /\ exists evs, events w' = (events w ++ evs)%list
       /\ count_if is_patch_warning evs = 0%nat.
Proof. exact (matching_geometry_untouched_aux dataId componentInfo w w' r). Qed.

(** X25: after a read that returned, a second read of the same segments
    finds the geometry patched: it changes no amplifier and logs no
    patching warning. *)
Theorem second_read_is_quiet dataId dataId' componentInfo (w w1 w2 : World)
  exposure r :
  assemble_raw dataId componentInfo w = (Return exposure, w1) ->
  assemble_raw dataId' componentInfo w1 = (r, w2) ->
  amps w2 = amps w1
  /\ exists evs, events w2 = (events w1 ++ evs)%list
       /\ count_if is_patch_warning evs = 0%nat.
Proof.
  intros Hfirst Hsecond.
  apply (matching_geometry_untouched_aux dataId' componentInfo w1 w2 r);
    [|exact Hsecond].
  destruct (assemble_raw_trace _ _ _ _ _ Hfirst)
    as [[He _]|(rl & w0 & Hl & Hamps & Hcase)].
  { unfold assemble_raw in Hfirst. rewrite He in Hfirst. discriminate Hfirst. }
  destruct Hcase as [(_ & _ & Hr)|(-> & _)]; [discriminate Hr|].
  destruct (checkAmps_trace _ _ _ _ _ _ _ Hl) as (_ & _ & _ & Hraw & _).
  intros n amp seg Hn Hseg. rewrite Hamps in Hn.
  exact (Hraw eq_refl n seg amp Hseg Hn).
Qed.


Lemma makeAmpDict_other (ccd : list Amp) :
  forall (ampExps : list AmpExp) (acc : gmap string AmpExp) (k : string),
    k ∉ (name <$> ccd) ->
    makeAmpDict ccd ampExps acc !! k = acc !! k.
Proof.
  induction ccd as [|amp ccd IH]; intros ampExps acc k Hk; [reflexivity|].
  destruct ampExps as [|seg rest]; [reflexivity|]. cbn [makeAmpDict].
  cbn in Hk. apply not_elem_of_cons in Hk as [Hne Hk].
  rewrite (IH rest _ k Hk). apply lookup_insert_ne. congruence.
Qed.

Lemma makeAmpDict_source (ccd : list Amp) :
  forall (ampExps : list AmpExp) (acc : gmap string AmpExp) (k : string) seg,
    makeAmpDict ccd ampExps acc !! k = Some seg ->
    acc !! k = Some seg
    \/ exists i amp, ccd !! i = Some amp /\ name amp = k
                     /\ ampExps !! i = Some seg.
Proof.
  induction ccd as [|amp ccd IH]; intros ampExps acc k seg Hl; [left; exact Hl|].
  destruct ampExps as [|seg0 rest]; [left; exact Hl|]. cbn [makeAmpDict] in Hl.
  destruct (IH rest _ k seg Hl) as [Hacc|(i & a & Hi & Hn & Hs)].
  - destruct (decide (name amp = k)) as [Heq|Hne].
    + rewrite <- Heq, lookup_insert_eq in Hacc. injection Hacc as ->.
      right. exists 0%nat, amp. repeat split. exact Heq.
    + rewrite lookup_insert_ne in Hacc by exact Hne. left. exact Hacc.
  - right. exists (S i), a. repeat split; assumption.
Qed.

(** X26: with distinct amplifier names the dictionary handed to the
    assembler maps the name of amplifier [i] to segment [i]; in any case
    every entry is a segment under the name of the amplifier at its place. *)
Theorem ampDict_by_name (ccd : list Amp) (ampExps : list AmpExp) :
  (NoDup (name <$> ccd) ->
   forall i amp seg, ccd !! i = Some amp -> ampExps !! i = Some seg ->
     makeAmpDict ccd ampExps ∅ !! name amp = Some seg)
  /\ (forall k seg, makeAmpDict ccd ampExps ∅ !! k = Some seg ->
        exists i amp, ccd !! i = Some amp /\ name amp = k
                      /\ ampExps !! i = Some seg).
Proof.
  split.
  - generalize (∅ : gmap string AmpExp) as acc. revert ampExps.
    induction ccd as [|amp0 ccd IH]; intros ampExps acc Hnd i amp seg Hi Hs;
      [discriminate|].
    destruct ampExps as [|seg0 rest]; [discriminate|]. cbn [makeAmpDict].
    cbn in Hnd. apply NoDup_cons in Hnd as [Hnotin Hnd].
    destruct i as [|i].
    + injection Hi as ->. injection Hs as ->.
      rewrite (makeAmpDict_other _ _ _ _ Hnotin). apply lookup_insert_eq.
    + exact (IH rest _ Hnd i amp seg Hi Hs).
  - intros k seg Hl.
    destruct (makeAmpDict_source _ _ _ _ _ Hl) as [Hacc|H]; [|exact H].
    rewrite lookup_empty in Hacc. discriminate.
Qed.

(** X27: a declared untrimmed box of width or height 0 makes the patch
    raise [ZeroDivisionError], after the boxes are already replaced. *)
Theorem empty_declared_box_raises i warned ampExp (w : World) amp :
  amps w !! i = Some amp ->
  rawBBox amp ≠ ae_bbox ampExp ->
  getDimensions (rawDataBBox amp) = getDimensions (bbox amp) ->
  getWidth (rawBBox amp) = 0 \/ getHeight (rawBBox amp) = 0 ->
  patchGeometry i warned ampExp w
  = (Raise ZeroDivisionError,
     mkWorld (<[i := patchedBoxes amp (ae_bbox ampExp)]> (amps w))
             (patchLog warned (events w))).
Proof.
  intros Ha Hb Hd Hz. rewrite (patchGeometry_patch _ _ _ _ _ Ha Hb Hd).
  cbv zeta. unfold newRawXYOffset, floordiv, truediv.
  destruct (decide (getWidth (rawBBox amp) = 0)) as [Hw|Hw].
  - rewrite Hw. reflexivity.
  - destruct Hz as [Hz|Hz]; [contradiction|].
    replace (getWidth (rawBBox amp) =? 0) with false by lia.
    rewrite Hz. reflexivity.
Qed.

(** X28: the cross-check logs at most three records, as warnings for the
    first amplifier and at debug level for the others, and nothing at all
    when the three keywords are missing. *)
Theorem iraf_log_levels i dataId ampExp (w w' : World) amp r :
  amps w !! i = Some amp ->
  checkIraf i dataId ampExp w = (r, w') ->
  exists evs,
    events w' = (events w ++ evs)%list
    /\ (length evs <= 3)%nat
    /\ Forall (fun e => exists fmt,
                 e = Log (if (i =? 0)%nat then Warn else Debug) fmt) evs
    /\ (ae_metadata ampExp !! "DETSEC" = None ->
        ae_metadata ampExp !! "DATASEC" = None ->
        ae_metadata ampExp !! "BIASSEC" = None ->
        evs = [] /\ r = Return tt).
Proof.
  intros Ha Hrun.
  destruct (checkIraf_step _ _ _ _ _ _ _ Ha Hrun)
    as (_ & evs & Hev & _ & _ & Hlen & Hlvl).
  exists evs. split; [exact Hev|]. split; [exact Hlen|]. split; [exact Hlvl|].
  intros H1 H2 H3. rewrite (checkIraf_run _ _ _ _ _ Ha) in Hrun.
  cbv zeta in Hrun. rewrite !irafBox_run, H1, H2, H3 in Hrun.
  injection Hrun as <- Hw'. split; [|reflexivity].
  rewrite <- Hw' in Hev. cbn in Hev.
  apply (f_equal (@length _)) in Hev. rewrite !length_app in Hev.
  destruct evs; [reflexivity | cbn in Hev; lia].
Qed.

End AssemblerMore.

(** * The further properties at concrete inputs *)

Lemma coadd_id_decodes_witness :
  Z.shiftr 69829 16 = 1
  /\ Z.land (Z.shiftr 69829 11) 31 = 2
  /\ Z.land (Z.shiftr 69829 6) 31 = 3
  /\ Z.land 69829 63 = 5
  /\ LsstCamMapper.bypass_deepMergedCoaddId coaddId = Return (Z.shiftr 69829 6)
  /\ Z.shiftr (Z.shiftr 69829 6) 10 = 1
  /\ Z.land (Z.shiftr (Z.shiftr 69829 6) 5) 31 = 2.
Proof.
  assert (Hc : carries coaddId 1 2 3)
    by (split; eexists; split; reflexivity).
  assert (Hr : in_range 1 2 3) by (unfold in_range; lia).
  assert (Hf : has_filter coaddId 5) by (eexists; split; reflexivity).
  assert (Hb : 0 <= 5 < 2 ^ 6) by lia.
  exact (coadd_id_decodes coaddId 1 2 3 5 69829 Hc Hr Hf Hb eq_refl).
Defined.

Lemma coadd_id_injective_witness :
  LsstCamMapper.bypass_deepCoaddId coaddId
  ≠ LsstCamMapper.bypass_deepCoaddId coaddId'.
Proof.
  assert (Hc : carries coaddId 1 2 3)
    by (split; eexists; split; reflexivity).
  assert (Hr : in_range 1 2 3) by (unfold in_range; lia).
  assert (Hf : has_filter coaddId 5) by (eexists; split; reflexivity).
  assert (Hc' : carries coaddId' 1 2 4)
    by (split; eexists; split; reflexivity).
  assert (Hr' : in_range 1 2 4) by (unfold in_range; lia).
  assert (Hf' : has_filter coaddId' 4) by (eexists; split; reflexivity).
  destruct (coadd_id_injective coaddId coaddId' 1 2 3 5 1 2 4 4
              Hc Hr Hf ltac:(lia) Hc' Hr' Hf' ltac:(lia)) as [Hinj _].
  intros Heq. destruct (Hinj Heq) as (_ & _ & Hy & _). discriminate Hy.
Defined.

Lemma coadd_id_ordered_witness :
  0 <= 69829
  /\ (69829 < 69892 <->
      1 < 1 \/ (1 = 1 /\ (2 < 2 \/ (2 = 2 /\ (3 < 4 \/ (3 = 4 /\ 5 < 4)))))).
Proof.
  assert (Hc : carries coaddId 1 2 3)
    by (split; eexists; split; reflexivity).
  assert (Hr : in_range 1 2 3) by (unfold in_range; lia).
  assert (Hf : has_filter coaddId 5) by (eexists; split; reflexivity).
  assert (Hc' : carries coaddId' 1 2 4)
    by (split; eexists; split; reflexivity).
  assert (Hr' : in_range 1 2 4) by (unfold in_range; lia).
  assert (Hf' : has_filter coaddId' 4) by (eexists; split; reflexivity).
  exact (coadd_id_ordered coaddId coaddId' 1 2 3 5 1 2 4 4 69829 69892
           Hc Hr Hf ltac:(lia) Hc' Hr' Hf' ltac:(lia) eq_refl eq_refl).
Defined.

Lemma coadd_id_of_text_witness :
  carries coaddId' 1 2 4
  /\ LsstCamMapper.bypass_deepMergedCoaddId coaddId' = Return 1092.
Proof.
  apply (coadd_id_of_text coaddId' 1 2 4).
  - right. reflexivity.
  - reflexivity.
  - unfold in_range. lia.
Defined.

Lemma query_raw_amp_asks_once_witness :
  @LsstCamMapper.query_raw_amp exampleRegistry ampFormat channel16
  = @LsstCamMapper.query_raw_amp otherRegistry ampFormat channel16.
Proof.
  apply (query_raw_amp_asks_once exampleRegistry otherRegistry ampFormat channel16).
  reflexivity.
Defined.

Lemma query_raw_amp_row_count_witness :
  exists rows,
    query_raw (stripped_format ampFormat) (delete "channel" visitOnly) = Return rows
    /\ (delete "channel" visitOnly) !! "channel" = None
    /\ length (flat_map (expand 1) [[VInt 7; VInt 7]; [VInt 8; VInt 8]])
       = (length rows * 16)%nat
    /\ (LsstCamMapper.index "channel" ampFormat = None ->
        flat_map (expand 1) [[VInt 7; VInt 7]; [VInt 8; VInt 8]] = rows).
Proof.
  exact (query_raw_amp_row_count ampFormat visitOnly
           (flat_map (expand 1) [[VInt 7; VInt 7]; [VInt 8; VInt 8]]) eq_refl).
Defined.

Lemma query_raw_amp_propagates_witness :
  @LsstCamMapper.query_raw_amp failingRegistry ampFormat channel16
  = Raise (RuntimeError "registry is locked").
Proof.
  apply (@query_raw_amp_propagates failingRegistry ampFormat channel16).
  - right. exists 16. split; [reflexivity | lia].
  - reflexivity.
Defined.

Lemma hdu_suffix_found_witness :
  PyRe.search_hdu ("raw.fits" +:+ "[" +:+ "12" +:+ "]") = Some "12"
  /\ PyRe.search_hdu ("raw.fits" +:+ "[" +:+ "12" +:+ "]" +:+ newline) = Some "12"
  /\ ((String.length "12" <= 4300)%nat ->
        PyStr.int_of_string "12" = Return (digits_number 0 (list_ascii_of_string "12"))
        /\ 0 <= digits_number 0 (list_ascii_of_string "12"))
  /\ ((4300 < String.length "12")%nat ->
        PyStr.int_of_string "12"
        = Raise (PyStr.too_many_digits (N.of_nat (String.length "12")))).
Proof.
  apply (hdu_suffix_found "raw.fits" "12").
  split; [discriminate | repeat constructor].
Defined.

Lemma hdu_suffix_sound_witness :
  (exists base, "raw.fits[١٢]" = base +:+ "[" +:+ "١٢" +:+ "]"
                \/ "raw.fits[١٢]" = base +:+ "[" +:+ "١٢" +:+ "]" +:+ newline)
  /\ exists ads, reads_as_digits "١٢" ads
                 /\ PyStr.int_of_string "١٢" = int_of_digits ads
                 /\ 0 <= digits_number 0 ads.
Proof.
  apply (hdu_suffix_sound "raw.fits[١٢]" "١٢"). vm_compute. reflexivity.
Defined.

Lemma detector_num_uses_cache_witness :
  LsstSimTranslator.to_detector_num simHeader freshState
  = (Return (Some (VInt 94)),
     LsstSimTranslator.mkTState ∅ (Some (<["R22_S11" := VInt 94]> ∅)) []).
Proof.
  assert (Hraft : to_detector_group simHeader = Return (VStr "R22"))
    by (vm_compute; reflexivity).
  assert (Hname : to_detector_name simHeader = Return (VStr "S11"))
    by (vm_compute; reflexivity).
  destruct (@detector_num_uses_cache exampleSim simHeader freshState
              (VStr "R22") (VStr "S11") Hraft Hname) as (_ & _ & Hread & _).
  exact (Hread "policy/phosim.yaml" eq_refl eq_refl).
Defined.

Lemma reconciliation_keeps_identity_witness :
  length (amps (snd firstRead)) = length (amps exampleWorld)
  /\ (forall n amp, amps exampleWorld !! n = Some amp ->
        exists amp', amps (snd firstRead) !! n = Some amp'
                     /\ name amp' = name amp
                     /\ bbox amp' = bbox amp
                     /\ rawDataBBox amp' = rawDataBBox amp)
  /\ (forall n, (length (raw_amp (exampleComponents true)) <= n)%nat ->
        amps (snd firstRead) !! n = amps exampleWorld !! n).
Proof.
  exact (reconciliation_keeps_identity ∅ (exampleComponents true) exampleWorld
           (snd firstRead) (fst firstRead) (surjective_pairing firstRead)).
Defined.

Lemma warns_and_assembles_once_witness :
  exists evs,
    events (snd firstRead) = (events exampleWorld ++ evs)%list
    /\ (count_if is_patch_warning evs <= 1)%nat
    /\ (count_if is_assemble evs <= 1)%nat
    /\ (forall exposure, fst firstRead = Return exposure ->
          count_if is_assemble evs = 1%nat).
Proof.
  exact (warns_and_assembles_once ∅ (exampleComponents true) exampleWorld
           (snd firstRead) (fst firstRead) (surjective_pairing firstRead)).
Defined.

Lemma matching_geometry_untouched_witness :
  amps (snd (assemble_raw ∅ matchingComponents exampleWorld)) = amps exampleWorld
  /\ exists evs,
       events (snd (assemble_raw ∅ matchingComponents exampleWorld))
       = (events exampleWorld ++ evs)%list
       /\ count_if is_patch_warning evs = 0%nat.
Proof.
  apply (matching_geometry_untouched ∅ matchingComponents exampleWorld
           (snd (assemble_raw ∅ matchingComponents exampleWorld))
           (fst (assemble_raw ∅ matchingComponents exampleWorld))).
  - intros [|[|n]] amp seg Ha Hs; try discriminate Hs;
      injection Ha as <-; injection Hs as <-; reflexivity.
  - apply surjective_pairing.
Defined.

Lemma second_read_is_quiet_witness :
  amps (snd (assemble_raw ∅ (exampleComponents true) (snd firstRead)))
  = amps (snd firstRead)
  /\ exists evs,
       events (snd (assemble_raw ∅ (exampleComponents true) (snd firstRead)))
       = (events (snd firstRead) ++ evs)%list
       /\ count_if is_patch_warning evs = 0%nat.
Proof.
  assert (Hfirst : assemble_raw ∅ (exampleComponents true) exampleWorld
                   = (Return firstExposure, snd firstRead))
    by (vm_compute; reflexivity).
  exact (second_read_is_quiet ∅ ∅ (exampleComponents true) exampleWorld
           (snd firstRead)
           (snd (assemble_raw ∅ (exampleComponents true) (snd firstRead)))
           firstExposure
           (fst (assemble_raw ∅ (exampleComponents true) (snd firstRead)))
           Hfirst (surjective_pairing _)).
Defined.

Lemma empty_declared_box_raises_witness :
  patchGeometry 0 true (exampleSegment "[1:512,1:2000]") (mkWorld [emptyBoxAmp] [])
  = (Raise ZeroDivisionError,
     mkWorld [patchedBoxes emptyBoxAmp (mkBox (0, 0) (576, 2048))] []).
Proof.
  apply (empty_declared_box_raises 0 true (exampleSegment "[1:512,1:2000]")
           (mkWorld [emptyBoxAmp] []) emptyBoxAmp eq_refl).
  - discriminate.
  - reflexivity.
  - left. reflexivity.
Defined.

Lemma iraf_log_levels_witness :
  exists evs,
    events (snd (checkIraf 1 ∅ (exampleSegment "[1:512,1:2000]") exampleWorld))
    = (events exampleWorld ++ evs)%list
    /\ (length evs <= 3)%nat
    /\ Forall (fun e => exists fmt, e = Log Debug fmt) evs
    /\ (ae_metadata (exampleSegment "[1:512,1:2000]") !! "DETSEC" = None ->
        ae_metadata (exampleSegment "[1:512,1:2000]") !! "DATASEC" = None ->
        ae_metadata (exampleSegment "[1:512,1:2000]") !! "BIASSEC" = None ->
        evs = []
        /\ fst (checkIraf 1 ∅ (exampleSegment "[1:512,1:2000]") exampleWorld)
           = Return tt).
Proof.
  exact (iraf_log_levels 1 ∅ (exampleSegment "[1:512,1:2000]") exampleWorld
           (snd (checkIraf 1 ∅ (exampleSegment "[1:512,1:2000]") exampleWorld))
           (exampleAmp "C11" 512 (544, 2048))
           (fst (checkIraf 1 ∅ (exampleSegment "[1:512,1:2000]") exampleWorld))
           eq_refl (surjective_pairing _)).
Defined.
